(* ===== verification/_CoqProject ===== *)
-Q . S2P
Prelude.v
Schema.v
Bvh.v
Traverse.v
Intersect.v
Hit.v
Shade.v
Loader.v
Printer.v
Entry.v
