(* ===== verification/Prelude.v ===== *)
(** * A verification development of the Ray_Tracing_Project ray tracer

    The program (src/src) renders a static scene by casting rays.  Its
    parts, leaf first, and how they interact:

    - schema.h: the scene data.  [Material], [Triangle], the object kinds
      [Sphere], [Plane], [Mesh], [MTriangle] (a mesh triangle split out for
      the BVH), the light kinds [AmbientLight], [DirectionalLight],
      [PointLight], [SpotLight], [Scene] and [BVHNode].  The C++ string tag
      plus pointer cast becomes a closed inductive type.
    - bvh.cpp: [buildBVH] turns the spheres and mesh triangles of the scene
      into (object, min bound, max bound) triples and [subdivide] builds a
      median-split binary tree over them, sorting by [compareAxis] along the
      longest axis of the union box.
    - raytracer.cpp, traversal: [ray_box] (slab test) and [getBVHList]
      (collect the objects whose leaf boxes the ray may hit).
    - raytracer.cpp, intersection: [ray_sphere], [ray_plane],
      [ray_triangle], [ray_mesh], each returning a distance or -1 and
      writing a hit point and normal through out-parameters.
    - raytracer.cpp, [hit]: nearest-hit resolution over the candidates
      (planes plus the BVH candidates), or shadow-opacity accumulation.
    - raytracer.cpp, shading: [light], [reflect], [transmit], [refract],
      [schlickRefract], mutually recursive through the depth counter
      [r_depth] bounded by [MAX_R_DEPTH].
    - raytracer.cpp, entry points: [trace], [ssTrace], and [choose_scene],
      which opens the scene file, loads it and sets up rendering.
    - json2schema.cpp, loading: [json_to_scene] fills the global scene from
      the JSON document of the scene file (camera, objects with their
      materials, lights), returning -1 on an unknown type or a second
      ambient light.
    - json2schema.cpp and utils/json2cpp.cpp, printing: [scene_to_cpp] and
      the [printf_*] helpers write a scene as a C++ initializer; the
      json2cpp utility loads a file and prints it.

    ** Files

    - [Prelude] (this file): 3-vectors over [Q] with the glm operations,
      the C library functions [sqrt]/[acos]/[pow] as the class [Libm] with
      satisfiable laws and an executable instance, boolean comparisons with
      their specifications, the hint database [rt] and shared tactics.
    - [Schema]: schema.h as Records and Inductives.
    - [Bvh]: bvh.cpp.  [std::sort] is the interface [Sorter] (a sort
      returning a sorted permutation); [subdivide] runs on fuel because the
      source recurses for ever on an empty list.
    - [Traverse]: [ray_box] over an extended number type with the IEEE
      infinities and NaN that the reciprocal [1.0f / d[i]] produces for
      axis-parallel rays, and [getBVHList].
    - [Intersect]: [ray_sphere] (its root choice is [sphere_root]),
      [ray_plane], [ray_triangle] and [ray_mesh].  A routine's
      out-parameters are passed in and returned with the distance
      ([RayResult]); [ray_mesh] is a fold of its loop body over
      [MeshState], which holds the locals [nearest_t], [far], [tri_hp],
      [tri_norm].  [nearest_of] (the scan that keeps the nearest distance
      at least [near]) and [range_filter] (a distance seen through the
      interval test) are the specification the scans are compared with.
    - [Hit]: [hit].  The globals it reads are the record [RenderContext],
      built by [choose_scene_setup] as [choose_scene] does after parsing;
      the loop state [HitState] holds the locals and the reference
      parameters; the shadow branch [shadow_step] returns [inl] where the
      source returns early.  [dist] is a routine's distance,
      [occlude] the opacity one candidate adds.
    - [Loader]: [json_to_scene] over a JSON value type [json], with the
      nlohmann::json operations it calls ([operator[]], [find], iteration,
      the conversions to [float] and [std::vector<float>]) written out;
      the outcome type [exec] has the library's exceptions and the
      undefined behaviour of an out-of-range [v[i]] besides the normal
      return, and the scene is passed and returned so that a [return -1]
      keeps what was pushed.  Each loop body is its own definition
      ([load_object], [load_light], [load_material], [load_triangle]).
      [choose_scene] composes it with [choose_scene_setup].  [encode_scene]
      writes a scene in the schema the loader reads: the specification
      of the loader.
    - [Printer]: [scene_to_cpp], the [printf_*] helpers and the json2cpp
      [main] as string-valued functions; a [%f] is [fmt_f].  [read_num]
      and [read_scene], a reader of the printed text, are the
      specification of the printer.
    - [Entry]: the file reading of [choose_scene] and of the json2cpp
      [main].  The file system is the interface [FileSystem] (a path names
      a file, writable or not, whose text parses to a document or throws);
      the messages written to [std::cout] are returned as a list of lines.
      [json2cpp_spec] is what the utility promises.
    - [Shade]: [light], [reflect], [transmit], [refract],
      [schlickRefract], [randomFloat] and [trace].  The C library's
      [rand()] is the interface [RandSource] (the C standard's sample
      generator [ansi_rand] is the executable instance); its state is
      threaded by the state and failure monad [M].  [light] is a
      [Fixpoint] on fuel; [reflect] and [transmit] take the recursive call
      as an argument.  The loop over the lights is [direct_step] (per light
      type [light_dir], the shadow ray and normal flip [lit_step], the
      diffuse and specular terms [light_terms]); [composite] mixes in
      reflection and transmission.  [randomFloat_f32] is [randomFloat] in
      single precision.  [ssTrace] is a loop of [ss_sample] over the four
      sample points followed by [ss_colour]; the pointer comparison of hit
      objects is a parameter [same_object], as the value model has no
      pointers.

    The components interact as in the source: [Loader] fills the scene
    that [choose_scene_setup] turns into the [RenderContext]; [Hit] calls
    the routines of [Intersect] through [intersect] and the traversal of
    [Traverse] over the tree [Bvh] built; [Printer] prints what [Loader]
    loaded; [Entry] reads the file [Loader] loads.  The theorems of [Hit] are proved from the theorems of the
    other files, never by unfolding their code again, and so are those of
    [Printer] about loaded scenes.

    ** Modelling choices

    - glm's single-precision floats are exact rationals [Q]: rounding is
      not modelled, so the theorems are about the algorithm in exact
      arithmetic.  Comparisons are the source's comparisons read on [Q];
      results that are only equal up to [Qeq] are stated with [==].
    - The float literals [1e30f] and [-1e30f] that seed the bounding-box
      folds and the slab test are the decimal [10^30] ([BIG]).
    - [sqrt], [acos] and [pow] are the fields of the class [Libm]; the
      theorems that need facts about [sqrt] take the class [LibmLaws],
      whose laws ([sqrt x >= 0], [sqrt x * sqrt x <= x], [sqrt x > 0] for
      [x > 0]) hold for the exact square root and for the floor square
      root [qsqrt_floor] of the instance [libm_q], which witnesses use.
    - Division by zero in [Q] is 0; where the source relies on IEEE
      division by zero (the slab test) the model uses [xreal].
    - The compile-time flags are the record [Config], so that a theorem
      can compare two builds (with and without [DISABLE_BVH_ACCELERATION]);
      [default_config] holds the values the source is compiled with.
    - The debug argument [pick] is kept where it changes control flow (the
      early exit of shadow mode) and dropped where it only prints.
    - Fuel: [subdivide] takes fuel; [buildBVH] passes the number of
      objects, which [subdivide_total] shows is enough for a non-empty
      input.  [light] takes fuel; [light_fuel r_depth], one level per
      bounce left before [MAX_R_DEPTH] plus one, is enough
      ([light_terminates]), and the lemma [light_fuel_enough] shows that a
      larger fuel changes nothing, so the choice of fuel is not part of
      what the theorems say; [trace] passes [light_fuel 0].  No other
      definition needs fuel: the scans are folds.
    - A [NULL] dereference of the source (a hit without an object) is the
      monad's failure; [trace_terminates] shows it never happens.
    - nlohmann::json is not part of the repository: [Loader] follows its
      documented behaviour (a non-const [j[k]] on [null] or an object
      yields [null] for a missing key, elsewhere it throws; iterating
      [null] visits nothing, a scalar visits itself; a boolean converts to
      0 or 1).  Object members are kept in the library's order and looked
      up by the first match.  A [%f] is glibc's: the exact value, six
      decimals, ties to even, a minus sign on every negative value; a
      rational has no negative zero, so the "-0.000000" glibc prints for
      [-0.0f] is printed "0.000000".
    - [light] declares [RGB reflect_colour, transmit_colour,
      direct_colour] (raytracer.cpp line 453) and [RGB this_light_colour]
      (line 534) without initialiser, adds to them with [+=] and reads
      them when the depth limit leaves them unset; the model starts them
      at black, which is what glm's default constructor gives with
      [GLM_FORCE_CTOR_INIT] or a glm before 0.9.9 (later versions leave
      them uninitialised, and the colours are then indeterminate).
    - [randomFloat] is exact division in [Q]; [randomFloat_f32] and
      [randomFloat_f32_with] round its operands to single precision.
    - The reader loops of [Printer] take the length of the text as fuel;
      every item printed takes at least one character, so it is enough
      ([print_list_length]).

    ** Theorems (by group)

    - Bvh: the tree exists for every non-empty input with fuel equal to
      its length, and for no fuel on the empty input (the divergence of
      [subdivide]); every node's box contains its children's boxes; the
      leaves are a permutation of the input; the depth is [log2_up n];
      [longestAxis] picks a longest axis except on a Y-Z tie.
    - Traverse: the slab test never rejects a box that the ray meets at a
      distance in [[0, 10^30]]; [getBVHList] returns only leaves of the
      tree and every leaf whose box the ray meets.
    - Intersect: a sphere hit lies on the ray inside the ball; a plane
      hit lies on the plane; a triangle
      hit lies in every box around the vertices; the root choice of
      [ray_sphere]; the back-face branch of [ray_triangle] is dead;
      [ray_mesh], which narrows [far], returns the plain nearest scan of its
      triangles.
    - Hit: outside shadow mode [hit] returns the plain nearest scan of its
      candidates; with and without the BVH it finds the same nearest
      distance (up to [10^30]) on every scene whose sphere radii are at
      least 0 and which has no split mesh triangle ([scene_ok]: the loader
      makes no split triangle but accepts a negative radius); with
      binary shadows the first occluder ends the search with full opacity,
      with none the opacity is unchanged; with transparent shadows the
      opacity is the clamped running sum over the occluders, and the early
      exit that only [pick] enables does not change it; [choose_scene]
      fails exactly on scenes with nothing to put in the BVH.
    - Shade: [light] and [trace] terminate and the depth guard bounds the
      recursion; every colour is clamped to [[0, 1]]; a material that
      neither reflects nor transmits gets its direct lighting only; mesh
      triangles are lit the same from both sides; [schlickRefract] never
      refracts an entering ray, so [transmit] sends it on straight;
      in single precision [randomFloat] stays in [[0, 1)] for a C library
      whose [RAND_MAX] is below [2^24] (the [+ 1.0f] of the divisor
      matters) and reaches 1 with glibc's [2^31 - 1]; with toon shading
      off [ssTrace] averages four [trace] calls.
    - Loader: [json_to_scene] reads back every scene written by
      [encode_scene] that has at most one ambient light and no split mesh
      triangle; an object of unknown type and a second ambient light give
      -1 with the scene half loaded; a load never leaves more than one
      ambient light; a vector of fewer than three numbers is undefined
      behaviour.
    - Printer: [scene_to_cpp] prints, in the layout of its source, a text
      that reads back as the scene with every number rounded to six
      decimals ([round6], within half a millionth per number).
    - Entry: a writable scene file holding a loadable scene sets up
      rendering for exactly that scene; [choose_scene(NULL)] announces
      scenes/c.json and reads scenes/b.json; a read-only scene file does
      not open, because [std::fstream] opens for writing too.  As lemmas,
      the json2cpp [main] implements [json2cpp_spec] for what it prints
      itself.
    - No liveness property: the program is single-threaded, reacts to no
      input after reading the scene file, and every loop is bounded; its
      only "eventually" is termination, which [subdivide_total],
      [light_terminates] and [trace_terminates] show.

    ** Not modelled

    The operating system's files and the parsing of a file's text into a
    JSON value by nlohmann::json ([in >> jscene]) are the interface
    [FileSystem], not a model; the messages [json_to_scene] writes to
    [std::cout] and the [pick] debug output are not modelled.
    utils/json2cpp.cpp includes json2scene.h, a header the repository
    does not have, so the utility does not build as it stands: [Printer]
    and [Entry] model its source, and no theorem claims anything about a
    running json2cpp.  Floating-point rounding is not modelled except in
    [randomFloat_f32] and in the printing of numbers ([fmt_f]). *)

From Stdlib Require Import QArith Qpower Qminmax Qround Lqa Psatz ZArith Lia List.
From Stdlib Require Import Morphisms RelationClasses Setoid.
Import ListNotations.

Declare Scope vec_scope.
Delimit Scope vec_scope with V.
Open Scope Q_scope.

Create HintDb rt.
Create Rewrite HintDb rt_simpl.

(** ** Boolean comparisons on [Q] as the C++ operators read them *)

Definition Qltb (x y : Q) : bool := negb (Qle_bool y x).
Definition Qleb (x y : Q) : bool := Qle_bool x y.
Definition Qeqb (x y : Q) : bool := Qeq_bool x y.

Lemma Qltb_spec x y : BoolSpec (x < y) (y <= x) (Qltb x y).
Proof.
  unfold Qltb. destruct (Qle_bool y x) eqn:E; constructor.
  - now apply Qle_bool_iff.
  - apply Qnot_le_lt. intro H. apply Qle_bool_iff in H. congruence.
Qed.

Lemma Qleb_spec x y : BoolSpec (x <= y) (y < x) (Qleb x y).
Proof.
  unfold Qleb. destruct (Qle_bool x y) eqn:E; constructor.
  - now apply Qle_bool_iff.
  - apply Qnot_le_lt. intro H. apply Qle_bool_iff in H. congruence.
Qed.

Lemma Qeqb_spec x y : BoolSpec (x == y) (~ x == y) (Qeqb x y).
Proof.
  unfold Qeqb. destruct (Qeq_bool x y) eqn:E; constructor.
  - now apply Qeq_bool_iff.
  - intro H. apply Qeq_bool_iff in H. congruence.
Qed.

#[export] Instance Qltb_proper : Proper (Qeq ==> Qeq ==> eq) Qltb.
Proof. intros a a' Ea b b' Eb. destruct (Qltb_spec a b), (Qltb_spec a' b'); auto; lra. Qed.
#[export] Instance Qleb_proper : Proper (Qeq ==> Qeq ==> eq) Qleb.
Proof. intros a a' Ea b b' Eb. destruct (Qleb_spec a b), (Qleb_spec a' b'); auto; lra. Qed.

(** [qcase] splits on the first boolean comparison of the goal. *)
Ltac qcase :=
  match goal with
  | |- context [Qltb ?a ?b] => destruct (Qltb_spec a b)
  | |- context [Qleb ?a ?b] => destruct (Qleb_spec a b)
  | |- context [Qeqb ?a ?b] => destruct (Qeqb_spec a b)
  end.

(** [std::min] and [std::max] as the standard defines them:
    [(b < a) ? b : a] and [(a < b) ? b : a]. *)
Definition fmin (a b : Q) : Q := if Qltb b a then b else a.
Definition fmax (a b : Q) : Q := if Qltb a b then b else a.

Lemma fmin_le_l a b : fmin a b <= a.
Proof. unfold fmin. qcase; lra. Qed.
Lemma fmin_le_r a b : fmin a b <= b.
Proof. unfold fmin. qcase; lra. Qed.
Lemma fmax_ge_l a b : a <= fmax a b.
Proof. unfold fmax. qcase; lra. Qed.
Lemma fmax_ge_r a b : b <= fmax a b.
Proof. unfold fmax. qcase; lra. Qed.
Lemma fmin_glb a b c : c <= a -> c <= b -> c <= fmin a b.
Proof. unfold fmin. qcase; lra. Qed.
Lemma fmax_lub a b c : a <= c -> b <= c -> fmax a b <= c.
Proof. unfold fmax. qcase; lra. Qed.

#[export] Hint Resolve fmin_le_l fmin_le_r fmax_ge_l fmax_ge_r fmin_glb fmax_lub : rt.

(** The float literal [1e30f] that seeds the box folds and the slab test. *)
Definition BIG : Q := inject_Z (10 ^ 30).

Lemma BIG_pos : 0 < BIG.
Proof. unfold BIG. reflexivity. Qed.

(** ** glm::vec3 *)

Record vec3 := V3 { vx : Q; vy : Q; vz : Q }.

(** [v[i]] for the axes 0, 1, 2 the code uses. *)
Definition vget (v : vec3) (i : nat) : Q :=
  match i with 0%nat => vx v | 1%nat => vy v | _ => vz v end.

Definition vadd (u w : vec3) : vec3 := V3 (vx u + vx w) (vy u + vy w) (vz u + vz w).
Definition vsub (u w : vec3) : vec3 := V3 (vx u - vx w) (vy u - vy w) (vz u - vz w).
Definition vneg (u : vec3) : vec3 := V3 (- vx u) (- vy u) (- vz u).
(** componentwise product, glm's [u * w] on two vectors *)
Definition vmul (u w : vec3) : vec3 := V3 (vx u * vx w) (vy u * vy w) (vz u * vz w).
(** scalar times vector, glm's [s * v] *)
Definition vscale (s : Q) (u : vec3) : vec3 := V3 (s * vx u) (s * vy u) (s * vz u).
Definition vdivs (u : vec3) (s : Q) : vec3 := V3 (vx u / s) (vy u / s) (vz u / s).
Definition dot (u w : vec3) : Q := vx u * vx w + vy u * vy w + vz u * vz w.
Definition cross (u w : vec3) : vec3 :=
  V3 (vy u * vz w - vz u * vy w) (vz u * vx w - vx u * vz w) (vx u * vy w - vy u * vx w).
Definition vzero : vec3 := V3 0 0 0.
Definition vone : vec3 := V3 1 1 1.

(** [glm::clamp(v, 0.0f, 1.0f)]: [min(max(x, 0), 1)] per channel *)
Definition clamp01 (x : Q) : Q := fmin (fmax x 0) 1.
Definition vclamp01 (u : vec3) : vec3 := V3 (clamp01 (vx u)) (clamp01 (vy u)) (clamp01 (vz u)).

(** [u == w] and [u != w] on glm vectors: all channels compare equal *)
Definition veqb (u w : vec3) : bool := Qeqb (vx u) (vx w) && Qeqb (vy u) (vy w) && Qeqb (vz u) (vz w).

Notation "u ⊕ w" := (vadd u w) (at level 50, left associativity) : vec_scope.
Notation "u ⊖ w" := (vsub u w) (at level 50, left associativity) : vec_scope.
Notation "u ⊗ w" := (vmul u w) (at level 40, left associativity) : vec_scope.
Notation "s ⊛ w" := (vscale s w) (at level 40, left associativity) : vec_scope.
Open Scope vec_scope.

(** Equality of vectors up to [Qeq] on each channel. *)
Definition veq (u w : vec3) : Prop := vx u == vx w /\ vy u == vy w /\ vz u == vz w.
Notation "u ≃ w" := (veq u w) (at level 70, no associativity) : vec_scope.

#[export] Instance veq_equiv : Equivalence veq.
Proof.
  split; unfold veq.
  - intros u. repeat split; reflexivity.
  - intros u w (?&?&?). repeat split; symmetry; assumption.
  - intros u w z (?&?&?) (?&?&?). repeat split; etransitivity; eassumption.
Qed.

Ltac vsplit := unfold veq; cbn [vx vy vz]; repeat split.

#[export] Instance vadd_proper : Proper (veq ==> veq ==> veq) vadd.
Proof. intros ? ? (?&?&?) ? ? (?&?&?). vsplit; cbn; lra. Qed.
#[export] Instance vsub_proper : Proper (veq ==> veq ==> veq) vsub.
Proof. intros ? ? (?&?&?) ? ? (?&?&?). vsplit; cbn; lra. Qed.
#[export] Instance vscale_proper : Proper (Qeq ==> veq ==> veq) vscale.
Proof. intros ? ? E ? ? (A&B&C). vsplit; cbn; now rewrite E, ?A, ?B, ?C. Qed.
#[export] Instance vmul_proper : Proper (veq ==> veq ==> veq) vmul.
Proof. intros ? ? (A&B&C) ? ? (A'&B'&C'). vsplit; cbn; now rewrite ?A, ?B, ?C, ?A', ?B', ?C'. Qed.
#[export] Instance vneg_proper : Proper (veq ==> veq) vneg.
Proof. intros ? ? (A&B&C). vsplit; cbn; now rewrite ?A, ?B, ?C. Qed.
#[export] Instance dot_proper : Proper (veq ==> veq ==> Qeq) dot.
Proof. intros ? ? (A&B&C) ? ? (A'&B'&C'). unfold dot. now rewrite A, B, C, A', B', C'. Qed.
#[export] Instance vget_proper : Proper (veq ==> eq ==> Qeq) vget.
Proof. intros ? ? (A&B&C) i ? <-. destruct i as [|[|]]; assumption. Qed.

Lemma vget_add u w i : vget (u ⊕ w) i = vget u i + vget w i.
Proof. destruct i as [|[|]]; reflexivity. Qed.
Lemma vget_sub u w i : vget (u ⊖ w) i = vget u i - vget w i.
Proof. destruct i as [|[|]]; reflexivity. Qed.
Lemma vget_scale s u i : vget (s ⊛ u) i = s * vget u i.
Proof. destruct i as [|[|]]; reflexivity. Qed.

#[export] Hint Rewrite vget_add vget_sub vget_scale : rt_simpl.

Lemma clamp01_range x : 0 <= clamp01 x <= 1.
Proof.
  unfold clamp01. split.
  - apply fmin_glb; [apply fmax_ge_r | lra].
  - apply fmin_le_r.
Qed.

#[export] Instance clamp01_proper : Proper (Qeq ==> Qeq) clamp01.
Proof.
  intros x y E. unfold clamp01, fmin, fmax.
  destruct (Qltb_spec x 0), (Qltb_spec y 0); cbn beta iota;
  repeat (match goal with |- context [Qltb ?a ?b] => destruct (Qltb_spec a b) end; cbn beta iota); lra.
Qed.

#[export] Instance vclamp01_proper : Proper (veq ==> veq) vclamp01.
Proof. intros ? ? (A&B&C). vsplit; cbn; now rewrite ?A, ?B, ?C. Qed.

Lemma veqb_veq u w : veqb u w = true -> u ≃ w.
Proof.
  unfold veqb. destruct (Qeqb_spec (vx u) (vx w)), (Qeqb_spec (vy u) (vy w)), (Qeqb_spec (vz u) (vz w));
    cbn; intros E; try discriminate. repeat split; assumption.
Qed.

(** [glm::clamp(x, 0, 1)] is 1 from 1 upwards. *)
Lemma clamp01_one x : 1 <= x -> clamp01 x == 1.
Proof.
  intros H. unfold clamp01, fmin, fmax.
  destruct (Qltb_spec x 0); cbn beta iota;
  repeat (match goal with |- context [Qltb ?a ?b] => destruct (Qltb_spec a b) end; cbn beta iota); lra.
Qed.

(** Clamping never goes below a value of [[0, 1]] that the input reaches. *)
Lemma clamp01_ge a x : a <= 1 -> a <= x -> a <= clamp01 x.
Proof.
  intros H1 H2. unfold clamp01, fmin, fmax.
  destruct (Qltb_spec x 0); cbn beta iota;
  repeat (match goal with |- context [Qltb ?a ?b] => destruct (Qltb_spec a b) end; cbn beta iota); lra.
Qed.

Lemma vget_vclamp01 u i : vget (vclamp01 u) i = clamp01 (vget u i).
Proof. destruct i as [|[|]]; reflexivity. Qed.

(** ** The C library: [sqrt], [acos], [pow] *)

Class Libm := { sqrt : Q -> Q; acos : Q -> Q; pow : Q -> Q -> Q }.

(** The facts about [sqrt] and [pow] the theorems use.  They hold for the
    exact functions, for any square root rounded towards zero, and for a
    power with the exponent rounded down. *)
Class LibmLaws (L : Libm) := {
  sqrt_nonneg : forall x, 0 <= sqrt x;
  sqrt_sq_le : forall x, 0 <= x -> sqrt x * sqrt x <= x;
  sqrt_pos : forall x, 0 < x -> 0 < sqrt x;
  sqrt_proper :: Proper (Qeq ==> Qeq) sqrt;
  pow_ge_one : forall x y, 1 <= x -> 0 <= y -> 1 <= pow x y;
  pow_proper :: Proper (Qeq ==> Qeq ==> Qeq) pow
}.

Section WithLibm.
Context `{L : Libm}.

(** [glm::length] and [glm::normalize] ([v * inversesqrt(dot(v, v))]) *)
Definition vlength (u : vec3) : Q := sqrt (dot u u).
Definition normalize (u : vec3) : vec3 := (/ sqrt (dot u u)) ⊛ u.
End WithLibm.

(** ** An executable [Libm] for evaluating the model

    [qsqrt_floor q] is the square root of [q] rounded down to a multiple of
    [1 / (den q * 2^20)], with [q] first reduced so that the result respects
    [Qeq]; [acos] is a monotone piecewise-linear stand-in and [pow x y] is
    [x] to the integer part of [y].  Theorems never rely on these; witnesses
    evaluate with them. *)

Definition sqrt_scale : positive := 1048576.

Definition qsqrt_floor (q : Q) : Q :=
  let r := Qred q in
  Z.sqrt (Qnum r * Zpos (Qden r) * Zpos sqrt_scale * Zpos sqrt_scale) # (Qden r * sqrt_scale).

Definition acos_approx (x : Q) : Q :=
  (3141592653589793 # 2000000000000000) * (1 - fmax (-1) (fmin x 1)).

Definition pow_approx (x y : Q) : Q := Qpower x (Qfloor y).

#[export] Instance libm_q : Libm := {| sqrt := qsqrt_floor; acos := acos_approx; pow := pow_approx |}.

Lemma qsqrt_floor_nonneg x : 0 <= qsqrt_floor x.
Proof.
  unfold qsqrt_floor, Qle. cbn [Qnum Qden]. rewrite Z.mul_0_l, Z.mul_1_r.
  apply Z.sqrt_nonneg.
Qed.

Lemma qsqrt_floor_sq_le x : 0 <= x -> qsqrt_floor x * qsqrt_floor x <= x.
Proof.
  intros Hx. rewrite <- (Qred_correct x) at 3. rewrite <- (Qred_correct x) in Hx.
  unfold qsqrt_floor. destruct (Qred x) as [n d]. unfold Qle in *. cbn in *.
  rewrite Z.mul_1_r in Hx.
  set (N := (n * Z.pos d * 1048576 * 1048576)%Z).
  assert (HN : (0 <= N)%Z) by (unfold N; lia).
  destruct (Z.sqrt_spec N HN) as [Hs _]. cbn zeta in Hs.
  set (s := Z.sqrt N) in *. unfold N in Hs.
  unfold sqrt_scale in *. fold N s. rewrite !Pos2Z.inj_mul. nia.
Qed.

Lemma qsqrt_floor_pos x : 0 < x -> 0 < qsqrt_floor x.
Proof.
  intros Hx. rewrite <- (Qred_correct x) in Hx.
  unfold qsqrt_floor. destruct (Qred x) as [n d]. unfold Qlt in *. cbn in *.
  rewrite Z.mul_1_r in Hx. rewrite Z.mul_1_r.
  apply Z.sqrt_pos. nia.
Qed.

#[export] Instance qsqrt_floor_proper : Proper (Qeq ==> Qeq) qsqrt_floor.
Proof. intros x y E. unfold qsqrt_floor. now rewrite (Qred_complete x y E). Qed.

Lemma pow_approx_ge_one x y : 1 <= x -> 0 <= y -> 1 <= pow_approx x y.
Proof.
  intros Hx Hy. unfold pow_approx. apply Qpower_1_le; [exact Hx|].
  change 0%Z with (Qfloor 0). apply Qfloor_resp_le, Hy.
Qed.

#[export] Instance libm_q_laws : LibmLaws libm_q.
Proof.
  split; cbn.
  - apply qsqrt_floor_nonneg.
  - apply qsqrt_floor_sq_le.
  - apply qsqrt_floor_pos.
  - apply qsqrt_floor_proper.
  - apply pow_approx_ge_one.
  - intros x x' Ex y y' Ey. unfold pow_approx. now rewrite Ex, Ey.
Qed.

(** ** Folds of [std::min] and [std::max] over a list *)

Section FoldMinMax.
Context {A : Type} (g : A -> Q).

Lemma fold_fmin_le_init l a : fold_left (fun acc x => fmin acc (g x)) l a <= a.
Proof.
  revert a. induction l as [|x l IH]; intros a; cbn; [lra|].
  eapply Qle_trans; [apply IH | apply fmin_le_l].
Qed.

Lemma fold_fmin_le_mem l a x : In x l -> fold_left (fun acc x => fmin acc (g x)) l a <= g x.
Proof.
  revert a. induction l as [|y l IH]; intros a Hin; [destruct Hin|]; destruct Hin as [<-|Hin]; cbn.
  - eapply Qle_trans; [apply fold_fmin_le_init | apply fmin_le_r].
  - now apply IH.
Qed.

Lemma fold_fmin_glb l a c :
  c <= a -> (forall x, In x l -> c <= g x) -> c <= fold_left (fun acc x => fmin acc (g x)) l a.
Proof.
  revert a. induction l as [|y l IH]; intros a Ha Hl; cbn; [exact Ha|].
  apply IH; [apply fmin_glb; auto with datatypes | auto with datatypes].
Qed.

Lemma fold_fmax_ge_init l a : a <= fold_left (fun acc x => fmax acc (g x)) l a.
Proof.
  revert a. induction l as [|x l IH]; intros a; cbn; [lra|].
  eapply Qle_trans; [apply fmax_ge_l | apply IH].
Qed.

Lemma fold_fmax_ge_mem l a x : In x l -> g x <= fold_left (fun acc x => fmax acc (g x)) l a.
Proof.
  revert a. induction l as [|y l IH]; intros a Hin; [destruct Hin|]; destruct Hin as [<-|Hin]; cbn.
  - eapply Qle_trans; [apply fmax_ge_r | apply fold_fmax_ge_init].
  - now apply IH.
Qed.

Lemma fold_fmax_lub l a c :
  a <= c -> (forall x, In x l -> g x <= c) -> fold_left (fun acc x => fmax acc (g x)) l a <= c.
Proof.
  revert a. induction l as [|y l IH]; intros a Ha Hl; cbn; [exact Ha|].
  apply IH; [apply fmax_lub; auto with datatypes | auto with datatypes].
Qed.
End FoldMinMax.

(** ** Lists *)

Lemma In_firstn {A} (x : A) n l : In x (firstn n l) -> In x l.
Proof. intros H. rewrite <- (firstn_skipn n l). apply in_or_app. now left. Qed.

Lemma In_skipn {A} (x : A) n l : In x (skipn n l) -> In x l.
Proof. intros H. rewrite <- (firstn_skipn n l). apply in_or_app. now right. Qed.

#[export] Hint Resolve In_firstn In_skipn : rt.

(** The two halves [size / 2] and [size - size / 2] of a list of two or
    more elements are non-empty, shorter than the list, and ordered. *)
Lemma half_bounds n :
  (2 <= n)%nat -> (1 <= n / 2 /\ n / 2 < n /\ 1 <= n - n / 2 /\ n - n / 2 < n /\ n / 2 <= n - n / 2)%nat.
Proof.
  intros Hn. pose proof (Nat.div_mod n 2 ltac:(lia)). pose proof (Nat.mod_upper_bound n 2 ltac:(lia)).
  lia.
Qed.

(** ** Vector identities *)

Lemma dot_neg_l u w : dot (vneg u) w == - dot u w.
Proof. unfold dot; cbn; ring. Qed.

Lemma dot_scale_r s u w : dot u (s ⊛ w) == s * dot u w.
Proof. unfold dot; cbn; ring. Qed.

Lemma dot_scale_l s u w : dot (s ⊛ u) w == s * dot u w.
Proof. unfold dot; cbn; ring. Qed.

Lemma dot_self_nonneg u : 0 <= dot u u.
Proof. unfold dot. nra. Qed.

Lemma coord_sq_le_dot u i : vget u i * vget u i <= dot u u.
Proof. unfold dot. destruct i as [|[|]]; cbn; nra. Qed.

(** [|(e + t d) - c|^2] expanded in [t]. *)
Lemma dot_ray_point e c d t :
  dot (e ⊕ t ⊛ d ⊖ c) (e ⊕ t ⊛ d ⊖ c) ==
  dot (e ⊖ c) (e ⊖ c) + 2 * t * dot d (e ⊖ c) + t * t * dot d d.
Proof. unfold dot; cbn; ring. Qed.

Lemma vget_ray_point e d t i : vget (e ⊕ t ⊛ d) i = vget e i + t * vget d i.
Proof. destruct i as [|[|]]; reflexivity. Qed.

Section LibmFacts.
Context `{L : Libm} `{!LibmLaws L}.

Lemma inv_sqrt_nonneg x : 0 <= / sqrt x.
Proof. apply Qinv_le_0_compat, sqrt_nonneg. Qed.

(** [dot(v, normalize(v))] is [|v|^2 / sqrt(|v|^2)], never negative. *)
Lemma dot_normalize_self u : dot u (normalize u) == / sqrt (dot u u) * dot u u.
Proof. unfold normalize. apply dot_scale_r. Qed.

Lemma dot_normalize_self_nonneg u : 0 <= dot u (normalize u).
Proof.
  rewrite dot_normalize_self. apply Qmult_le_0_compat; [apply inv_sqrt_nonneg | apply dot_self_nonneg].
Qed.
End LibmFacts.

(** Closes a closed comparison on [Q] by evaluation. *)
Ltac qcompute :=
  first [ apply Qle_bool_iff; vm_compute; reflexivity
        | vm_compute; reflexivity ].
