(* ===== verification/Schema.v ===== *)
(** * Schema: the scene data of src/src/schema.h

    [Material] and [Camera] are records with the constructors' defaults;
    the [Object] class hierarchy with its string tag ([Sphere], [Plane],
    [Mesh], [MTriangle]) is one inductive type, and so is [Light].  A
    [BVHNode] is a leaf (an object and its box) or an inner node (a box and
    two children); the C++ leaf test [bvhNode->obj != nullptr] becomes the
    constructor. *)

From Stdlib Require Import QArith List.
From S2P Require Import Prelude.
Import ListNotations.
Open Scope Q_scope.

(** [struct Camera] *)
Record Camera := mkCamera { field : Q; background : vec3 }.

Definition default_camera : Camera := mkCamera 0 vzero.

(** [struct Material] *)
Record Material := mkMaterial {
  ambient : vec3; diffuse : vec3; specular : vec3; shininess : Q;
  reflective : vec3; transmissive : vec3; refraction : Q }.

(** [Material()]: every colour black, shininess 1, no refraction. *)
Definition default_material : Material :=
  mkMaterial vzero vzero vzero 1 vzero vzero 0.

(** [struct Triangle { Vertex vertices[3]; }] *)
Record Triangle := mkTriangle { vert0 : vec3; vert1 : vec3; vert2 : vec3 }.

(** [struct Object] and its subclasses; the constructor is the [type] tag. *)
Inductive Object :=
| Sphere (material : Material) (radius : Q) (position : vec3)
| Plane (material : Material) (position : vec3) (normal : vec3)
| Mesh (material : Material) (triangles : list Triangle)
| MTriangle (material : Material) (triangle : Triangle) (midPoint : vec3).

Definition obj_material (o : Object) : Material :=
  match o with
  | Sphere m _ _ | Plane m _ _ | Mesh m _ | MTriangle m _ _ => m
  end.

(** [struct Light] and its subclasses. *)
Inductive Light :=
| AmbientLight (color : vec3)
| DirectionalLight (color : vec3) (direction : vec3)
| PointLight (color : vec3) (position : vec3)
| SpotLight (color : vec3) (position : vec3) (direction : vec3) (cutoff : Q).

Definition light_color (l : Light) : vec3 :=
  match l with
  | AmbientLight c | DirectionalLight c _ | PointLight c _ | SpotLight c _ _ _ => c
  end.

(** [struct Scene] *)
Record Scene := mkScene { camera : Camera; objects : list Object; lights : list Light }.

(** [struct BVHNode]: a leaf owns one object, an inner node two children;
    both carry [aabbMinBound] and [aabbMaxBound]. *)
Inductive BVHNode :=
| BLeaf (obj : Object) (aabbMinBound aabbMaxBound : vec3)
| BNode (aabbMinBound aabbMaxBound : vec3) (left right : BVHNode).

Definition node_min (t : BVHNode) : vec3 :=
  match t with BLeaf _ mn _ | BNode mn _ _ _ => mn end.
Definition node_max (t : BVHNode) : vec3 :=
  match t with BLeaf _ _ mx | BNode _ mx _ _ => mx end.

(** The objects at the leaves, left to right. *)
Fixpoint leaves (t : BVHNode) : list (Object * vec3 * vec3) :=
  match t with
  | BLeaf o mn mx => [(o, mn, mx)]
  | BNode _ _ l r => leaves l ++ leaves r
  end.

(** Number of edges on the longest root-to-leaf path. *)
Fixpoint depth (t : BVHNode) : nat :=
  match t with
  | BLeaf _ _ _ => 0
  | BNode _ _ l r => S (Nat.max (depth l) (depth r))
  end.

(** ** The constants and feature flags of raytracer.cpp and raytracer.h

    [SELF_HIT] and [MAX_R_DEPTH] are constants; the [DISABLE_*] and
    [ALLOW_HIT_MESH_BACK] switches (raytracer.cpp lines 28-42, and
    [DISABLE_TOON_SHADING] in raytracer.h line 9) are the fields of
    [Config], and [default_config] holds the values the source is
    compiled with. *)

Definition SELF_HIT : Q := 2 # 1000.
Definition MAX_R_DEPTH : nat := 8.

(** raytracer.h line 9: [const bool DISABLE_TOON_SHADING = true]. *)
Definition DISABLE_TOON_SHADING_default : bool := true.

Record Config := mkConfig {
  DISABLE_AMBIENT : bool; DISABLE_DIFFUSE : bool; DISABLE_SPECULAR : bool;
  DISABLE_SHADOW : bool; DISABLE_REFLECTION : bool; DISABLE_TRANSMISSION : bool;
  DISABLE_REFRACTION : bool; DISABLE_SHADOW_TRANSPARENCY : bool;
  DISABLE_BVH_ACCELERATION : bool; DISABLE_SCHLICKREFRACTION : bool;
  DISABLE_OUTLINE_SHADING : bool; DISABLE_SKETCH_SHADING : bool;
  DISABLE_TOON_SHADING : bool; ALLOW_HIT_MESH_BACK : bool }.

Definition default_config : Config := {|
  DISABLE_AMBIENT := false; DISABLE_DIFFUSE := false; DISABLE_SPECULAR := false;
  DISABLE_SHADOW := false; DISABLE_REFLECTION := false; DISABLE_TRANSMISSION := false;
  DISABLE_REFRACTION := false; DISABLE_SHADOW_TRANSPARENCY := false;
  DISABLE_BVH_ACCELERATION := false; DISABLE_SCHLICKREFRACTION := false;
  DISABLE_OUTLINE_SHADING := true; DISABLE_SKETCH_SHADING := true;
  DISABLE_TOON_SHADING := DISABLE_TOON_SHADING_default; ALLOW_HIT_MESH_BACK := true |}.
