(* ===== verification/Bvh.v ===== *)
(** * Bvh: the bounding-volume hierarchy builder of src/src/bvh.cpp

    [buildBVH] collects a triple (object, min bound, max bound) for every
    sphere and every triangle of every mesh (planes are left out), and
    [subdivide] builds a median-split tree: one triple is a leaf; otherwise
    the union box is computed, the triples are sorted by [compareAxis]
    along the longest axis of that box and the two halves (split at
    [size / 2]) are subdivided.  [std::sort] is the interface [Sorter]: a
    sort that returns a permutation of its input, sorted when the
    comparator is [<] on a key; [insertion_sorter] implements it.

    [subdivide] recurses for ever on an empty list (both halves are empty),
    so it takes fuel; [subdivide_total] shows that the length of a
    non-empty input is enough fuel, and [subdivide_nil_diverges] that no
    fuel is enough for the empty one. *)

From Stdlib Require Import QArith Lqa List Permutation Sorted Lia Arith.
From S2P Require Import Prelude Schema.
Import ListNotations.
Open Scope Q_scope.

(** ** The sorting interface *)

Class Sorter := {
  std_sort : forall {A : Type}, (A -> A -> bool) -> list A -> list A;
  std_sort_perm : forall A (comp : A -> A -> bool) l, Permutation l (std_sort comp l);
  std_sort_sorted : forall A (key : A -> Q) l,
    Sorted (fun a b => key a <= key b) (std_sort (fun a b => Qltb (key a) (key b)) l)
}.

Section InsertionSort.
Context {A : Type} (comp : A -> A -> bool).

Fixpoint insert_by (x : A) (l : list A) : list A :=
  match l with
  | [] => [x]
  | y :: ys => if comp x y then x :: y :: ys else y :: insert_by x ys
  end.

Definition insertion_sort (l : list A) : list A := fold_right insert_by [] l.

Lemma insert_by_perm x l : Permutation (x :: l) (insert_by x l).
Proof.
  induction l as [|y ys IH]; cbn; [reflexivity|].
  destruct (comp x y); [reflexivity|].
  rewrite perm_swap. now constructor.
Qed.

Lemma insertion_sort_perm l : Permutation l (insertion_sort l).
Proof.
  induction l as [|x l IH]; cbn; [constructor|].
  rewrite <- insert_by_perm. now constructor.
Qed.
End InsertionSort.

Section InsertionSortKey.
Context {A : Type} (key : A -> Q).
Let R := fun a b => key a <= key b.
Let comp := fun a b => Qltb (key a) (key b).

Lemma insert_by_sorted x l : Sorted R l -> Sorted R (insert_by comp x l).
Proof.
  induction 1 as [|y ys Hs IH Hhd]; cbn; [auto|].
  unfold comp at 1. destruct (Qltb_spec (key x) (key y)).
  - constructor; [constructor; auto | constructor; unfold R; lra].
  - constructor; [exact IH|].
    destruct ys as [|z zs]; cbn; [constructor; unfold R; lra|].
    unfold comp at 1. inversion Hhd; subst.
    destruct (Qltb_spec (key x) (key z)); constructor; unfold R in *; lra.
Qed.

Lemma insertion_sort_sorted l : Sorted R (insertion_sort comp l).
Proof. induction l; cbn; [constructor | now apply insert_by_sorted]. Qed.
End InsertionSortKey.

#[export] Instance insertion_sorter : Sorter := {|
  std_sort := @insertion_sort;
  std_sort_perm := @insertion_sort_perm;
  std_sort_sorted := fun A key l => insertion_sort_sorted key l
|}.

(** ** The builder *)

(** [std::tuple<Object*, glm::vec3, glm::vec3>] *)
Definition BvhObj := (Object * vec3 * vec3)%type.

Definition bo_obj (b : BvhObj) : Object := fst (fst b).
Definition bo_min (b : BvhObj) : vec3 := snd (fst b).
Definition bo_max (b : BvhObj) : vec3 := snd b.

(** The position [compareAxis] reads: the centre of a sphere, the
    [midPoint] of a mesh triangle, 0 for any other object. *)
Definition axis_pos (axis : nat) (o : Object) : Q :=
  match o with
  | Sphere _ _ position => vget position axis
  | MTriangle _ _ midPoint => vget midPoint axis
  | _ => 0
  end.

Definition compareAxis (axis : nat) (obj1 obj2 : BvhObj) : bool :=
  Qltb (axis_pos axis (bo_obj obj1)) (axis_pos axis (bo_obj obj2)).

(** The loop of [subdivide] that computes the union box, from
    [(1e30, 1e30, 1e30)] and [(-1e30, -1e30, -1e30)]. *)
Definition bounds_step (acc : vec3 * vec3) (cur : BvhObj) : vec3 * vec3 :=
  let (gmin, gmax) := acc in
  let cmin := bo_min cur in
  let cmax := bo_max cur in
  (V3 (fmin (vx gmin) (vx cmin)) (fmin (vy gmin) (vy cmin)) (fmin (vz gmin) (vz cmin)),
   V3 (fmax (vx gmax) (vx cmax)) (fmax (vy gmax) (vy cmax)) (fmax (vz gmax) (vz cmax))).

Definition big_min : vec3 := V3 BIG BIG BIG.
Definition big_max : vec3 := V3 (- BIG) (- BIG) (- BIG).

Definition global_bounds (objs : list BvhObj) : vec3 * vec3 :=
  fold_left bounds_step objs (big_min, big_max).

(** [longestAxis]: Y if its extent beats both others, else Z if its
    extent beats both others, else X. *)
Definition longest_axis (extent : vec3) : nat :=
  if Qltb (vx extent) (vy extent) && Qltb (vz extent) (vy extent) then 1
  else if Qltb (vx extent) (vz extent) && Qltb (vy extent) (vz extent) then 2
  else 0.

Section Builder.
Context `{Sorter}.

Fixpoint subdivide (fuel : nat) (bvhObjects : list BvhObj) : option BVHNode :=
  match fuel with
  | O => None
  | S fuel' =>
      match bvhObjects with
      | [(o, mn, mx)] => Some (BLeaf o mn mx)
      | _ =>
          let (gmin, gmax) := global_bounds bvhObjects in
          let longestAxis := longest_axis (gmax ⊖ gmin) in
          let sorted := std_sort (compareAxis longestAxis) bvhObjects in
          let half := (length bvhObjects / 2)%nat in
          match subdivide fuel' (firstn half sorted), subdivide fuel' (skipn half sorted) with
          | Some l, Some r => Some (BNode gmin gmax l r)
          | _, _ => None
          end
      end
  end.

(** The per-object boxes of [buildBVH]. *)
Definition sphere_bounds (radius : Q) (pos : vec3) : vec3 * vec3 :=
  (V3 (vx pos - radius) (vy pos - radius) (vz pos - radius),
   V3 (vx pos + radius) (vy pos + radius) (vz pos + radius)).

(** [minBound.x = std::min(vertices[k].x, minBound.x)] for k = 0, 1, 2. *)
Definition tri_min (f : vec3 -> Q) (t : Triangle) : Q :=
  fmin (f (vert2 t)) (fmin (f (vert1 t)) (fmin (f (vert0 t)) BIG)).
Definition tri_max (f : vec3 -> Q) (t : Triangle) : Q :=
  fmax (f (vert2 t)) (fmax (f (vert1 t)) (fmax (f (vert0 t)) (- BIG))).

Definition triangle_bounds (t : Triangle) : vec3 * vec3 :=
  (V3 (tri_min vx t) (tri_min vy t) (tri_min vz t),
   V3 (tri_max vx t) (tri_max vy t) (tri_max vz t)).

Definition mesh_triangle (m : Material) (t : Triangle) : BvhObj :=
  let (mn, mx) := triangle_bounds t in
  let midPoint := V3 ((vx mx + vx mn) / 2) ((vy mx + vy mn) / 2) ((vz mx + vz mn) / 2) in
  (MTriangle m t midPoint, mn, mx).

(** The filtering loop of [buildBVH]. *)
Definition bvh_objects (o : Object) : list BvhObj :=
  match o with
  | Sphere m radius pos => let (mn, mx) := sphere_bounds radius pos in [(o, mn, mx)]
  | Mesh m triangles => map (mesh_triangle m) triangles
  | _ => []
  end.

Definition buildBVH (objects : list Object) : option BVHNode :=
  let bvhObjects := flat_map bvh_objects objects in
  subdivide (length bvhObjects) bvhObjects.
End Builder.

(** ** Properties of the builder *)

(** The box [(mn', mx')] lies inside the box [(mn, mx)] on every axis. *)
Definition box_in (mn mx mn' mx' : vec3) : Prop :=
  forall i, vget mn i <= vget mn' i /\ vget mx' i <= vget mx i.

(** The BVH invariant: every inner node's box contains both children's. *)
Fixpoint bvh_wf (t : BVHNode) : Prop :=
  match t with
  | BLeaf _ _ _ => True
  | BNode mn mx l r =>
      box_in mn mx (node_min l) (node_max l) /\ box_in mn mx (node_min r) (node_max r) /\
      bvh_wf l /\ bvh_wf r
  end.

Lemma global_bounds_min objs acc i :
  vget (fst (fold_left bounds_step objs acc)) i =
  fold_left (fun a x => fmin a (vget (bo_min x) i)) objs (vget (fst acc) i).
Proof.
  revert acc. induction objs as [|x objs IH]; intros acc; cbn; [reflexivity|].
  rewrite IH. f_equal. destruct acc, i as [|[|]]; reflexivity.
Qed.

Lemma global_bounds_max objs acc i :
  vget (snd (fold_left bounds_step objs acc)) i =
  fold_left (fun a x => fmax a (vget (bo_max x) i)) objs (vget (snd acc) i).
Proof.
  revert acc. induction objs as [|x objs IH]; intros acc; cbn; [reflexivity|].
  rewrite IH. f_equal. destruct acc, i as [|[|]]; reflexivity.
Qed.

Lemma box_in_refl mn mx : box_in mn mx mn mx.
Proof. intros i. split; apply Qle_refl. Qed.

Lemma box_in_trans a b c d e f : box_in a b c d -> box_in c d e f -> box_in a b e f.
Proof. intros H1 H2 i. destruct (H1 i), (H2 i). split; eapply Qle_trans; eauto. Qed.

(** In a tree with the invariant, every leaf's box lies inside the box of
    the root. *)
Lemma wf_leaf_in_box t o mn mx :
  bvh_wf t -> In (o, mn, mx) (leaves t) -> box_in (node_min t) (node_max t) mn mx.
Proof.
  induction t as [o' mn' mx'|mn' mx' l IHl r IHr]; cbn [leaves bvh_wf].
  - intros _ [E|[]]. inversion E; subst. apply box_in_refl.
  - intros (Hl&Hr&Wl&Wr) Hin. apply in_app_or in Hin as [Hin|Hin].
    + eapply box_in_trans; [exact Hl | now apply IHl].
    + eapply box_in_trans; [exact Hr | now apply IHr].
Qed.

Section BuilderProofs.
Context `{Sorter}.

Definition sorted_objs (objs : list BvhObj) : list BvhObj :=
  let gb := global_bounds objs in
  std_sort (compareAxis (longest_axis (snd gb ⊖ fst gb))) objs.

(** One step of [subdivide] on a list that is not a singleton. *)
Lemma subdivide_S_split f objs :
  length objs <> 1%nat ->
  subdivide (S f) objs =
  match subdivide f (firstn (length objs / 2) (sorted_objs objs)),
        subdivide f (skipn (length objs / 2) (sorted_objs objs)) with
  | Some l, Some r => Some (BNode (fst (global_bounds objs)) (snd (global_bounds objs)) l r)
  | _, _ => None
  end.
Proof.
  intros Hn. unfold sorted_objs.
  destruct objs as [|[[o mn] mx] [|y l]]; [| cbn in Hn; lia |];
    cbn [subdivide]; destruct (global_bounds _); reflexivity.
Qed.

(** What one step of [subdivide] produced. *)
Lemma subdivide_inv f objs t :
  subdivide (S f) objs = Some t ->
  (exists o mn mx, objs = [(o, mn, mx)] /\ t = BLeaf o mn mx) \/
  (exists l r, length objs <> 1%nat /\
     t = BNode (fst (global_bounds objs)) (snd (global_bounds objs)) l r /\
     subdivide f (firstn (length objs / 2) (sorted_objs objs)) = Some l /\
     subdivide f (skipn (length objs / 2) (sorted_objs objs)) = Some r).
Proof.
  intros Hs. destruct (Nat.eq_dec (length objs) 1) as [H1|H1].
  - left. destruct objs as [|[[o mn] mx] [|y l]]; cbn in H1; try lia.
    inversion Hs. eauto.
  - right. rewrite subdivide_S_split in Hs by exact H1.
    destruct (subdivide f (firstn _ _)) eqn:E1; destruct (subdivide f (skipn _ _)) eqn:E2;
      inversion Hs; subst; eauto 10.
Qed.

Lemma In_sorted_objs x objs : In x (sorted_objs objs) -> In x objs.
Proof. intros Hin. eapply Permutation_in; [symmetry; apply std_sort_perm | exact Hin]. Qed.

Lemma length_sorted_objs objs : length (sorted_objs objs) = length objs.
Proof. symmetry. apply Permutation_length, std_sort_perm. Qed.

Lemma global_min_le objs x i : In x objs -> vget (fst (global_bounds objs)) i <= vget (bo_min x) i.
Proof. intros Hin. unfold global_bounds. rewrite global_bounds_min.
  now apply (fold_fmin_le_mem (fun y => vget (bo_min y) i)). Qed.

Lemma global_max_ge objs x i : In x objs -> vget (bo_max x) i <= vget (snd (global_bounds objs)) i.
Proof. intros Hin. unfold global_bounds. rewrite global_bounds_max.
  now apply (fold_fmax_ge_mem (fun y => vget (bo_max y) i)). Qed.

Lemma global_min_le_big objs i : vget (fst (global_bounds objs)) i <= BIG.
Proof.
  unfold global_bounds. rewrite global_bounds_min.
  eapply Qle_trans; [apply (fold_fmin_le_init (fun y => vget (bo_min y) i)) | destruct i as [|[|]]; cbn; lra].
Qed.

Lemma global_max_ge_big objs i : - BIG <= vget (snd (global_bounds objs)) i.
Proof.
  unfold global_bounds. rewrite global_bounds_max.
  eapply Qle_trans; [| apply (fold_fmax_ge_init (fun y => vget (bo_max y) i))]. destruct i as [|[|]]; cbn; lra.
Qed.

(** The box of a built tree lies above every common lower bound of the
    inputs' boxes and of [1e30] (and dually for the max bound). *)
Lemma subdivide_min_glb f objs t i c :
  subdivide f objs = Some t -> c <= BIG ->
  (forall x, In x objs -> c <= vget (bo_min x) i) -> c <= vget (node_min t) i.
Proof.
  destruct f as [|f]; [discriminate|]. intros Hs Hc Hall.
  apply subdivide_inv in Hs as [(o&mn&mx&->&->)|(l&r&_&->&_)].
  - apply (Hall (o, mn, mx)). now left.
  - cbn [node_min]. unfold global_bounds. rewrite global_bounds_min.
    apply (fold_fmin_glb (fun y => vget (bo_min y) i)); [destruct i as [|[|]]; exact Hc | exact Hall].
Qed.

Lemma subdivide_max_lub f objs t i c :
  subdivide f objs = Some t -> - BIG <= c ->
  (forall x, In x objs -> vget (bo_max x) i <= c) -> vget (node_max t) i <= c.
Proof.
  destruct f as [|f]; [discriminate|]. intros Hs Hc Hall.
  apply subdivide_inv in Hs as [(o&mn&mx&->&->)|(l&r&_&->&_)].
  - apply (Hall (o, mn, mx)). now left.
  - cbn [node_max]. unfold global_bounds. rewrite global_bounds_max.
    apply (fold_fmax_lub (fun y => vget (bo_max y) i)); [destruct i as [|[|]]; exact Hc | exact Hall].
Qed.

(** A child built from a part of the sorted input lies in the union box. *)
Lemma subdivide_child_in f objs part t :
  (forall x, In x part -> In x objs) -> subdivide f part = Some t ->
  box_in (fst (global_bounds objs)) (snd (global_bounds objs)) (node_min t) (node_max t).
Proof.
  intros Hsub Hs i. split.
  - eapply subdivide_min_glb; [exact Hs | apply global_min_le_big |].
    intros x Hx. apply global_min_le, Hsub, Hx.
  - eapply subdivide_max_lub; [exact Hs | apply global_max_ge_big |].
    intros x Hx. apply global_max_ge, Hsub, Hx.
Qed.

(** No fuel makes [subdivide] return on the empty list. *)
Lemma subdivide_nil fuel : subdivide fuel [] = None.
Proof.
  induction fuel as [|f IH]; [reflexivity|].
  simpl. now rewrite IH.
Qed.

(** C10: [subdivide] diverges on an empty list: no amount of fuel makes it
    return, because both halves of an empty list are empty again. *)
Theorem subdivide_nil_diverges fuel : subdivide fuel [] = None.
Proof. exact (subdivide_nil fuel). Qed.

(** Fuel at least the number of objects makes [subdivide] return on a
    non-empty input. *)
Lemma subdivide_returns fuel objs :
  objs <> [] -> (length objs <= fuel)%nat -> exists t, subdivide fuel objs = Some t.
Proof.
  revert objs. induction fuel as [|f IH]; intros objs Hne Hlen.
  { destruct objs; [congruence | cbn in Hlen; lia]. }
  destruct (Nat.eq_dec (length objs) 1) as [H1|H1].
  { destruct objs as [|[[o mn] mx] [|y l]]; cbn in H1; try lia. eexists; reflexivity. }
  assert (Hn : (2 <= length objs)%nat).
  { destruct objs; [congruence | cbn in *; lia]. }
  rewrite subdivide_S_split by exact H1.
  pose proof (length_sorted_objs objs) as Hs. pose proof (half_bounds _ Hn).
  destruct (IH (firstn (length objs / 2) (sorted_objs objs))) as [tl ->].
  { rewrite <- length_zero_iff_nil, length_firstn, Hs. lia. }
  { rewrite length_firstn. lia. }
  destruct (IH (skipn (length objs / 2) (sorted_objs objs))) as [tr ->].
  { rewrite <- length_zero_iff_nil, length_skipn, Hs. lia. }
  { rewrite length_skipn. lia. }
  eauto.
Qed.

(** C9: [subdivide] terminates on every non-empty input: fuel equal to the
    number of objects is enough to build the tree. *)
Theorem subdivide_total fuel objs :
  objs <> [] -> (length objs <= fuel)%nat -> exists t, subdivide fuel objs = Some t.
Proof. exact (subdivide_returns fuel objs). Qed.

(** The leaves of a built tree are a permutation of its input. *)
Lemma subdivide_perm f objs t :
  subdivide f objs = Some t -> Permutation (leaves t) objs.
Proof.
  revert objs t. induction f as [|f IH]; intros objs t Hs; [discriminate|].
  apply subdivide_inv in Hs as [(o&mn&mx&->&->)|(l&r&_&->&El&Er)]; [reflexivity|].
  cbn [leaves]. rewrite (IH _ _ El), (IH _ _ Er), firstn_skipn.
  symmetry. apply std_sort_perm.
Qed.

(** C8: the leaves of a built tree are exactly the input objects, each
    once: a permutation of the input. *)
Theorem subdivide_leaves_perm f objs t :
  subdivide f objs = Some t -> Permutation (leaves t) objs.
Proof. exact (subdivide_perm f objs t). Qed.

(** A built tree has the BVH invariant. *)
Lemma subdivide_bvh_wf f objs t : subdivide f objs = Some t -> bvh_wf t.
Proof.
  revert objs t. induction f as [|f IH]; intros objs t Hs; [discriminate|].
  apply subdivide_inv in Hs as [(o&mn&mx&->&->)|(l&r&_&->&El&Er)]; [exact I|].
  cbn [bvh_wf]. split; [|split; [|split]]; eauto.
  - eapply subdivide_child_in; [|exact El]. eauto using In_firstn, In_sorted_objs.
  - eapply subdivide_child_in; [|exact Er]. eauto using In_skipn, In_sorted_objs.
Qed.

(** C3: the BVH invariant: in a built tree every inner node's box contains
    the boxes of both its children. *)
Theorem subdivide_wf f objs t : subdivide f objs = Some t -> bvh_wf t.
Proof. exact (subdivide_bvh_wf f objs t). Qed.

Lemma log2_up_half n : (2 <= n)%nat -> Nat.log2_up n = S (Nat.log2_up (n - n / 2)).
Proof.
  intros Hn. destruct (Nat.Even_or_Odd n) as [[m ->]|[m ->]].
  - replace (2 * m - 2 * m / 2)%nat with m by (rewrite Nat.mul_comm, Nat.div_mul; lia).
    apply Nat.log2_up_double. lia.
  - replace ((2 * m + 1) / 2)%nat with m by (apply (Nat.div_unique _ 2 m 1); lia).
    rewrite Nat.log2_up_succ_double by lia.
    replace (2 * m + 1 - m)%nat with (S m) by lia.
    rewrite Nat.log2_up_eqn by lia. reflexivity.
Qed.

(** C20: the median split balances the tree: its depth is [log2_up n] for
    [n] objects. *)
Theorem subdivide_depth f objs t :
  subdivide f objs = Some t -> depth t = Nat.log2_up (length objs).
Proof.
  revert objs t. induction f as [|f IH]; intros objs t Hs; [discriminate|].
  apply subdivide_inv in Hs as [(o&mn&mx&->&->)|(l&r&Hn1&->&El&Er)]; [reflexivity|].
  cbn [depth]. rewrite (IH _ _ El), (IH _ _ Er), length_firstn, length_skipn, length_sorted_objs.
  destruct objs as [|x objs].
  { cbn in El. now rewrite subdivide_nil in El. }
  set (n := length (x :: objs)) in *. assert (Hn : (2 <= n)%nat) by (cbn in *; lia).
  pose proof (half_bounds _ Hn).
  rewrite Nat.min_l by lia. rewrite Nat.max_r by (apply Nat.log2_up_le_mono; lia).
  symmetry. now apply log2_up_half.
Qed.
End BuilderProofs.

(** ** Executable checks *)

Definition box_inb (mn mx mn' mx' : vec3) : bool :=
  forallb (fun i => Qleb (vget mn i) (vget mn' i) && Qleb (vget mx' i) (vget mx i)) [0; 1; 2]%nat.

Fixpoint bvh_wfb (t : BVHNode) : bool :=
  match t with
  | BLeaf _ _ _ => true
  | BNode mn mx l r =>
      box_inb mn mx (node_min l) (node_max l) && box_inb mn mx (node_min r) (node_max r) &&
      bvh_wfb l && bvh_wfb r
  end.

Lemma box_inb_sound mn mx mn' mx' : box_inb mn mx mn' mx' = true -> box_in mn mx mn' mx'.
Proof.
  unfold box_inb. rewrite forallb_forall. intros H.
  assert (G : forall j, In j [0; 1; 2]%nat -> vget mn j <= vget mn' j /\ vget mx' j <= vget mx j).
  { intros j Hj. specialize (H j Hj). apply andb_prop in H as [H1 H2].
    destruct (Qleb_spec (vget mn j) (vget mn' j)); [|discriminate].
    destruct (Qleb_spec (vget mx' j) (vget mx j)); [|discriminate]. auto. }
  intros [|[|i]]; [apply G | apply G | apply (G 2%nat)]; cbn; auto.
Qed.

Lemma bvh_wfb_sound t : bvh_wfb t = true -> bvh_wf t.
Proof.
  induction t as [|mn mx l IHl r IHr]; cbn; [trivial|].
  intros H. apply andb_prop in H as [H Wr]. apply andb_prop in H as [H Wl].
  apply andb_prop in H as [Bl Br].
  split; [|split; [|split]]; auto using box_inb_sound.
Qed.

(** ** An example scene

    Two spheres, a plane (left out of the BVH) and a one-triangle mesh. *)

Definition ex_material : Material :=
  mkMaterial (V3 (1 # 5) (1 # 5) (1 # 5)) (V3 1 0 0) vzero 1 vzero vzero 0.

Definition ex_objects : list Object :=
  [Sphere ex_material 1 (V3 0 0 (-5));
   Plane ex_material (V3 0 (-1) 0) (V3 0 1 0);
   Sphere ex_material 1 (V3 3 0 (-6));
   Mesh ex_material [mkTriangle (V3 (-3) 0 (-4)) (V3 (-2) 1 (-4)) (V3 (-2) 0 (-5))]].

Definition ex_bvh_objects : list BvhObj := flat_map bvh_objects ex_objects.

Definition ex_tree : BVHNode :=
  Eval vm_compute in
  match buildBVH ex_objects with Some t => t | None => BLeaf (Plane ex_material vzero vzero) vzero vzero end.

Lemma ex_tree_built : subdivide 3 ex_bvh_objects = Some ex_tree.
Proof. vm_compute. reflexivity. Qed.

(** ** Witnesses on the example scene *)

Lemma subdivide_total_witness :
  ex_bvh_objects <> [] /\ (length ex_bvh_objects <= 3)%nat /\
  exists t, subdivide 3 ex_bvh_objects = Some t.
Proof.
  assert (Hne : ex_bvh_objects <> []) by (vm_compute; discriminate).
  assert (Hlen : (length ex_bvh_objects <= 3)%nat) by (vm_compute; lia).
  split; [exact Hne | split; [exact Hlen | exact (subdivide_total 3 ex_bvh_objects Hne Hlen)]].
Defined.

Lemma subdivide_leaves_perm_witness :
  subdivide 3 ex_bvh_objects = Some ex_tree /\ Permutation (leaves ex_tree) ex_bvh_objects.
Proof.
  assert (E : subdivide 3 ex_bvh_objects = Some ex_tree) by (vm_compute; reflexivity).
  split; [exact E | exact (subdivide_leaves_perm 3 ex_bvh_objects ex_tree E)].
Defined.

Lemma subdivide_wf_witness : subdivide 3 ex_bvh_objects = Some ex_tree /\ bvh_wf ex_tree.
Proof.
  assert (E : subdivide 3 ex_bvh_objects = Some ex_tree) by (vm_compute; reflexivity).
  split; [exact E | exact (subdivide_wf 3 ex_bvh_objects ex_tree E)].
Defined.

Lemma subdivide_depth_witness :
  subdivide 3 ex_bvh_objects = Some ex_tree /\ depth ex_tree = 2%nat.
Proof.
  assert (E : subdivide 3 ex_bvh_objects = Some ex_tree) by (vm_compute; reflexivity).
  split; [exact E | exact (subdivide_depth 3 ex_bvh_objects ex_tree E)].
Defined.

(** ** The split axis *)

(** C33: [longestAxis] picks an axis of largest extent, except when the
    Y and Z extents tie above the X extent: then it falls back to X, the
    shortest axis. *)
Theorem longest_axis_max extent :
  let a := longest_axis extent in
  (forall i, vget extent i <= vget extent a) \/
  (a = 0%nat /\ vy extent == vz extent /\ vx extent < vy extent).
Proof.
  cbv zeta. unfold longest_axis.
  destruct (Qltb_spec (vx extent) (vy extent)), (Qltb_spec (vz extent) (vy extent)),
    (Qltb_spec (vx extent) (vz extent)), (Qltb_spec (vy extent) (vz extent)); cbn [andb];
    try (right; split; [reflexivity | split; lra]);
    left; intros [|[|i]]; cbn [vget]; lra.
Qed.

Lemma longest_axis_max_witness :
  longest_axis (V3 1 5 5) = 0%nat /\ vx (V3 1 5 5) < vy (V3 1 5 5) /\
  ((forall i, vget (V3 1 5 5) i <= vget (V3 1 5 5) (longest_axis (V3 1 5 5))) \/
   (longest_axis (V3 1 5 5) = 0%nat /\ vy (V3 1 5 5) == vz (V3 1 5 5) /\ vx (V3 1 5 5) < vy (V3 1 5 5))).
Proof.
  split; [reflexivity | split; [qcompute | exact (longest_axis_max (V3 1 5 5))]].
Defined.
