(* ===== verification/Traverse.v ===== *)
(** * Traverse: BVH traversal of src/src/raytracer.cpp

    [ray_box] is the slab test (lines 197-212) and [getBVHList] the
    candidate-gathering descent (lines 214-238).  The slab test computes
    [1.0f / d[i]]; for an axis-parallel ray that is an IEEE infinity and the
    products that follow can be infinite or NaN, so the test runs over
    [xreal], the rationals extended with the two infinities and NaN, with
    IEEE comparisons (every comparison with NaN is false).  A zero
    direction component is read as [+0.0], whose reciprocal is [+inf]; the
    outcome is the same for [-0.0] because the swap of [t0] and [t1]
    compensates.

    The slab test ignores [near] and [far]: it tests the ray from distance 0
    on, clamped to [[-1e30, 1e30]].  The theorems: [ray_box_sound] (a box
    the ray meets at a distance in [[0, 1e30]] passes the test) and the
    soundness and completeness of [getBVHList] on a tree with the BVH
    invariant. *)

From Stdlib Require Import QArith Lqa Lia List.
From S2P Require Import Prelude Schema Bvh.
Import ListNotations.
Open Scope Q_scope.

(** ** Floats with infinities and NaN *)

Inductive xreal := XFin (q : Q) | XPosInf | XNegInf | XNaN.

(** IEEE [<]: false whenever an operand is NaN. *)
Definition xlt (x y : xreal) : bool :=
  match x, y with
  | XFin a, XFin b => Qltb a b
  | XNegInf, (XFin _ | XPosInf) => true
  | XFin _, XPosInf => true
  | _, _ => false
  end.

(** IEEE [<=]. *)
Definition xle (x y : xreal) : bool :=
  match x, y with
  | XFin a, XFin b => Qleb a b
  | XNegInf, (XFin _ | XPosInf | XNegInf) => true
  | (XFin _ | XPosInf), XPosInf => true
  | _, _ => false
  end.

(** [1.0f / q]; a zero [q] is [+0.0]. *)
Definition xrecip (q : Q) : xreal :=
  if Qeqb q 0 then XPosInf else XFin (/ q).

(** [a * x] for a finite [a]: zero times an infinity is NaN. *)
Definition xmul_q (a : Q) (x : xreal) : xreal :=
  match x with
  | XFin b => XFin (a * b)
  | XPosInf => if Qltb 0 a then XPosInf else if Qltb a 0 then XNegInf else XNaN
  | XNegInf => if Qltb 0 a then XNegInf else if Qltb a 0 then XPosInf else XNaN
  | XNaN => XNaN
  end.

(** ** The slab test *)

(** One iteration of the loop over the axes [i = 0, 1, 2]. *)
Definition slab_step (mn mx e d : vec3) (acc : xreal * xreal) (i : nat) : xreal * xreal :=
  let (tMin, tMax) := acc in
  let invD := xrecip (vget d i) in
  let t0 := xmul_q (vget mn i - vget e i) invD in
  let t1 := xmul_q (vget mx i - vget e i) invD in
  let (t0, t1) := if xlt invD (XFin 0) then (t1, t0) else (t0, t1) in
  (if xlt tMin t0 then t0 else tMin, if xlt t1 tMax then t1 else tMax).

(** [ray_box]: [tMax >= std::max(0.0f, tMin)], where [std::max(a, b)] is
    [(a < b) ? b : a].  [near] and [far] are not read. *)
Definition ray_box (node : BVHNode) (e d : vec3) (near far : Q) : bool :=
  let (tMin, tMax) :=
    fold_left (slab_step (node_min node) (node_max node) e d) [0; 1; 2]%nat (XFin (- BIG), XFin BIG) in
  xle (if xlt (XFin 0) tMin then tMin else XFin 0) tMax.

(** [getBVHList]: a leaf passes on its object when its own box passes the
    test; an inner node descends into each child whose box passes. *)
Fixpoint getBVHList (node : BVHNode) (e d : vec3) (near far : Q) : list Object :=
  match node with
  | BLeaf obj _ _ => if ray_box node e d near far then [obj] else []
  | BNode _ _ l r =>
      (if ray_box l e d near far then getBVHList l e d near far else []) ++
      (if ray_box r e d near far then getBVHList r e d near far else [])
  end.

(** ** Soundness of the slab test *)

(** The ray meets the box [(mn, mx)] at distance [t], with [t] in the
    window [[0, 1e30]] the slab test searches. *)
Definition ray_meets (mn mx e d : vec3) (t : Q) : Prop :=
  0 <= t <= BIG /\ forall i, (i < 3)%nat -> vget mn i <= vget e i + t * vget d i <= vget mx i.

(** [tMin] is at most [t] and [tMax] at least [t]. *)
Definition lo_ok (t : Q) (x : xreal) : Prop :=
  match x with XFin a => a <= t | XNegInf => True | _ => False end.
Definition hi_ok (t : Q) (x : xreal) : Prop :=
  match x with XFin b => t <= b | XPosInf => True | _ => False end.

(** A candidate for [tMin] (or [tMax]): NaN and the harmless infinity are
    allowed since the update never takes them. *)
Definition lo_cand (t : Q) (x : xreal) : Prop :=
  match x with XFin a => a <= t | XPosInf => False | _ => True end.
Definition hi_cand (t : Q) (x : xreal) : Prop :=
  match x with XFin b => t <= b | XNegInf => False | _ => True end.

Lemma upd_lo t tMin t0 : lo_ok t tMin -> lo_cand t t0 -> lo_ok t (if xlt tMin t0 then t0 else tMin).
Proof.
  intros H1 H2. destruct (xlt tMin t0) eqn:E; [|exact H1].
  destruct t0; cbn in *; auto; destruct tMin; discriminate.
Qed.

Lemma upd_hi t tMax t1 : hi_ok t tMax -> hi_cand t t1 -> hi_ok t (if xlt t1 tMax then t1 else tMax).
Proof.
  intros H1 H2. destruct (xlt t1 tMax) eqn:E; [|exact H1].
  destruct t1; cbn in *; auto; destruct tMax; discriminate.
Qed.

(** One axis: if the ray's coordinate at [t] is inside the slab
    [[e + a, e + b]], the (possibly swapped) slab distances bracket [t]. *)
Lemma slab_cands a b dd t :
  a <= t * dd -> t * dd <= b ->
  let invD := xrecip dd in
  let t0 := xmul_q a invD in
  let t1 := xmul_q b invD in
  let (t0', t1') := if xlt invD (XFin 0) then (t1, t0) else (t0, t1) in
  lo_cand t t0' /\ hi_cand t t1'.
Proof.
  intros Ha Hb. unfold xrecip. destruct (Qeqb_spec dd 0) as [Z|NZ].
  - assert (a <= 0 /\ 0 <= b) as [Ha' Hb'] by (rewrite Z, Qmult_0_r in Ha, Hb; lra).
    cbn [xlt xmul_q]. split; cbn; repeat qcase; cbn; lra.
  - assert (Hinv : dd * / dd == 1) by (apply Qmult_inv_r; exact NZ).
    set (x := / dd) in *.
    assert (Ht : t * dd * x == t) by (rewrite <- Qmult_assoc, Hinv; ring).
    cbn [xlt xmul_q]. destruct (Qltb_spec x 0) as [Neg|Pos]; cbn.
    + split; nra.
    + assert (0 < x) by (destruct (Qeq_dec x 0) as [E|E];
        [rewrite E, Qmult_0_r in Hinv; discriminate | apply Qle_lteq in Pos as [P|P]; [exact P | now symmetry in P]]).
      split; nra.
Qed.

Lemma slab_step_ok mn mx e d t acc i :
  lo_ok t (fst acc) -> hi_ok t (snd acc) ->
  vget mn i <= vget e i + t * vget d i <= vget mx i ->
  lo_ok t (fst (slab_step mn mx e d acc i)) /\ hi_ok t (snd (slab_step mn mx e d acc i)).
Proof.
  intros Hlo Hhi Hin. destruct acc as [tMin tMax]. unfold slab_step. cbn [fst snd] in *.
  pose proof (slab_cands (vget mn i - vget e i) (vget mx i - vget e i) (vget d i) t
    ltac:(lra) ltac:(lra)) as Hc.
  cbv zeta in Hc. destruct (xlt _ (XFin 0)); destruct Hc; cbn [fst snd];
    split; [apply upd_lo | apply upd_hi | apply upd_lo | apply upd_hi]; assumption.
Qed.

Lemma slab_fold_ok mn mx e d t :
  0 <= t <= BIG ->
  (forall i, (i < 3)%nat -> vget mn i <= vget e i + t * vget d i <= vget mx i) ->
  let acc := fold_left (slab_step mn mx e d) [0; 1; 2]%nat (XFin (- BIG), XFin BIG) in
  lo_ok t (fst acc) /\ hi_ok t (snd acc).
Proof.
  intros Ht Hax. cbn [fold_left].
  destruct (slab_step_ok mn mx e d t (XFin (- BIG), XFin BIG) 0%nat) as [L1 H1];
    [cbn; lra | cbn; lra | apply Hax; lia |].
  destruct (slab_step_ok mn mx e d t _ 1%nat L1 H1) as [L2 H2]; [apply Hax; lia|].
  apply slab_step_ok; [exact L2 | exact H2 | apply Hax; lia].
Qed.

Lemma slab_final_ok t tMin tMax :
  0 <= t -> lo_ok t tMin -> hi_ok t tMax ->
  xle (if xlt (XFin 0) tMin then tMin else XFin 0) tMax = true.
Proof.
  intros Ht L H. destruct tMin as [a| | |]; destruct tMax as [b| | |]; cbn in L, H |- *;
    try contradiction; repeat (qcase; cbn); try reflexivity; lra.
Qed.

(** The slab test accepts every box the ray meets in [[0, 1e30]]. *)
Lemma slab_test_accepts node e d near far t :
  ray_meets (node_min node) (node_max node) e d t -> ray_box node e d near far = true.
Proof.
  intros [Ht Hax]. unfold ray_box.
  destruct (slab_fold_ok (node_min node) (node_max node) e d t Ht Hax) as [L H].
  destruct (fold_left _ _ _) as [tMin tMax]. apply (slab_final_ok t); [lra | exact L | exact H].
Qed.

(** C18: the slab test is conservative: a box that the ray meets at some
    distance in [[0, 1e30]] passes [ray_box], axis-parallel rays
    included. *)
Theorem ray_box_sound node e d near far t :
  ray_meets (node_min node) (node_max node) e d t -> ray_box node e d near far = true.
Proof. exact (slab_test_accepts node e d near far t). Qed.

(** ** The candidate list *)

Lemma ray_meets_mono mn mx mn' mx' e d t :
  box_in mn mx mn' mx' -> ray_meets mn' mx' e d t -> ray_meets mn mx e d t.
Proof.
  intros Hb [Ht Hax]. split; [exact Ht|]. intros i Hi.
  destruct (Hb i), (Hax i Hi). split; eapply Qle_trans; eauto.
Qed.

(** Every object [getBVHList] returns is stored at a leaf. *)
Lemma getBVHList_in_leaves t e d near far o :
  In o (getBVHList t e d near far) -> exists mn mx, In (o, mn, mx) (leaves t).
Proof.
  induction t as [o' mn mx|mn mx l IHl r IHr]; cbn [getBVHList leaves].
  - destruct (ray_box _ _ _ _ _); [intros [<-|[]] | intros []]. eauto with datatypes.
  - intros Hin. apply in_app_or in Hin as [Hin|Hin].
    + destruct (ray_box l e d near far); [|destruct Hin].
      destruct (IHl Hin) as (mn'&mx'&H). eauto with datatypes.
    + destruct (ray_box r e d near far); [|destruct Hin].
      destruct (IHr Hin) as (mn'&mx'&H). eauto with datatypes.
Qed.

(** Every leaf whose box the ray meets is collected. *)
Lemma getBVHList_finds t e d near far o mn mx s :
  bvh_wf t -> In (o, mn, mx) (leaves t) -> ray_meets mn mx e d s ->
  In o (getBVHList t e d near far).
Proof.
  induction t as [o' mn' mx'|mn' mx' l IHl r IHr]; cbn [getBVHList leaves bvh_wf].
  - intros _ [E|[]] Hm. inversion E; subst.
    rewrite (slab_test_accepts (BLeaf o mn mx) e d near far s Hm). now left.
  - intros (_&_&Wl&Wr) Hin Hm. apply in_or_app. apply in_app_or in Hin as [Hin|Hin].
    + left. rewrite (slab_test_accepts l e d near far s); [now apply IHl|].
      eapply ray_meets_mono; [eapply wf_leaf_in_box; eauto | exact Hm].
    + right. rewrite (slab_test_accepts r e d near far s); [now apply IHr|].
      eapply ray_meets_mono; [eapply wf_leaf_in_box; eauto | exact Hm].
Qed.

(** C2: completeness of the traversal: in a tree with the BVH invariant,
    every object whose leaf box the ray meets at a distance in
    [[0, 1e30]] is among the candidates [getBVHList] returns. *)
Theorem getBVHList_complete t e d near far o mn mx s :
  bvh_wf t -> In (o, mn, mx) (leaves t) -> ray_meets mn mx e d s ->
  In o (getBVHList t e d near far).
Proof. exact (getBVHList_finds t e d near far o mn mx s). Qed.

(** ** Executable check and witnesses *)

Definition ray_meetsb (mn mx e d : vec3) (t : Q) : bool :=
  Qleb 0 t && Qleb t BIG &&
  forallb (fun i => Qleb (vget mn i) (vget e i + t * vget d i) && Qleb (vget e i + t * vget d i) (vget mx i))
    [0; 1; 2]%nat.

Lemma ray_meetsb_sound mn mx e d t : ray_meetsb mn mx e d t = true -> ray_meets mn mx e d t.
Proof.
  unfold ray_meetsb. intros H. apply andb_prop in H as [H Hax]. apply andb_prop in H as [H0 H1].
  rewrite forallb_forall in Hax.
  destruct (Qleb_spec 0 t); [|discriminate]. destruct (Qleb_spec t BIG); [|discriminate].
  split; [split; assumption|]. intros i Hi.
  assert (Hin : In i [0; 1; 2]%nat) by (destruct i as [|[|[|]]]; cbn; auto; lia).
  specialize (Hax i Hin). apply andb_prop in Hax as [A B].
  destruct (Qleb_spec (vget mn i) (vget e i + t * vget d i)); [|discriminate].
  destruct (Qleb_spec (vget e i + t * vget d i) (vget mx i)); [|discriminate]. auto.
Qed.

(** The camera ray from the origin down the negative z axis: parallel to
    the x and y slabs, so [1.0f / d[i]] is infinite on two axes. *)
Definition ex_eye : vec3 := V3 0 0 0.
Definition ex_dir : vec3 := V3 0 0 (-1).

(** The leaf of the first sphere of the example scene. *)
Definition ex_leaf : BvhObj :=
  Eval vm_compute in hd (Plane ex_material vzero vzero, vzero, vzero) ex_bvh_objects.

Lemma ray_box_sound_witness :
  ray_meets (node_min ex_tree) (node_max ex_tree) ex_eye ex_dir 5 /\
  ray_box ex_tree ex_eye ex_dir 1 0 = true.
Proof.
  assert (M : ray_meets (node_min ex_tree) (node_max ex_tree) ex_eye ex_dir 5)
    by (apply ray_meetsb_sound; vm_compute; reflexivity).
  split; [exact M | exact (ray_box_sound ex_tree ex_eye ex_dir 1 0 5 M)].
Defined.

Lemma getBVHList_complete_witness :
  bvh_wf ex_tree /\ In ex_leaf (leaves ex_tree) /\
  ray_meets (bo_min ex_leaf) (bo_max ex_leaf) ex_eye ex_dir 5 /\
  In (bo_obj ex_leaf) (getBVHList ex_tree ex_eye ex_dir 1 0).
Proof.
  assert (W : bvh_wf ex_tree) by (apply bvh_wfb_sound; vm_compute; reflexivity).
  assert (L : In ex_leaf (leaves ex_tree)) by (vm_compute; auto 10).
  assert (M : ray_meets (bo_min ex_leaf) (bo_max ex_leaf) ex_eye ex_dir 5)
    by (apply ray_meetsb_sound; vm_compute; reflexivity).
  destruct ex_leaf as [[o mn] mx] eqn:E.
  split; [exact W | split; [exact L | split; [exact M |]]].
  exact (getBVHList_complete ex_tree ex_eye ex_dir 1 0 o mn mx 5 W L M).
Defined.
