(* ===== verification/Intersect.v ===== *)
(** * Intersect: the ray/primitive routines of src/src/raytracer.cpp

    [ray_sphere] (lines 92-122), [ray_plane] (124-141), [ray_triangle]
    (143-172) and [ray_mesh] (174-195).  Each returns a distance, or -1 for
    a miss, and writes the hit point and normal through reference
    parameters; the model passes the old values of those parameters in and
    returns the new ones, so that a routine that writes them on a miss
    ([ray_triangle] always writes the normal) is modelled as it is.  The
    interval test [t >= near && (far < near || t <= far)] shared by every
    routine is [in_range]; [far < near] means "no far bound".

    [pow(x, 2)] in [ray_sphere] is read as [x * x]; [sqrt] and
    [glm::normalize] come from the [Libm] class.  The [pick]/[prefix]
    arguments only feed debug output and are left out. *)

From Stdlib Require Import QArith Lqa Psatz List.
From S2P Require Import Prelude Schema.
Import ListNotations.
Open Scope Q_scope.

(** [t >= near && (far < near || t <= far)] *)
Definition in_range (near far t : Q) : bool := Qleb near t && (Qltb far near || Qleb t far).

(** A routine's result: distance, hit point, normal. *)
Definition RayResult := (Q * vec3 * vec3)%type.

Section Routines.
Context `{Libm}.

(** Lines 93-112: the discriminant and the root [ray_sphere] keeps, the
    smaller one unless it lies before [near]; [None] when the discriminant
    is negative.  The root does not depend on [far]. *)
Definition sphere_root (radius : Q) (c e d : vec3) (near : Q) : option Q :=
  let eminusc := e ⊖ c in
  let ddotd := dot d d in
  let disc := dot d eminusc * dot d eminusc - ddotd * (dot eminusc eminusc - radius * radius) in
  if Qleb 0 disc then
    let root := sqrt disc in
    let t := (dot (vneg d) eminusc + root) / ddotd in
    Some (if Qltb 0 disc then
            let t2 := (dot (vneg d) eminusc - root) / ddotd in
            if (Qltb t2 t && Qleb near t2) || (Qltb t t2 && Qltb t near) then t2 else t
          else t)
  else None.

Definition ray_sphere (radius : Q) (c e d : vec3) (near far : Q) (hp hp_norm : vec3) : RayResult :=
  match sphere_root radius c e d near with
  | Some t =>
      if in_range near far t then
        let hp := e ⊕ t ⊛ d in (t, hp, normalize (hp ⊖ c))
      else (-1, hp, hp_norm)
  | None => (-1, hp, hp_norm)
  end.

Definition ray_plane (a normal e d : vec3) (near far : Q) (hp hp_norm : vec3) : RayResult :=
  let n := normalize normal in
  let ndotd := dot n d in
  if negb (Qeqb ndotd 0) then
    let t := dot n (a ⊖ e) / ndotd in
    if in_range near far t then (t, e ⊕ t ⊛ d, n) else (-1, hp, hp_norm)
  else (-1, hp, hp_norm).

(** The three barycentric sign values of [ray_triangle]. *)
Definition bary (tri : Triangle) (pt n : vec3) : vec3 :=
  let a := vert0 tri in let b := vert1 tri in let c := vert2 tri in
  V3 (dot (cross (b ⊖ a) (pt ⊖ a)) n) (dot (cross (c ⊖ b) (pt ⊖ b)) n) (dot (cross (a ⊖ c) (pt ⊖ c)) n).

Definition all_pos (v : vec3) : bool := Qltb 0 (vx v) && Qltb 0 (vy v) && Qltb 0 (vz v).
Definition all_neg (v : vec3) : bool := Qltb (vx v) 0 && Qltb (vy v) 0 && Qltb (vz v) 0.

(** The normal is written before any test; the point once the interval
    test passes, whether or not the sign test does. *)
Definition ray_triangle (allow_back : bool) (tri : Triangle) (e d : vec3) (near far : Q)
    (pt n : vec3) : RayResult :=
  let a := vert0 tri in let b := vert1 tri in let c := vert2 tri in
  let n := normalize (cross (c ⊖ b) (a ⊖ b)) in
  let ndotd := dot n d in
  if negb (Qeqb ndotd 0) then
    let t := dot n (a ⊖ e) / ndotd in
    if in_range near far t then
      let pt := e ⊕ t ⊛ d in
      let bc := bary tri pt n in
      if all_pos bc then (t, pt, n)
      else if allow_back && all_neg bc then (t, pt, n)
      else (-1, pt, n)
    else (-1, pt, n)
  else (-1, pt, n).

(** The loop of [ray_mesh]: the nearest distance so far, the narrowed
    [far], the outputs, and the locals [tri_hp], [tri_norm] that persist
    between iterations. *)
Record MeshState := mkMeshState {
  ms_nearest : Q; ms_far : Q; ms_hp : vec3; ms_norm : vec3; ms_tri_hp : vec3; ms_tri_norm : vec3 }.

Definition ray_mesh_step (allow_back : bool) (e d : vec3) (near : Q) (s : MeshState) (tri : Triangle) : MeshState :=
  let '(t, tri_hp, tri_norm) := ray_triangle allow_back tri e d near (ms_far s) (ms_tri_hp s) (ms_tri_norm s) in
  if Qleb near t && (Qltb (ms_nearest s) 0 || Qltb t (ms_nearest s)) then
    mkMeshState t t tri_hp tri_norm tri_hp tri_norm
  else mkMeshState (ms_nearest s) (ms_far s) (ms_hp s) (ms_norm s) tri_hp tri_norm.

(** [tri_hp] and [tri_norm] start uninitialised in the source; any value
    does, since they are written before they are read. *)
Definition ray_mesh (allow_back : bool) (triangles : list Triangle) (e d : vec3) (near far : Q)
    (hp hp_norm : vec3) : RayResult :=
  let s := fold_left (ray_mesh_step allow_back e d near) triangles (mkMeshState (-1) far hp hp_norm vzero vzero) in
  (ms_nearest s, ms_hp s, ms_norm s).
End Routines.

(** ** The triangle's sign test *)

(** The three sign values sum to [dot(N, n)] for [N = cross(c - b, a - b)],
    whatever the point. *)
Lemma bary_sum tri p n :
  vx (bary tri p n) + vy (bary tri p n) + vz (bary tri p n) ==
  dot (cross (vert2 tri ⊖ vert1 tri) (vert0 tri ⊖ vert1 tri)) n.
Proof. destruct tri. unfold bary, dot, cross. cbn. ring. Qed.

Lemma all_neg_sum v : all_neg v = true -> vx v + vy v + vz v < 0.
Proof.
  unfold all_neg. destruct (Qltb_spec (vx v) 0), (Qltb_spec (vy v) 0), (Qltb_spec (vz v) 0);
    cbn; intros E; try discriminate; lra.
Qed.

Section TriangleLaws.
Context `{L : Libm} `{!LibmLaws L}.

(** The normal [ray_triangle] tests against is the triangle's own, so
    the sign values sum to [|N|^2 / sqrt(|N|^2) >= 0]: they are never all
    negative. *)
Lemma bary_not_all_neg tri p :
  all_neg (bary tri p (normalize (cross (vert2 tri ⊖ vert1 tri) (vert0 tri ⊖ vert1 tri)))) = false.
Proof.
  destruct (all_neg _) eqn:E; [|reflexivity].
  apply all_neg_sum in E. rewrite bary_sum in E.
  pose proof (dot_normalize_self_nonneg (cross (vert2 tri ⊖ vert1 tri) (vert0 tri ⊖ vert1 tri))).
  lra.
Qed.

(** C17: the back-face branch of [ray_triangle] is dead: the result is the
    same whether [ALLOW_HIT_MESH_BACK] is on or off, for every triangle,
    ray and interval, because the sign test already accepts a hit from
    either side. *)
Theorem ray_triangle_back_branch_dead allow tri e d near far pt n :
  ray_triangle allow tri e d near far pt n = ray_triangle false tri e d near far pt n.
Proof.
  unfold ray_triangle. destruct (negb _); [|reflexivity].
  destruct (in_range _ _ _); [|reflexivity].
  destruct (all_pos _); [reflexivity|].
  rewrite bary_not_all_neg, andb_false_r. reflexivity.
Qed.
End TriangleLaws.

(** ** The sphere's roots *)

(** A root [t] of [A t^2 + 2 B t + C' = 0] computed with a square root [s]
    of the discriminant rounded down ([s^2 <= disc]) lies between the exact
    roots: the point it names is inside the ball. *)
Lemma root_in_ball A B C r s t :
  0 < A -> s * s <= B * B - A * (C - r * r) ->
  (A * t == - B + s \/ A * t == - B - s) ->
  C + 2 * t * B + t * t * A <= r * r.
Proof.
  intros HA Hs Ht.
  assert (Hsq : (A * t + B) * (A * t + B) == s * s) by (destruct Ht as [E|E]; rewrite E; ring).
  nra.
Qed.

Lemma div_mul_cancel x A : 0 < A -> A * (x / A) == x.
Proof. intros HA. field. lra. Qed.

Section SphereLaws.
Context `{L : Libm} `{!LibmLaws L}.

(** A sphere hit lies on the ray, inside the closed ball. *)
Lemma sphere_hit_in_ball radius c e d near far hp hn t p n :
  0 < dot d d -> -1 < near ->
  ray_sphere radius c e d near far hp hn = (t, p, n) -> near <= t ->
  p = e ⊕ t ⊛ d /\ dot (p ⊖ c) (p ⊖ c) <= radius * radius.
Proof.
  intros HA Hnear Hres Ht. unfold ray_sphere, sphere_root in Hres.
  set (B := dot d (e ⊖ c)) in *. set (C := dot (e ⊖ c) (e ⊖ c)) in *.
  set (disc := B * B - dot d d * (C - radius * radius)) in *.
  destruct (Qleb_spec 0 disc) as [Hd|Hd]; [|inversion Hres; subst; lra].
  pose proof (sqrt_sq_le disc Hd) as Hsq.
  set (s := sqrt disc) in *.
  set (t1 := (dot (vneg d) (e ⊖ c) + s) / dot d d) in *.
  set (t2 := (dot (vneg d) (e ⊖ c) - s) / dot d d) in *.
  assert (Hroot : forall u, (u = t1 \/ u = t2) -> dot d d * u == - B + s \/ dot d d * u == - B - s).
  { intros u [->| ->]; [left | right]; unfold t1, t2; rewrite div_mul_cancel by exact HA;
      rewrite dot_neg_l; reflexivity. }
  assert (Hpick : exists u, (u = t1 \/ u = t2) /\
            (if in_range near far u then (u, e ⊕ u ⊛ d, normalize (e ⊕ u ⊛ d ⊖ c)) else (-1, hp, hn)) = (t, p, n)).
  { destruct (Qltb 0 disc); [destruct (_ || _)|]; eexists; split; [| exact Hres | | exact Hres | | exact Hres]; auto. }
  destruct Hpick as (u & Hu & Hres').
  destruct (in_range near far u); inversion Hres'; subst; [|lra].
  split; [reflexivity|]. rewrite dot_ray_point.
  apply (root_in_ball (dot d d) B C radius s); [exact HA | exact Hsq | now apply Hroot].
Qed.

(** C6: a hit reported by [ray_sphere] lies on the ray and inside the
    sphere's closed ball, for the exact square root and for any square root
    rounded down; so it lies in the sphere's bounding box. *)
Theorem ray_sphere_in_ball radius c e d near far hp hn t p n :
  0 < dot d d -> -1 < near ->
  ray_sphere radius c e d near far hp hn = (t, p, n) -> near <= t ->
  p = e ⊕ t ⊛ d /\ dot (p ⊖ c) (p ⊖ c) <= radius * radius.
Proof. exact (sphere_hit_in_ball radius c e d near far hp hn t p n). Qed.
End SphereLaws.

(** ** The triangle's hit point *)

(** With the unnormalised normal [N], the sign values are the weights of
    the vertices: [by a + bz b + bx c = |N|^2 p - (N . (p - a)) N]. *)
Lemma bary_weights tri p i :
  let N := cross (vert2 tri ⊖ vert1 tri) (vert0 tri ⊖ vert1 tri) in
  let w := bary tri p N in
  vy w * vget (vert0 tri) i + vz w * vget (vert1 tri) i + vx w * vget (vert2 tri) i ==
  dot N N * vget p i - dot N (p ⊖ vert0 tri) * vget N i.
Proof. destruct tri as [[] [] []], p, i as [|[|]]; unfold bary, dot, cross; cbn; ring. Qed.

Lemma bary_scale tri p k N :
  vx (bary tri p (k ⊛ N)) == k * vx (bary tri p N) /\
  vy (bary tri p (k ⊛ N)) == k * vy (bary tri p N) /\
  vz (bary tri p (k ⊛ N)) == k * vz (bary tri p N).
Proof. unfold bary. cbn [vx vy vz]. rewrite !dot_scale_r. repeat split; reflexivity. Qed.

Lemma convex3 w1 w2 w3 x1 x2 x3 p lo hi :
  0 < w1 -> 0 < w2 -> 0 < w3 -> (w1 + w2 + w3) * p == w1 * x1 + w2 * x2 + w3 * x3 ->
  lo <= x1 <= hi -> lo <= x2 <= hi -> lo <= x3 <= hi -> lo <= p <= hi.
Proof. intros. split; nra. Qed.

(** The point [e + t d] with [t = n . (a - e) / n . d] is on the plane. *)
Lemma ray_plane_point n a e d :
  ~ dot n d == 0 -> dot n (e ⊕ (dot n (a ⊖ e) / dot n d) ⊛ d ⊖ a) == 0.
Proof.
  intros Hnd. set (t := dot n (a ⊖ e) / dot n d).
  assert (Ht : t * dot n d == dot n (a ⊖ e)) by (unfold t; field; exact Hnd).
  transitivity (dot n (e ⊖ a) + t * dot n d); [unfold dot; cbn; ring|].
  rewrite Ht. unfold dot; cbn; ring.
Qed.

Section TriangleBox.
Context `{L : Libm} `{!LibmLaws L}.

(** A triangle hit lies in every box containing the vertices. *)
Lemma triangle_hit_in_hull allow tri e d near far pt0 n0 t p n lo hi :
  -1 < near -> ray_triangle allow tri e d near far pt0 n0 = (t, p, n) -> near <= t ->
  (forall i, vget lo i <= vget (vert0 tri) i <= vget hi i /\ vget lo i <= vget (vert1 tri) i <= vget hi i /\
             vget lo i <= vget (vert2 tri) i <= vget hi i) ->
  forall i, vget lo i <= vget p i <= vget hi i.
Proof.
  intros Hnear Hres Ht Hbox i. revert Hres. unfold ray_triangle.
  set (N := cross (vert2 tri ⊖ vert1 tri) (vert0 tri ⊖ vert1 tri)).
  destruct (Qeqb_spec (dot (normalize N) d) 0) as [_|Hnd]; cbn [negb];
    [intros Hres; injection Hres as <- <- <-; lra|].
  destruct (in_range _ _ _); [|intros Hres; injection Hres as <- <- <-; lra].
  destruct (all_pos _) eqn:Hpos.
  2: { rewrite bary_not_all_neg, andb_false_r. intros Hres. injection Hres as <- <- <-; lra. }
  intros Hres.
  inversion Hres; subst t p n; clear Hres.
  set (k := / sqrt (dot N N)) in *.
  set (p := e ⊕ (dot (normalize N) (vert0 tri ⊖ e) / dot (normalize N) d) ⊛ d) in *.
  pose proof (inv_sqrt_nonneg (dot N N)) as Hk0. fold k in Hk0.
  destruct (bary_scale tri p k N) as (Sx & Sy & Sz).
  unfold all_pos in Hpos. change (normalize N) with (k ⊛ N) in Hpos.
  destruct (Qltb_spec 0 (vx (bary tri p (k ⊛ N)))) as [Px|]; [|discriminate].
  destruct (Qltb_spec 0 (vy (bary tri p (k ⊛ N)))) as [Py|]; [|discriminate].
  destruct (Qltb_spec 0 (vz (bary tri p (k ⊛ N)))) as [Pz|]; [|discriminate].
  rewrite Sx in Px. rewrite Sy in Py. rewrite Sz in Pz.
  assert (Hk : 0 < k) by (destruct (Qeq_dec k 0) as [E|E]; [rewrite E in Px; lra | lra]).
  assert (Wx : 0 < vx (bary tri p N)) by nra.
  assert (Wy : 0 < vy (bary tri p N)) by nra.
  assert (Wz : 0 < vz (bary tri p N)) by nra.
  assert (Hplane : dot N (p ⊖ vert0 tri) == 0).
  { pose proof (ray_plane_point (normalize N) (vert0 tri) e d Hnd) as E.
    fold p in E. change (normalize N) with (k ⊛ N) in E. rewrite dot_scale_l in E. nra. }
  pose proof (bary_weights tri p i) as Hw. cbv zeta in Hw. fold N in Hw.
  rewrite Hplane in Hw.
  pose proof (bary_sum tri p N) as Hs. fold N in Hs.
  destruct (Hbox i) as (B0 & B1 & B2).
  apply (convex3 (vy (bary tri p N)) (vz (bary tri p N)) (vx (bary tri p N))
           (vget (vert0 tri) i) (vget (vert1 tri) i) (vget (vert2 tri) i)); auto.
  transitivity (dot N N * vget p i); [rewrite <- Hs; ring | rewrite Hw; ring].
Qed.

(** A hit reported by [ray_triangle] is the point of the ray at its distance. *)
Lemma ray_triangle_hit_point allow tri e d near far pt0 n0 t p n :
  -1 < near -> ray_triangle allow tri e d near far pt0 n0 = (t, p, n) -> near <= t -> p = e ⊕ t ⊛ d.
Proof.
  intros Hnear Hres Ht. revert Hres. unfold ray_triangle.
  destruct (negb _); [|intros Hres; injection Hres as <- _ _; lra].
  destruct (in_range _ _ _); [|intros Hres; injection Hres as <- _ _; lra].
  destruct (all_pos _); [intros Hres; injection Hres as <- <- _; reflexivity|].
  destruct (_ && _); intros Hres; injection Hres as <- <- _; [reflexivity | lra].
Qed.

(** C7: a hit reported by [ray_triangle] lies in every axis-aligned box
    that contains the triangle's three vertices (it is a convex combination
    of them), from whichever side the ray comes. *)
Theorem ray_triangle_in_vertex_box allow tri e d near far pt0 n0 t p n lo hi :
  -1 < near -> ray_triangle allow tri e d near far pt0 n0 = (t, p, n) -> near <= t ->
  (forall i, vget lo i <= vget (vert0 tri) i <= vget hi i /\ vget lo i <= vget (vert1 tri) i <= vget hi i /\
             vget lo i <= vget (vert2 tri) i <= vget hi i) ->
  forall i, vget lo i <= vget p i <= vget hi i.
Proof. exact (triangle_hit_in_hull allow tri e d near far pt0 n0 t p n lo hi). Qed.
End TriangleBox.

Lemma Qdiv_lt_mono a b A : 0 < A -> a < b -> a / A < b / A.
Proof. intros HA Hab. unfold Qdiv. apply Qmult_lt_r; [apply Qinv_lt_0_compat|]; assumption. Qed.

Section SphereRoot.
Context `{L : Libm} `{!LibmLaws L}.

(** C16: when the ray crosses the sphere (positive discriminant),
    [ray_sphere] keeps the nearer root if it is at least [near] and the
    farther root otherwise (the eye inside the sphere). *)
Theorem sphere_root_choice radius c e d near :
  let B := dot (vneg d) (e ⊖ c) in
  let disc := dot d (e ⊖ c) * dot d (e ⊖ c) - dot d d * (dot (e ⊖ c) (e ⊖ c) - radius * radius) in
  let t_far := (B + sqrt disc) / dot d d in
  let t_near := (B - sqrt disc) / dot d d in
  0 < dot d d -> 0 < disc ->
  sphere_root radius c e d near = Some (if Qleb near t_near then t_near else t_far).
Proof.
  intros B disc t_far t_near HA Hd. unfold sphere_root. fold B disc.
  destruct (Qleb_spec 0 disc); [|lra]. destruct (Qltb_spec 0 disc); [|lra].
  fold t_far t_near. f_equal.
  assert (Hlt : t_near < t_far) by (apply Qdiv_lt_mono; [exact HA | pose proof (sqrt_pos disc Hd); lra]).
  destruct (Qltb_spec t_near t_far); [|lra]. destruct (Qltb_spec t_far t_near); [lra|].
  rewrite andb_true_l, andb_false_l, orb_false_r. reflexivity.
Qed.
End SphereRoot.

Section PlaneLaws.
Context `{L : Libm}.

(** C34: a hit reported by [ray_plane] is the point [e + t d] of the ray
    and lies on the plane: its offset from [position] is orthogonal to
    the normal that [ray_plane] returns, the normalised plane normal. *)
Theorem ray_plane_on_plane a normal e d near far hp hn t p n :
  -1 < near -> ray_plane a normal e d near far hp hn = (t, p, n) -> near <= t ->
  p = e ⊕ t ⊛ d /\ n = normalize normal /\ dot n (p ⊖ a) == 0.
Proof.
  intros Hnear Hres Ht. revert Hres. unfold ray_plane.
  destruct (Qeqb_spec (dot (normalize normal) d) 0) as [_|Hnd]; cbn [negb];
    [intros Hres; injection Hres as <- _ _; lra|].
  destruct (in_range _ _ _); intros Hres; injection Hres as <- <- <-; [|lra].
  split; [reflexivity | split; [reflexivity | apply ray_plane_point, Hnd]].
Qed.
End PlaneLaws.

(** ** Nearest-hit scans and the narrowing of [far]

    [ray_mesh] (and later [hit]) keeps the nearest accepted distance and
    narrows [far] to it.  [range_filter] is a routine's result seen from
    its far-independent candidate distance; [nearest_of] is the plain scan
    without narrowing and [nearest_narrow] the scan that narrows. *)

(** A routine's distance from its candidate: -1 outside [[near, far]]. *)
Definition range_filter (near far : Q) (c : option Q) : Q :=
  match c with Some t => if in_range near far t then t else -1 | None => -1 end.

(** [t >= near && (nearest_t < 0 || t < nearest_t)] of [ray_mesh]. *)
Definition accept (near acc t : Q) : bool := Qleb near t && (Qltb acc 0 || Qltb t acc).

Definition nearest_of (near : Q) (ts : list Q) (acc : Q) : Q :=
  fold_left (fun acc t => if accept near acc t then t else acc) ts acc.

Fixpoint nearest_narrow (near far acc : Q) (cs : list (option Q)) : Q :=
  match cs with
  | [] => acc
  | c :: cs =>
      let t := range_filter near far c in
      if accept near acc t then nearest_narrow near t t cs else nearest_narrow near far acc cs
  end.

Lemma accept_true near acc t : accept near acc t = true -> near <= t /\ (acc < 0 \/ t < acc).
Proof.
  unfold accept. destruct (Qleb_spec near t), (Qltb_spec acc 0), (Qltb_spec t acc);
    cbn; intros E; try discriminate; auto.
Qed.

Lemma accept_false near acc t : accept near acc t = false -> t < near \/ (0 <= acc /\ acc <= t).
Proof.
  unfold accept. destruct (Qleb_spec near t), (Qltb_spec acc 0), (Qltb_spec t acc);
    cbn; intros E; try discriminate; auto.
Qed.

Section Nearest.
Variable near : Q.
Hypothesis near_pos : 0 < near.

(** What the plain scan returns: the start value or an element of the
    list at least [near]; at most the start value when that was a hit; at
    most every element at least [near]. *)
Lemma nearest_of_spec ts acc :
  (acc = -1 \/ near <= acc) ->
  let v := nearest_of near ts acc in
  (v = acc \/ (In v ts /\ near <= v)) /\ (near <= acc -> v <= acc) /\
  (forall t, In t ts -> near <= t -> near <= v /\ v <= t).
Proof.
  revert acc. induction ts as [|t ts IH]; intros acc Hacc; cbv zeta.
  { change (nearest_of near [] acc) with acc. split; [now left | split; [lra | intros _ []]]. }
  change (nearest_of near (t :: ts) acc) with (nearest_of near ts (if accept near acc t then t else acc)).
  destruct (accept near acc t) eqn:E.
  - apply accept_true in E as [Ht Hlt].
    destruct (IH t (or_intror Ht)) as (I1 & I2 & I3).
    assert (Hv : near <= nearest_of near ts t) by (destruct I1 as [->|[_ ?]]; lra).
    split; [destruct I1 as [->|[? ?]]; right; auto with datatypes|].
    split; [intros Ha; specialize (I2 Ht); destruct Hlt; lra|].
    intros u [<-|Hu] Hn; [split; [exact Hv | exact (I2 Ht)] | auto].
  - apply accept_false in E.
    destruct (IH acc Hacc) as (I1 & I2 & I3).
    split; [destruct I1 as [->|[? ?]]; [left | right]; auto with datatypes|].
    split; [exact I2|]. intros u [<-|Hu] Hn; [|auto].
    assert (Hacc' : near <= acc) by (destruct Hacc as [->|]; lra).
    specialize (I2 Hacc'). destruct I1 as [->|[_ ?]]; split; lra.
Qed.

Lemma range_filter_hit far c :
  near <= range_filter near far c -> in_range near far (range_filter near far c) = true.
Proof.
  destruct c as [t|]; cbn; [|lra]. destruct (in_range near far t) eqn:E; [auto | lra].
Qed.

Lemma in_range_true far t : in_range near far t = true -> near <= t /\ (far < near \/ t <= far).
Proof.
  unfold in_range. destruct (Qleb_spec near t), (Qltb_spec far near), (Qleb_spec t far);
    cbn; intros E; try discriminate; auto.
Qed.

Lemma in_range_below far t : t < near -> in_range near far t = false.
Proof. intros H. unfold in_range. destruct (Qleb_spec near t); [lra | reflexivity]. Qed.

Lemma in_range_inside far t : near <= t -> (far < near \/ t <= far) -> in_range near far t = true.
Proof.
  intros H1 H2. unfold in_range. destruct (Qleb_spec near t); [|lra].
  destruct (Qltb_spec far near), (Qleb_spec t far); cbn; auto; lra.
Qed.

Lemma accept_no acc x : near <= acc -> (x < near \/ acc <= x) -> accept near acc x = false.
Proof.
  intros Ha Hx. unfold accept. destruct (Qleb_spec near x); cbn; [|reflexivity].
  destruct (Qltb_spec acc 0), (Qltb_spec x acc); cbn; auto; lra.
Qed.

(** Once a hit [acc] is kept and [far] narrowed to it, a candidate is
    accepted under the narrowed bound exactly when it is accepted under the
    original one, with the same distance. *)
Lemma narrow_step far0 acc c :
  near <= acc -> in_range near far0 acc = true ->
  accept near acc (range_filter near acc c) = accept near acc (range_filter near far0 c) /\
  (accept near acc (range_filter near acc c) = true -> range_filter near acc c = range_filter near far0 c).
Proof.
  intros Ha Hin. apply in_range_true in Hin as [_ Hfar].
  destruct c as [t|]; cbn [range_filter]; [|split; auto].
  destruct (Qlt_le_dec t near) as [Tn|Tn].
  { rewrite !in_range_below by exact Tn. split; auto. }
  destruct (Qlt_le_dec t acc) as [Ta|Ta].
  - rewrite (in_range_inside acc t), (in_range_inside far0 t) by (auto; lra). split; auto.
  - assert (Hno : forall f, accept near acc (if in_range near f t then t else -1) = false).
    { intros f. destruct (in_range near f t); apply accept_no; lra. }
    rewrite !Hno. split; [reflexivity | discriminate].
Qed.

(** Narrowing [far] to the nearest hit so far does not change the result
    of the scan. *)
Lemma narrow_eq cs far0 far acc :
  (acc = -1 /\ far = far0) \/ (near <= acc /\ far = acc /\ in_range near far0 acc = true) ->
  nearest_narrow near far acc cs = nearest_of near (map (range_filter near far0) cs) acc.
Proof.
  revert far acc. induction cs as [|c cs IH]; intros far acc Hst; [reflexivity|].
  cbn [nearest_narrow map].
  change (nearest_of near (range_filter near far0 c :: map (range_filter near far0) cs) acc)
    with (nearest_of near (map (range_filter near far0) cs)
           (if accept near acc (range_filter near far0 c) then range_filter near far0 c else acc)).
  assert (Hsame : accept near acc (range_filter near far c) = accept near acc (range_filter near far0 c) /\
                  (accept near acc (range_filter near far c) = true ->
                   range_filter near far c = range_filter near far0 c)).
  { destruct Hst as [[-> ->]|(Ha & -> & Hin)]; [split; auto|].
    exact (narrow_step far0 acc c Ha Hin). }
  destruct Hsame as [E1 E2]. rewrite <- E1.
  destruct (accept near acc (range_filter near far c)) eqn:E.
  - rewrite <- (E2 eq_refl). apply IH. right.
    apply accept_true in E as [Ht _]. split; [exact Ht | split; [reflexivity|]].
    rewrite (E2 eq_refl) in Ht |- *. now apply range_filter_hit.
  - apply IH. exact Hst.
Qed.

Lemma accept_iff acc x : near <= acc -> (accept near acc x = true <-> near <= x /\ x < acc).
Proof.
  intros Ha. unfold accept.
  destruct (Qleb_spec near x), (Qltb_spec acc 0), (Qltb_spec x acc); cbn; split; intros Hx;
    try discriminate; try reflexivity; try (split; lra); destruct Hx; exfalso; lra.
Qed.

(** A kept hit under the narrowed bound is a hit under the original one. *)
Lemma rf_narrow_hit far0 acc c :
  near <= acc -> in_range near far0 acc = true ->
  near <= range_filter near acc c -> range_filter near far0 c = range_filter near acc c.
Proof.
  intros Ha Hin Hc. apply in_range_true in Hin as [_ Hfar].
  destruct c as [t|]; cbn in *; [|lra].
  destruct (in_range near acc t) eqn:E; [|lra].
  apply in_range_true in E as [Ht Hacc].
  rewrite (in_range_inside far0 t); [reflexivity | exact Ht | lra].
Qed.

(** A hit under the original bound below [acc] survives the narrowing. *)
Lemma rf_widen_hit far0 acc c :
  near <= range_filter near far0 c -> range_filter near far0 c < acc ->
  range_filter near acc c = range_filter near far0 c.
Proof.
  intros Hc Hlt. destruct c as [t|]; cbn in *; [|lra].
  destruct (in_range near far0 t) eqn:E; [|lra].
  rewrite (in_range_inside acc t); [reflexivity | lra | lra].
Qed.

Lemma nearest_hit_in (cs : list (option Q)) far :
  let m := nearest_of near (map (range_filter near far) cs) (-1) in
  m = -1 \/ (near <= m /\ exists c, In c cs /\ range_filter near far c = m) /\
  (forall c, In c cs -> near <= range_filter near far c -> m <= range_filter near far c).
Proof.
  intros m. destruct (nearest_of_spec (map (range_filter near far) cs) (-1) (or_introl eq_refl))
    as (I1 & _ & I3).
  destruct I1 as [E|[Hin Hm]]; [left; exact E | right].
  split; [split; [exact Hm|] | intros c Hc Hh; apply (I3 _ (in_map _ _ _ Hc) Hh)].
  apply in_map_iff in Hin as (c & Ec & Hc). eauto.
Qed.

(** Narrowing [far] is harmless for a scan nested in the scan: the mesh
    case of [hit]. *)
Lemma mesh_narrow cs far0 acc :
  near <= acc -> in_range near far0 acc = true ->
  let f far := nearest_of near (map (range_filter near far) cs) (-1) in
  accept near acc (f acc) = accept near acc (f far0) /\
  (accept near acc (f acc) = true -> f acc == f far0).
Proof.
  intros Ha Hin f.
  assert (Low : forall far c, In c cs -> near <= range_filter near far c -> near <= f far /\ f far <= range_filter near far c).
  { intros far c Hc Hh. destruct (nearest_of_spec (map (range_filter near far) cs) (-1) (or_introl eq_refl))
      as (_ & _ & I3). exact (I3 _ (in_map _ _ _ Hc) Hh). }
  destruct (nearest_hit_in cs acc) as [Ea|[(Ha1 & ca & Hca & Eca) _]];
  destruct (nearest_hit_in cs far0) as [E0|[(H01 & c0 & Hc0 & Ec0) _]];
    change (nearest_of near (map (range_filter near acc) cs) (-1)) with (f acc) in *;
    change (nearest_of near (map (range_filter near far0) cs) (-1)) with (f far0) in *.
  - rewrite Ea, E0. split; [reflexivity | intros; reflexivity].
  - (* no narrowed hit: the original hit cannot lie below [acc] *)
    destruct (Qlt_le_dec (f far0) acc) as [Hlt|Hge].
    + exfalso. rewrite <- Ec0 in Hlt, H01.
      pose proof (rf_widen_hit far0 acc c0 H01 Hlt) as W.
      destruct (Low acc c0 Hc0) as [Hl _]; [rewrite W; exact H01 | rewrite Ea in Hl; lra].
    + rewrite Ea, !accept_no by lra. split; [reflexivity | discriminate].
  - (* a narrowed hit is an original hit *)
    exfalso. rewrite <- Eca in Ha1.
    pose proof (rf_narrow_hit far0 acc ca Ha Hin Ha1) as W.
    destruct (Low far0 ca Hca) as [Hl _]; [rewrite W; exact Ha1 | rewrite E0 in Hl; lra].
  - assert (W : range_filter near far0 ca = f acc).
    { rewrite <- Eca. apply rf_narrow_hit; [exact Ha | exact Hin | rewrite Eca; exact Ha1]. }
    assert (L1 : f far0 <= f acc).
    { destruct (Low far0 ca Hca) as [_ Hle]; [rewrite W; exact Ha1 | rewrite <- W; exact Hle]. }
    destruct (Qlt_le_dec (f far0) acc) as [Hlt|Hge].
    + assert (W0 : range_filter near acc c0 = f far0).
      { rewrite <- Ec0. apply rf_widen_hit; rewrite Ec0; assumption. }
      assert (L2 : f acc <= f far0).
      { destruct (Low acc c0 Hc0) as [_ Hle]; [rewrite W0; exact H01 | rewrite <- W0; exact Hle]. }
      assert (A : accept near acc (f far0) = true) by (apply accept_iff; [exact Ha | split; lra]).
      assert (A' : accept near acc (f acc) = true) by (apply accept_iff; [exact Ha | split; lra]).
      rewrite A, A'. split; [reflexivity | intros _; lra].
    + rewrite !accept_no by lra. split; [reflexivity | discriminate].
Qed.
End Nearest.

(** ** [ray_mesh] is the plain nearest-hit scan over its triangles *)

Section MeshLaws.
Context `{L : Libm}.

(** The distance [ray_triangle] finds before the interval test. *)
Definition tri_cand (allow : bool) (tri : Triangle) (e d : vec3) : option Q :=
  let n := normalize (cross (vert2 tri ⊖ vert1 tri) (vert0 tri ⊖ vert1 tri)) in
  let ndotd := dot n d in
  if negb (Qeqb ndotd 0) then
    let t := dot n (vert0 tri ⊖ e) / ndotd in
    let bc := bary tri (e ⊕ t ⊛ d) n in
    if all_pos bc || (allow && all_neg bc) then Some t else None
  else None.

Lemma ray_triangle_dist allow tri e d near far pt n :
  fst (fst (ray_triangle allow tri e d near far pt n)) = range_filter near far (tri_cand allow tri e d).
Proof.
  unfold ray_triangle, tri_cand. destruct (negb _); [|reflexivity].
  destruct (all_pos _) eqn:P; cbn [orb].
  - cbn [range_filter]. destruct (in_range _ _ _); reflexivity.
  - destruct (allow && all_neg _); cbn [range_filter]; destruct (in_range _ _ _); reflexivity.
Qed.

Lemma ray_mesh_fold allow e d near tris s :
  ms_nearest (fold_left (ray_mesh_step allow e d near) tris s) =
  nearest_narrow near (ms_far s) (ms_nearest s) (map (fun tri => tri_cand allow tri e d) tris).
Proof.
  revert s. induction tris as [|tri tris IH]; intros s; [reflexivity|].
  cbn [fold_left map nearest_narrow]. rewrite IH. unfold ray_mesh_step.
  pose proof (ray_triangle_dist allow tri e d near (ms_far s) (ms_tri_hp s) (ms_tri_norm s)) as Hd.
  destruct (ray_triangle _ _ _ _ _ _ _ _) as [[t hp'] n']. cbn [fst] in Hd. subst t.
  change (Qleb near ?x && (Qltb (ms_nearest s) 0 || Qltb ?x (ms_nearest s))) with (accept near (ms_nearest s) x).
  destruct (accept _ _ _); reflexivity.
Qed.

(** [ray_mesh] returns the plain scan of its triangles. *)
Lemma ray_mesh_plain allow tris e d near far hp hn :
  0 < near ->
  fst (fst (ray_mesh allow tris e d near far hp hn)) =
  nearest_of near (map (fun tri => fst (fst (ray_triangle allow tri e d near far vzero vzero))) tris) (-1).
Proof.
  intros Hnear. unfold ray_mesh. cbn [fst]. rewrite ray_mesh_fold. cbn [ms_far ms_nearest].
  rewrite (narrow_eq near Hnear _ far far (-1)) by (left; split; reflexivity).
  rewrite map_map. f_equal. apply map_ext. intros tri. symmetry. apply ray_triangle_dist.
Qed.

(** C5: narrowing [far] inside [ray_mesh] is only an optimisation: for a
    positive [near], the distance [ray_mesh] returns is the one a plain
    scan of the triangles' own results (each with the original [far])
    returns. *)
Theorem ray_mesh_nearest allow tris e d near far hp hn :
  0 < near ->
  fst (fst (ray_mesh allow tris e d near far hp hn)) =
  nearest_of near (map (fun tri => fst (fst (ray_triangle allow tri e d near far vzero vzero))) tris) (-1).
Proof. exact (ray_mesh_plain allow tris e d near far hp hn). Qed.
End MeshLaws.

(** ** Witnesses

    A camera at the origin looking down [-z], the unit sphere centred at
    [(0, 0, -5)] (discriminant 1, so the floor square root is exact), and
    the triangle [(0,0,-4), (1,0,-4), (0,1,-4)] hit from the front by
    [ex_d_tri] and from behind by [ex_d_back]. *)

Definition ex_e : vec3 := V3 0 0 0.
Definition ex_d : vec3 := V3 0 0 (-1).
Definition ex_c : vec3 := V3 0 0 (-5).
Definition ex_tri : Triangle := mkTriangle (V3 0 0 (-4)) (V3 1 0 (-4)) (V3 0 1 (-4)).
Definition ex_tri2 : Triangle := mkTriangle (V3 0 0 (-6)) (V3 1 0 (-6)) (V3 0 1 (-6)).
Definition ex_d_tri : vec3 := V3 (1 # 4) (1 # 4) (-4).
Definition ex_e_back : vec3 := V3 0 0 (-8).
Definition ex_d_back : vec3 := V3 (1 # 4) (1 # 4) 4.

Definition ex_sphere_hit : RayResult := Eval vm_compute in ray_sphere 1 ex_c ex_e ex_d 1 0 vzero vzero.
Definition ex_tri_hit : RayResult := Eval vm_compute in ray_triangle true ex_tri ex_e ex_d_tri 1 0 vzero vzero.

Lemma ray_triangle_back_branch_dead_witness :
  fst (fst (ray_triangle false ex_tri ex_e_back ex_d_back 1 0 vzero vzero)) == 1 /\
  ray_triangle true ex_tri ex_e_back ex_d_back 1 0 vzero vzero =
  ray_triangle false ex_tri ex_e_back ex_d_back 1 0 vzero vzero.
Proof.
  split; [qcompute | exact (ray_triangle_back_branch_dead true ex_tri ex_e_back ex_d_back 1 0 vzero vzero)].
Defined.

Lemma ray_sphere_in_ball_witness :
  fst (fst ex_sphere_hit) == 4 /\
  snd (fst ex_sphere_hit) = ex_e ⊕ fst (fst ex_sphere_hit) ⊛ ex_d /\
  dot (snd (fst ex_sphere_hit) ⊖ ex_c) (snd (fst ex_sphere_hit) ⊖ ex_c) <= 1 * 1.
Proof.
  split; [qcompute|].
  apply (ray_sphere_in_ball 1 ex_c ex_e ex_d 1 0 vzero vzero
           (fst (fst ex_sphere_hit)) (snd (fst ex_sphere_hit)) (snd ex_sphere_hit));
    [qcompute | qcompute | vm_compute; reflexivity | qcompute].
Defined.

Lemma ray_triangle_in_vertex_box_witness :
  fst (fst ex_tri_hit) == 1 /\
  forall i, vget (V3 0 0 (-4)) i <= vget (snd (fst ex_tri_hit)) i <= vget (V3 1 1 (-4)) i.
Proof.
  split; [qcompute|].
  apply (ray_triangle_in_vertex_box true ex_tri ex_e ex_d_tri 1 0 vzero vzero
           (fst (fst ex_tri_hit)) (snd (fst ex_tri_hit)) (snd ex_tri_hit) (V3 0 0 (-4)) (V3 1 1 (-4)));
    [qcompute | vm_compute; reflexivity | qcompute |].
  intros [|[|i]]; vm_compute; repeat split; discriminate.
Defined.

Lemma sphere_root_choice_witness :
  exists t, sphere_root 1 ex_c ex_e ex_d 1 = Some t /\ t == 4.
Proof.
  pose proof (sphere_root_choice 1 ex_c ex_e ex_d 1 ltac:(qcompute) ltac:(qcompute)) as H.
  eexists. split; [exact H | qcompute].
Defined.

Lemma ray_mesh_nearest_witness :
  fst (fst (ray_mesh true [ex_tri2; ex_tri] ex_e ex_d_tri 1 0 vzero vzero)) == 1 /\
  fst (fst (ray_mesh true [ex_tri2; ex_tri] ex_e ex_d_tri 1 0 vzero vzero)) =
  nearest_of 1 (map (fun tri => fst (fst (ray_triangle true tri ex_e ex_d_tri 1 0 vzero vzero)))
                   [ex_tri2; ex_tri]) (-1).
Proof.
  split; [qcompute | exact (ray_mesh_nearest true [ex_tri2; ex_tri] ex_e ex_d_tri 1 0 vzero vzero ltac:(qcompute))].
Defined.

(** ** The routines' distances in range-filter form *)

Lemma accept_proper near acc1 acc2 t : acc1 == acc2 -> accept near acc1 t = accept near acc2 t.
Proof.
  intros E. unfold accept.
  destruct (Qltb_spec acc1 0), (Qltb_spec acc2 0), (Qltb_spec t acc1), (Qltb_spec t acc2);
    cbn; rewrite ?orb_true_r, ?orb_false_r; auto; exfalso; lra.
Qed.

Lemma in_range_proper near far t1 t2 : t1 == t2 -> in_range near far t1 = in_range near far t2.
Proof.
  intros E. unfold in_range.
  destruct (Qleb_spec near t1), (Qleb_spec near t2), (Qleb_spec t1 far), (Qleb_spec t2 far);
    cbn; rewrite ?orb_true_r, ?orb_false_r; auto; exfalso; lra.
Qed.

(** The plain scan respects [Qeq] on its start value. *)
Lemma nearest_of_proper near ts acc1 acc2 :
  acc1 == acc2 -> nearest_of near ts acc1 == nearest_of near ts acc2.
Proof.
  revert acc1 acc2. induction ts as [|t ts IH]; intros acc1 acc2 E; [exact E|].
  change (nearest_of near ts (if accept near acc1 t then t else acc1) ==
          nearest_of near ts (if accept near acc2 t then t else acc2)).
  rewrite (accept_proper near acc1 acc2 t E).
  destruct (accept near acc2 t); apply IH; [reflexivity | exact E].
Qed.

Lemma range_filter_cases near far c :
  range_filter near far c = -1 \/
  (near <= range_filter near far c /\ in_range near far (range_filter near far c) = true).
Proof.
  destruct c as [t|]; cbn; [|auto].
  destruct (in_range near far t) eqn:E; [right | auto].
  split; [now apply in_range_true in E as [? _] | exact E].
Qed.

Section Dist.
Context `{L : Libm}.

Lemma ray_sphere_dist radius c e d near far hp hn :
  fst (fst (ray_sphere radius c e d near far hp hn)) = range_filter near far (sphere_root radius c e d near).
Proof. unfold ray_sphere. destruct (sphere_root _ _ _ _ _); cbn; [destruct (in_range _ _ _)|]; reflexivity. Qed.

(** The distance [ray_plane] finds before the interval test. *)
Definition plane_cand (a normal e d : vec3) : option Q :=
  let n := normalize normal in
  let ndotd := dot n d in
  if negb (Qeqb ndotd 0) then Some (dot n (a ⊖ e) / ndotd) else None.

Lemma ray_plane_dist a normal e d near far hp hn :
  fst (fst (ray_plane a normal e d near far hp hn)) = range_filter near far (plane_cand a normal e d).
Proof. unfold ray_plane, plane_cand. destruct (negb _); cbn; [destruct (in_range _ _ _)|]; reflexivity. Qed.

Lemma ray_mesh_dist_indep allow tris e d near far hp hn :
  fst (fst (ray_mesh allow tris e d near far hp hn)) = fst (fst (ray_mesh allow tris e d near far vzero vzero)).
Proof. unfold ray_mesh. cbn [fst]. rewrite !ray_mesh_fold. reflexivity. Qed.
End Dist.

Definition ex_plane_hit : RayResult :=
  Eval vm_compute in ray_plane (V3 0 (-1) 0) (V3 0 1 0) ex_e (V3 0 (-1) (-1)) 1 0 vzero vzero.

Lemma ray_plane_on_plane_witness :
  -1 < 1 /\ ray_plane (V3 0 (-1) 0) (V3 0 1 0) ex_e (V3 0 (-1) (-1)) 1 0 vzero vzero = ex_plane_hit /\
  1 <= fst (fst ex_plane_hit) /\
  (snd (fst ex_plane_hit) = ex_e ⊕ fst (fst ex_plane_hit) ⊛ V3 0 (-1) (-1) /\
   snd ex_plane_hit = normalize (V3 0 1 0) /\ dot (snd ex_plane_hit) (snd (fst ex_plane_hit) ⊖ V3 0 (-1) 0) == 0).
Proof.
  assert (H1 : -1 < 1) by qcompute.
  assert (E : ray_plane (V3 0 (-1) 0) (V3 0 1 0) ex_e (V3 0 (-1) (-1)) 1 0 vzero vzero =
              (fst (fst ex_plane_hit), snd (fst ex_plane_hit), snd ex_plane_hit)) by (vm_compute; reflexivity).
  assert (H2 : 1 <= fst (fst ex_plane_hit)) by qcompute.
  split; [exact H1 | split; [exact E | split; [exact H2|]]].
  exact (ray_plane_on_plane _ _ _ _ 1 0 vzero vzero _ _ _ H1 E H2).
Defined.
