(* ===== verification/Hit.v ===== *)
(** * Hit: the hit resolver [hit] of src/src/raytracer.cpp (lines 240-335)

    The globals the source reads ([scene], [bvhNode], [planes] and the
    feature flags) are the record [RenderContext]; [choose_scene_setup]
    builds it the way [choose_scene] does after parsing (lines 81-89).
    [hit] gathers the candidates (the planes and the BVH candidates, or
    every object when acceleration is off), runs the routine of each
    candidate ([intersect]), and either keeps the nearest distance,
    narrowing [far] to it, or, in shadow mode ([opacity_sum] present),
    accumulates the opacity of every occluder in range.

    The loop state [HitState] holds the source's locals [nearest_t], [far],
    [at], [normal] and the reference parameters [hit_at], [hit_normal],
    [hit_object], [*opacity_sum].  The early [return 1] of shadow mode is
    the [inl] case of [shadow_step].  In the source the test
    [*opacity_sum == RGB(1,1,1)] sits under [if (pick)] (its intended body
    is commented out), so the early exit on full opacity only happens when
    [pick] is set; the model keeps that. *)

From Stdlib Require Import QArith Lqa List Permutation Lia.
From S2P Require Import Prelude Schema Bvh Traverse Intersect.
Import ListNotations.
Open Scope Q_scope.

(** The program's global state during rendering. *)
Record RenderContext := mkRenderContext {
  rc_config : Config;
  rc_scene : Scene;
  rc_bvh : BVHNode;
  rc_planes : list Object;
  rc_background : vec3 }.

Definition is_plane (o : Object) : bool := match o with Plane _ _ _ => true | _ => false end.

(** [choose_scene] after [json_to_scene]: the field of view and background
    from the camera, the BVH, and the list of planes.  [None] where
    [buildBVH] does not return. *)
Definition choose_scene_setup `{Sorter} (cfg : Config) (s : Scene) : option RenderContext :=
  match buildBVH (objects s) with
  | Some bvh => Some (mkRenderContext cfg s bvh (filter is_plane (objects s)) (background (camera s)))
  | None => None
  end.

Section Resolver.
Context `{L : Libm}.

(** The dispatch on the object's type (lines 273-291). *)
Definition intersect (cfg : Config) (o : Object) (e d : vec3) (near far : Q) (at_ normal : vec3) : RayResult :=
  match o with
  | Sphere _ radius position => ray_sphere radius position e d near far at_ normal
  | MTriangle _ tri _ => ray_triangle (ALLOW_HIT_MESH_BACK cfg) tri e d near far at_ normal
  | Plane _ position n => ray_plane position n e d near far at_ normal
  | Mesh _ triangles => ray_mesh (ALLOW_HIT_MESH_BACK cfg) triangles e d near far at_ normal
  end.

Record HitState := mkHitState {
  hs_nearest : Q; hs_far : Q; hs_at : vec3; hs_normal : vec3;
  hs_hit_at : vec3; hs_hit_normal : vec3; hs_hit_object : option Object;
  hs_opacity : option vec3 }.

Definition with_out (at_ normal : vec3) (st : HitState) : HitState :=
  mkHitState (hs_nearest st) (hs_far st) at_ normal (hs_hit_at st) (hs_hit_normal st)
    (hs_hit_object st) (hs_opacity st).

Definition with_shadow (op : vec3) (obj : option Object) (st : HitState) : HitState :=
  mkHitState (hs_nearest st) (hs_far st) (hs_at st) (hs_normal st) (hs_hit_at st) (hs_hit_normal st)
    obj (Some op).

(** Lines 293-318: in shadow mode, an occluder in range either ends the
    search ([inl], returning 1) or adds its opacity. *)
Definition shadow_step (cfg : Config) (pick : bool) (near : Q) (o : Object) (t : Q) (st : HitState)
    : (Q * HitState) + HitState :=
  match hs_opacity st with
  | None => inr st
  | Some op =>
      if in_range near (hs_far st) t then
        if DISABLE_SHADOW_TRANSPARENCY cfg then inl (1, with_shadow vone (Some o) st)
        else
          let opacity := vone ⊖ transmissive (obj_material o) in
          let op' := vclamp01 (op ⊕ opacity) in
          let st' := with_shadow op' (hs_hit_object st) st in
          if pick && veqb op' vone then inl (1, st') else inr st'
      else inr st
  end.

(** Lines 320-331: keep the nearest positive distance; outside shadow
    mode narrow [far] to it. *)
Definition hit_track (o : Object) (t : Q) (st : HitState) : HitState :=
  if Qltb 0 t && (Qltb (hs_nearest st) 0 || Qltb t (hs_nearest st)) then
    mkHitState t (match hs_opacity st with None => t | Some _ => hs_far st end)
      (hs_at st) (hs_normal st) (hs_at st) (hs_normal st) (Some o) (hs_opacity st)
  else st.

Fixpoint hit_loop (cfg : Config) (e d : vec3) (near : Q) (pick : bool) (candidates : list Object)
    (st : HitState) : Q * HitState :=
  match candidates with
  | [] => (hs_nearest st, st)
  | o :: rest =>
      let '(t, at_, normal) := intersect cfg o e d near (hs_far st) (hs_at st) (hs_normal st) in
      let st := with_out at_ normal st in
      match shadow_step cfg pick near o t st with
      | inl r => r
      | inr st => hit_loop cfg e d near pick rest (hit_track o t st)
      end
  end.

(** Lines 245-268. *)
Definition hit_candidates (ctx : RenderContext) (e d : vec3) (near far : Q) : list Object :=
  if DISABLE_BVH_ACCELERATION (rc_config ctx) then objects (rc_scene ctx)
  else rc_planes ctx ++ getBVHList (rc_bvh ctx) e d near far.

(** [hit]: the locals [at] and [normal] start uninitialised (any value
    does: they are written before they are read). *)
Definition hit (ctx : RenderContext) (e d : vec3) (near far : Q) (hit_at hit_normal : vec3)
    (hit_object : option Object) (opacity_sum : option vec3) (pick : bool) : Q * HitState :=
  hit_loop (rc_config ctx) e d near pick (hit_candidates ctx e d near far)
    (mkHitState (-1) far vzero vzero hit_at hit_normal hit_object opacity_sum).
End Resolver.

(** ** Without shadows, [hit] is the plain nearest-hit scan

    Outside shadow mode [hit] narrows [far] to every distance it keeps.
    Each routine's distance, seen as a function of [far], has two
    properties ([narrow_ok]): it is -1 or a distance in [[near, far]], and
    narrowing [far] to a kept distance [acc] changes neither whether the
    routine's distance beats [acc] nor, when it does, its value.  Every
    routine has them, so [hit] returns what the scan of the candidates'
    distances under the original [far] returns. *)

Record narrow_ok (g : Q -> Q) (near : Q) : Prop := {
  no_range : forall far, g far = -1 \/ (near <= g far /\ in_range near far (g far) = true);
  no_narrow : forall far0 acc, near <= acc -> in_range near far0 acc = true ->
    accept near acc (g acc) = accept near acc (g far0) /\
    (accept near acc (g acc) = true -> g acc == g far0) }.

Lemma narrow_ok_ext g g' near : (forall far, g far = g' far) -> narrow_ok g near -> narrow_ok g' near.
Proof.
  intros E [R N]. split.
  - intros far. rewrite <- E. apply R.
  - intros far0 acc Ha Hin. rewrite <- !E. now apply N.
Qed.

Lemma rf_narrow_ok near c : 0 < near -> narrow_ok (fun far => range_filter near far c) near.
Proof.
  intros Hn. split; [intros far; apply range_filter_cases|].
  intros far0 acc Ha Hin. destruct (narrow_step near Hn far0 acc c Ha Hin) as [E1 E2].
  split; [exact E1 | intros H; rewrite (E2 H); reflexivity].
Qed.

Lemma scan_narrow_ok near cs : 0 < near ->
  narrow_ok (fun far => nearest_of near (map (range_filter near far) cs) (-1)) near.
Proof.
  intros Hn. split.
  - intros far. destruct (nearest_hit_in near Hn cs far)
      as [E|[(Hm & c & _ & Ec) _]]; [now left | right].
    split; [exact Hm|]. rewrite <- Ec in Hm |- *. now apply range_filter_hit.
  - intros far0 acc Ha Hin. exact (mesh_narrow near Hn cs far0 acc Ha Hin).
Qed.

(** [t > 0] in place of [t >= near]: the same test on a routine's result. *)
Lemma pos_accept near acc t : 0 < near -> (t = -1 \/ near <= t) ->
  Qltb 0 t && (Qltb acc 0 || Qltb t acc) = accept near acc t.
Proof.
  intros Hn Ht. unfold accept. f_equal.
  destruct Ht as [->|Ht]; [destruct (Qltb_spec 0 (-1)), (Qleb_spec near (-1))
  | destruct (Qltb_spec 0 t), (Qleb_spec near t)]; try reflexivity; lra.
Qed.

Definition loop_inv (near far0 acc far : Q) : Prop :=
  (acc = -1 /\ far = far0) \/ (near <= acc /\ far = acc /\ in_range near far0 acc = true).

Section Nearest.
Context `{L : Libm}.

(** The distance an object's routine returns; the out-parameters do not
    matter ([dist_indep]). *)
Definition dist (cfg : Config) (o : Object) (e d : vec3) (near far : Q) : Q :=
  fst (fst (intersect cfg o e d near far vzero vzero)).

Lemma dist_indep cfg o e d near far hp hn :
  fst (fst (intersect cfg o e d near far hp hn)) = dist cfg o e d near far.
Proof.
  unfold dist. destruct o; cbn [intersect].
  - rewrite !ray_sphere_dist. reflexivity.
  - rewrite !ray_plane_dist. reflexivity.
  - apply ray_mesh_dist_indep.
  - rewrite !ray_triangle_dist. reflexivity.
Qed.

(** The mesh distance as the scan of its triangles' candidates. *)
Lemma dist_mesh cfg m tris e d near far : 0 < near ->
  dist cfg (Mesh m tris) e d near far =
  nearest_of near (map (range_filter near far) (map (fun tri => tri_cand (ALLOW_HIT_MESH_BACK cfg) tri e d) tris)) (-1).
Proof.
  intros Hn. unfold dist. cbn [intersect]. rewrite ray_mesh_plain by exact Hn.
  rewrite map_map. f_equal. apply map_ext. intros tri. apply ray_triangle_dist.
Qed.

Lemma dist_narrow_ok cfg o e d near : 0 < near -> narrow_ok (dist cfg o e d near) near.
Proof.
  intros Hn. destruct o as [m r c|m a nrm|m tris|m tri mid].
  - eapply narrow_ok_ext; [|exact (rf_narrow_ok near (sphere_root r c e d near) Hn)].
    intros far. unfold dist. cbn [intersect]. symmetry. apply ray_sphere_dist.
  - eapply narrow_ok_ext; [|exact (rf_narrow_ok near (plane_cand a nrm e d) Hn)].
    intros far. unfold dist. cbn [intersect]. symmetry. apply ray_plane_dist.
  - eapply narrow_ok_ext;
      [|exact (scan_narrow_ok near (map (fun tri => tri_cand (ALLOW_HIT_MESH_BACK cfg) tri e d) tris) Hn)].
    intros far. symmetry. now apply dist_mesh.
  - eapply narrow_ok_ext; [|exact (rf_narrow_ok near (tri_cand (ALLOW_HIT_MESH_BACK cfg) tri e d) Hn)].
    intros far. unfold dist. cbn [intersect]. symmetry. apply ray_triangle_dist.
Qed.
(** The loop outside shadow mode returns the scan of the distances under
    the original [far], from the distance kept so far. *)
Lemma hit_loop_scan cfg e d near pick far0 objs st :
  0 < near -> hs_opacity st = None -> loop_inv near far0 (hs_nearest st) (hs_far st) ->
  fst (hit_loop cfg e d near pick objs st) ==
  nearest_of near (map (fun o => dist cfg o e d near far0) objs) (hs_nearest st).
Proof.
  intros Hn. revert st. induction objs as [|o objs IH]; intros st Hop Hinv; [reflexivity|].
  cbn [hit_loop map].
  change (nearest_of near (?x :: ?xs) ?a) with (nearest_of near xs (if accept near a x then x else a)).
  pose proof (dist_indep cfg o e d near (hs_far st) (hs_at st) (hs_normal st)) as Ht.
  destruct (intersect _ _ _ _ _ _ _ _) as [[t at_] nrm]. cbn [fst] in Ht. subst t.
  unfold shadow_step, hit_track, with_out. cbn [hs_opacity hs_nearest hs_far hs_at hs_normal]. rewrite Hop.
  destruct (dist_narrow_ok cfg o e d near Hn) as [R N].
  rewrite (pos_accept near) by (exact Hn || (destruct (R (hs_far st)) as [?|[? _]]; auto)).
  destruct Hinv as [[Ea Ef]|(Ha & Ef & Hin)]; rewrite Ef; cbn [hs_opacity hs_nearest hs_far].
  - destruct (accept near (hs_nearest st) (dist cfg o e d near far0)) eqn:E.
    + apply (IH (mkHitState _ _ _ _ _ _ _ _)); [reflexivity|]. right. cbn [hs_nearest hs_far].
      apply accept_true in E as [Ht _]. split; [exact Ht | split; [reflexivity|]].
      destruct (R far0) as [E1|[_ Hr]]; [rewrite E1 in Ht; lra | exact Hr].
    + apply (IH (mkHitState _ _ _ _ _ _ _ _)); [reflexivity | left; split; [exact Ea | reflexivity]].
  - destruct (N far0 (hs_nearest st) Ha Hin) as [E1 E2]. rewrite <- E1.
    destruct (accept near (hs_nearest st) (dist cfg o e d near (hs_nearest st))) eqn:E.
    + specialize (E2 eq_refl). apply accept_true in E as [Ht _].
      eapply Qeq_trans; [apply (IH (mkHitState _ _ _ _ _ _ _ _)); [reflexivity|] | apply nearest_of_proper, E2].
      right. cbn [hs_nearest hs_far]. split; [exact Ht | split; [reflexivity|]].
      rewrite (in_range_proper near far0 _ _ E2).
      destruct (R far0) as [E0|[_ Hr]]; [rewrite E0 in E2; lra | exact Hr].
    + apply (IH (mkHitState _ _ _ _ _ _ _ _)); [reflexivity | right; split; [exact Ha | split; [reflexivity | exact Hin]]].
Qed.

(** [hit] outside shadow mode. *)
Lemma hit_scan ctx e d near far hit_at hit_normal hit_object pick : 0 < near ->
  fst (hit ctx e d near far hit_at hit_normal hit_object None pick) ==
  nearest_of near (map (fun o => dist (rc_config ctx) o e d near far) (hit_candidates ctx e d near far)) (-1).
Proof.
  intros Hn. unfold hit. apply (hit_loop_scan _ _ _ _ _ far); [exact Hn | reflexivity | left; split; reflexivity].
Qed.
End Nearest.

(** Outside shadow mode, a positive distance comes with the object hit. *)
Lemma hit_loop_object `{L : Libm} cfg e d near pick cands st :
  hs_opacity st = None -> (0 < hs_nearest st -> hs_hit_object st <> None) ->
  0 < fst (hit_loop cfg e d near pick cands st) -> hs_hit_object (snd (hit_loop cfg e d near pick cands st)) <> None.
Proof.
  revert st. induction cands as [|o cands IH]; intros st Hop Hinv; [exact Hinv|].
  cbn [hit_loop]. destruct (intersect _ _ _ _ _ _ _ _) as [[t at_] nrm].
  unfold shadow_step, with_out. cbn [hs_opacity]. rewrite Hop.
  unfold hit_track. cbn [hs_nearest hs_opacity hs_hit_object].
  destruct (_ && _); apply IH; cbn; auto; discriminate.
Qed.

Lemma hit_object_some `{L : Libm} ctx e d near far hit_at hit_normal pick :
  0 < fst (hit ctx e d near far hit_at hit_normal None None pick) ->
  exists o, hs_hit_object (snd (hit ctx e d near far hit_at hit_normal None None pick)) = Some o.
Proof.
  intros Ht. unfold hit in *.
  destruct (hs_hit_object _) as [o|] eqn:E; [eauto|].
  exfalso. revert E. apply hit_loop_object; [reflexivity | cbn; lra | exact Ht].
Qed.

(** ** With and without the BVH, [hit] finds the same distance

    The BVH run scans the planes and the objects [getBVHList] returns (a
    mesh as its triangles); the exhaustive run scans the scene's objects.
    A distance either run finds is matched by one at most as far in the
    other, so both scans return the same nearest distance. *)

(** Two scans agree when every hit of each is matched by a hit of the other
    at most as far. *)
Lemma nearest_of_equiv near ts1 ts2 : 0 < near ->
  (forall x, In x ts1 -> near <= x -> exists y, In y ts2 /\ near <= y /\ y <= x) ->
  (forall y, In y ts2 -> near <= y -> exists x, In x ts1 /\ near <= x /\ x <= y) ->
  nearest_of near ts1 (-1) == nearest_of near ts2 (-1).
Proof.
  intros Hn D12 D21.
  destruct (nearest_of_spec near Hn ts1 (-1) (or_introl eq_refl)) as ([E1|[In1 H1]] & _ & B1);
  destruct (nearest_of_spec near Hn ts2 (-1) (or_introl eq_refl)) as ([E2|[In2 H2]] & _ & B2).
  - rewrite E1, E2. reflexivity.
  - destruct (D21 _ In2 H2) as (x & Hx & Hnx & _). destruct (B1 x Hx Hnx) as [Hl _].
    rewrite E1 in Hl. lra.
  - destruct (D12 _ In1 H1) as (y & Hy & Hny & _). destruct (B2 y Hy Hny) as [Hl _].
    rewrite E2 in Hl. lra.
  - destruct (D12 _ In1 H1) as (y & Hy & Hny & Hle). destruct (B2 y Hy Hny) as [_ H2y].
    destruct (D21 _ In2 H2) as (x & Hx & Hnx & Hle'). destruct (B1 x Hx Hnx) as [_ H1x]. lra.
Qed.

(** The scene [json_to_scene] produces: spheres of non-negative radius,
    and no [MTriangle], which only [buildBVH] creates. *)
Definition object_ok (o : Object) : bool :=
  match o with Sphere _ r _ => Qleb 0 r | MTriangle _ _ _ => false | _ => true end.

Definition scene_ok (s : Scene) : bool := forallb object_ok (objects s).

Lemma sphere_bounds_vget r c i :
  vget (fst (sphere_bounds r c)) i = vget c i - r /\ vget (snd (sphere_bounds r c)) i = vget c i + r.
Proof. destruct i as [|[|]]; split; reflexivity. Qed.

Lemma tri_min_max f tri :
  tri_min f tri <= f (vert0 tri) <= tri_max f tri /\ tri_min f tri <= f (vert1 tri) <= tri_max f tri /\
  tri_min f tri <= f (vert2 tri) <= tri_max f tri.
Proof.
  unfold tri_min, tri_max.
  repeat split; eauto 6 using Qle_trans, fmin_le_l, fmin_le_r, fmax_ge_l, fmax_ge_r.
Qed.

Lemma triangle_bounds_verts tri i :
  let lo := fst (triangle_bounds tri) in let hi := snd (triangle_bounds tri) in
  vget lo i <= vget (vert0 tri) i <= vget hi i /\ vget lo i <= vget (vert1 tri) i <= vget hi i /\
  vget lo i <= vget (vert2 tri) i <= vget hi i.
Proof.
  destruct i as [|[|]]; cbn [triangle_bounds fst snd vget vx vy vz]; apply tri_min_max.
Qed.

Section Equivalence.
Context `{L : Libm} `{!LibmLaws L}.

Lemma dist_cfg cfg cfg' o e d near far :
  ALLOW_HIT_MESH_BACK cfg' = ALLOW_HIT_MESH_BACK cfg -> dist cfg' o e d near far = dist cfg o e d near far.
Proof. intros E. unfold dist. destruct o; cbn [intersect]; rewrite ?E; reflexivity. Qed.

(** A sphere hit at [t] lies in the sphere's box. *)
Lemma sphere_hit_meets cfg m r c e d near far :
  0 <= r -> 0 < dot d d -> 0 < near ->
  near <= dist cfg (Sphere m r c) e d near far <= BIG ->
  ray_meets (fst (sphere_bounds r c)) (snd (sphere_bounds r c)) e d (dist cfg (Sphere m r c) e d near far).
Proof.
  intros Hr Hd Hn. unfold dist. cbn [intersect].
  destruct (ray_sphere r c e d near far vzero vzero) as [[t p] n] eqn:Hs. cbn [fst]. intros Ht.
  destruct (sphere_hit_in_ball r c e d near far vzero vzero t p n Hd ltac:(lra) Hs (proj1 Ht)) as [-> Hb].
  split; [lra|]. intros i _.
  pose proof (coord_sq_le_dot ((e ⊕ t ⊛ d) ⊖ c) i) as Hc.
  rewrite vget_sub, vget_ray_point in Hc. destruct (sphere_bounds_vget r c i) as [-> ->].
  assert (Hx : (vget e i + t * vget d i - vget c i) * (vget e i + t * vget d i - vget c i) <= r * r) by lra.
  generalize dependent (vget e i + t * vget d i). intros x _ Hx. split; nra.
Qed.

(** A triangle hit at [t] lies in the triangle's box. *)
Lemma triangle_hit_meets allow tri e d near far :
  0 < near -> near <= range_filter near far (tri_cand allow tri e d) <= BIG ->
  ray_meets (fst (triangle_bounds tri)) (snd (triangle_bounds tri)) e d (range_filter near far (tri_cand allow tri e d)).
Proof.
  intros Hn. rewrite <- (ray_triangle_dist allow tri e d near far vzero vzero).
  destruct (ray_triangle allow tri e d near far vzero vzero) as [[t p] n] eqn:Hs. cbn [fst]. intros Ht.
  split; [lra|]. intros i _.
  pose proof (triangle_hit_in_hull allow tri e d near far vzero vzero t p n _ _ ltac:(lra) Hs (proj1 Ht)
    (triangle_bounds_verts tri) i) as Hp.
  rewrite (ray_triangle_hit_point allow tri e d near far vzero vzero t p n ltac:(lra) Hs (proj1 Ht)) in Hp.
  rewrite vget_ray_point in Hp. exact Hp.
Qed.
Lemma dist_mtriangle cfg m tri mid e d near far :
  dist cfg (MTriangle m tri mid) e d near far = range_filter near far (tri_cand (ALLOW_HIT_MESH_BACK cfg) tri e d).
Proof. unfold dist. cbn [intersect]. apply ray_triangle_dist. Qed.

(** An object the BVH holds (a sphere, or a triangle of a mesh) is matched
    by a scene object at most as far. *)
Lemma bvh_leaf_covered cfg e d near far objs o mn mx :
  0 < near -> In (o, mn, mx) (flat_map bvh_objects objs) -> near <= dist cfg o e d near far ->
  exists o0, In o0 objs /\ near <= dist cfg o0 e d near far <= dist cfg o e d near far.
Proof.
  intros Hn Hin Hh. apply in_flat_map in Hin as (o0 & Ho0 & Hb). exists o0. split; [exact Ho0|].
  destruct o0 as [m r c|m a nrm|m tris|m tri mid]; cbn [bvh_objects] in Hb; [|destruct Hb| |destruct Hb].
  - destruct Hb as [E|[]]. injection E as <- _ _. lra.
  - apply in_map_iff in Hb as (tri & E & Htri). unfold mesh_triangle in E. cbn in E.
    injection E as <- _ _. rewrite dist_mtriangle in Hh |- *. rewrite dist_mesh by exact Hn.
    destruct (nearest_of_spec near Hn (map (range_filter near far) (map (fun tri => tri_cand (ALLOW_HIT_MESH_BACK cfg) tri e d) tris))
      (-1) (or_introl eq_refl)) as (_ & _ & B).
    apply B; [apply in_map, in_map_iff; eauto | exact Hh].
Qed.

(** A scene object hit at a distance at most [BIG] is matched by a
    candidate of the BVH run at the same distance. *)
Lemma scene_hit_found cfg e d near far objs bvh o0 :
  0 < near -> 0 < dot d d -> bvh_wf bvh -> Permutation (leaves bvh) (flat_map bvh_objects objs) ->
  In o0 objs -> object_ok o0 = true -> near <= dist cfg o0 e d near far <= BIG ->
  exists o, In o (filter is_plane objs ++ getBVHList bvh e d near far) /\
            dist cfg o e d near far = dist cfg o0 e d near far.
Proof.
  intros Hn Hd Hwf Hp Ho0 Hok Ht.
  assert (Leaf : forall o mn mx t, In (o, mn, mx) (bvh_objects o0) -> ray_meets mn mx e d t ->
                 In o (filter is_plane objs ++ getBVHList bvh e d near far)).
  { intros o mn mx t Hb Hm. apply in_or_app. right. apply (getBVHList_finds bvh e d near far o mn mx t Hwf); [|exact Hm].
    apply (Permutation_in _ (Permutation_sym Hp)). apply in_flat_map. eauto. }
  destruct o0 as [m r c|m a nrm|m tris|m tri mid]; cbn [object_ok] in Hok; [| | |discriminate].
  - exists (Sphere m r c). split; [|reflexivity].
    apply (Leaf _ (fst (sphere_bounds r c)) (snd (sphere_bounds r c)) (dist cfg (Sphere m r c) e d near far) (or_introl eq_refl)).
    apply sphere_hit_meets; [destruct (Qleb_spec 0 r); [assumption | discriminate] | exact Hd | exact Hn | exact Ht].
  - exists (Plane m a nrm). split; [|reflexivity]. apply in_or_app. left. apply filter_In. auto.
  - rewrite dist_mesh in Ht |- * by exact Hn.
    destruct (nearest_hit_in near Hn (map (fun tri => tri_cand (ALLOW_HIT_MESH_BACK cfg) tri e d) tris) far)
      as [E|[(Hm & c & Hc & Ec) _]]; [rewrite E in Ht; lra|].
    apply in_map_iff in Hc as (tri & <- & Htri).
    exists (bo_obj (mesh_triangle m tri)). split.
    + apply (Leaf _ (fst (triangle_bounds tri)) (snd (triangle_bounds tri)) (range_filter near far (tri_cand (ALLOW_HIT_MESH_BACK cfg) tri e d))).
      * cbn [bvh_objects]. apply in_map_iff. exists tri. split; [reflexivity | exact Htri].
      * apply triangle_hit_meets; [exact Hn | rewrite Ec; exact Ht].
    + cbv beta iota zeta delta [bo_obj mesh_triangle triangle_bounds fst]. rewrite dist_mtriangle. exact Ec.
Qed.
End Equivalence.

Lemma in_map_dist `{Libm} cfg e d near far o objs :
  In o objs -> In (dist cfg o e d near far) (map (fun o => dist cfg o e d near far) objs).
Proof. apply (in_map (fun o => dist cfg o e d near far)). Qed.

Section Acceleration.
Context `{S : Sorter} `{L : Libm} `{!LibmLaws L}.

Lemma hit_bvh_equiv cfg cfg' s ctx ctx' e d near far hit_at hit_normal hit_object pick :
  choose_scene_setup cfg s = Some ctx -> choose_scene_setup cfg' s = Some ctx' ->
  DISABLE_BVH_ACCELERATION cfg = false -> DISABLE_BVH_ACCELERATION cfg' = true ->
  ALLOW_HIT_MESH_BACK cfg' = ALLOW_HIT_MESH_BACK cfg ->
  scene_ok s = true -> 0 < near -> 0 < dot d d ->
  fst (hit ctx' e d near far hit_at hit_normal hit_object None pick) <= BIG ->
  fst (hit ctx e d near far hit_at hit_normal hit_object None pick) ==
  fst (hit ctx' e d near far hit_at hit_normal hit_object None pick).
Proof.
  intros Hs Hs' Hb Hb' Ha Hok Hn Hd Hbig.
  unfold choose_scene_setup, buildBVH in Hs, Hs'.
  destruct (subdivide _ _) as [bvh|] eqn:Eb in Hs; [|discriminate].
  rewrite Eb in Hs'. injection Hs as <-. injection Hs' as <-.
  pose proof (hit_scan (mkRenderContext cfg' s bvh (filter is_plane (objects s)) (background (camera s)))
    e d near far hit_at hit_normal hit_object pick Hn) as E'.
  eapply Qeq_trans; [apply hit_scan; exact Hn | symmetry; eapply Qeq_trans; [exact E'|]].
  rewrite E' in Hbig. clear E'. unfold hit_candidates in *. cbn [rc_config rc_planes rc_bvh rc_scene] in *.
  rewrite Hb, Hb' in *. symmetry.
  apply nearest_of_equiv; [exact Hn| |].
  - intros x Hx Hnx. apply in_map_iff in Hx as (o & <- & Ho).
    apply in_app_or in Ho as [Ho|Ho].
    + apply filter_In in Ho as [Ho _]. exists (dist cfg' o e d near far).
      split; [apply in_map_dist; exact Ho|]. rewrite (dist_cfg cfg cfg') by exact Ha. lra.
    + destruct (getBVHList_in_leaves bvh e d near far o Ho) as (mn & mx & Hl).
      apply (Permutation_in _ (subdivide_perm _ _ _ Eb)) in Hl.
      destruct (bvh_leaf_covered cfg e d near far _ o mn mx Hn Hl Hnx) as (o0 & Ho0 & H1).
      exists (dist cfg' o0 e d near far). split; [apply in_map_dist; exact Ho0|].
      rewrite (dist_cfg cfg cfg') by exact Ha. exact H1.
  - intros y Hy Hny.
    destruct (nearest_of_spec near Hn (map (fun o => dist cfg' o e d near far) (objects s)) (-1)
      (or_introl eq_refl)) as ([E|[Hin Hr]] & _ & B);
      destruct (B y Hy Hny) as [Hl Hle]; [rewrite E in Hl; lra|].
    apply in_map_iff in Hin as (o0 & E0 & Ho0). rewrite (dist_cfg cfg cfg') in E0 by exact Ha.
    assert (Hok0 : object_ok o0 = true) by (unfold scene_ok in Hok; rewrite forallb_forall in Hok; auto).
    destruct (scene_hit_found cfg e d near far (objects s) bvh o0 Hn Hd (subdivide_bvh_wf _ _ _ Eb)
      (subdivide_perm _ _ _ Eb) Ho0 Hok0 ltac:(rewrite E0; split; assumption)) as (o & Ho & Eo).
    exists (dist cfg o e d near far). split; [apply in_map_dist; exact Ho|].
    rewrite Eo, E0. split; assumption.
Qed.
End Acceleration.

(** ** Shadow mode

    With [opacity_sum] present, [far] is never narrowed, and every
    candidate whose distance lies in [[near, far]] is an occluder.  With
    binary shadows the first occluder ends the search with full opacity;
    with transparent shadows the opacity is the clamped running sum of the
    occluders' opacities ([occlude]), and the early exit at full opacity,
    which the source only takes when [pick] is set, does not change it
    when no material has a transmissive channel above 1. *)

Section Shadow.
Context `{L : Libm}.

(** What one candidate adds to the opacity in transparent shadow mode. *)
Definition occlude (cfg : Config) (e d : vec3) (near far : Q) (op : vec3) (o : Object) : vec3 :=
  if in_range near far (dist cfg o e d near far)
  then vclamp01 (op ⊕ (vone ⊖ transmissive (obj_material o))) else op.

Definition trans_le1 (o : Object) : Prop := forall i, vget (transmissive (obj_material o)) i <= 1.

Lemma hit_track_shadow o t st op :
  hs_opacity st = Some op -> hs_opacity (hit_track o t st) = Some op /\ hs_far (hit_track o t st) = hs_far st.
Proof. intros Hop. unfold hit_track. destruct (_ && _); cbn; rewrite ?Hop; auto. Qed.

Lemma occlude_one cfg e d near far op o : op ≃ vone -> trans_le1 o -> occlude cfg e d near far op o ≃ vone.
Proof.
  intros (A&B&C) T. unfold occlude. destruct (in_range _ _ _); [|repeat split; assumption].
  pose proof (T 0%nat) as T0. pose proof (T 1%nat) as T1. pose proof (T 2%nat) as T2. cbn [vget] in T0, T1, T2.
  vsplit; cbn [vclamp01 vadd vsub vone vx vy vz]; apply clamp01_one; cbn [vone vx vy vz] in *; lra.
Qed.

Lemma fold_occlude_one cfg e d near far cands op :
  op ≃ vone -> Forall trans_le1 cands -> fold_left (occlude cfg e d near far) cands op ≃ vone.
Proof.
  revert op. induction cands as [|o cands IH]; intros op Hop Hc; [exact Hop|].
  inversion Hc as [|? ? Ho Hcs]; subst. apply IH; [apply occlude_one|]; assumption.
Qed.

(** The loop without the early exit accumulates [occlude]. *)
Lemma shadow_loop_opacity cfg e d near far cands st op :
  DISABLE_SHADOW_TRANSPARENCY cfg = false -> hs_opacity st = Some op -> hs_far st = far ->
  hs_opacity (snd (hit_loop cfg e d near false cands st)) = Some (fold_left (occlude cfg e d near far) cands op).
Proof.
  intros Htr. revert st op. induction cands as [|o cands IH]; intros st op Hop Hfar; [exact Hop|].
  cbn [hit_loop fold_left].
  pose proof (dist_indep cfg o e d near (hs_far st) (hs_at st) (hs_normal st)) as Ht.
  destruct (intersect _ _ _ _ _ _ _ _) as [[t at_] nrm]. cbn [fst] in Ht. subst t.
  unfold shadow_step, with_out. cbn [hs_opacity hs_far]. rewrite Hop, Hfar.
  unfold occlude at 2. destruct (in_range near far (dist cfg o e d near far)); [rewrite Htr; cbn [andb]|];
    apply IH; unfold hit_track; destruct (_ && _); cbn; auto.
Qed.

(** With [pick] set, the loop stops once the opacity is full; the opacity
    is still the accumulated one, up to [Qeq]. *)
Lemma shadow_loop_opacity_pick cfg e d near far cands st op :
  DISABLE_SHADOW_TRANSPARENCY cfg = false -> Forall trans_le1 cands ->
  hs_opacity st = Some op -> hs_far st = far ->
  exists op', hs_opacity (snd (hit_loop cfg e d near true cands st)) = Some op' /\
              op' ≃ fold_left (occlude cfg e d near far) cands op.
Proof.
  intros Htr. revert st op. induction cands as [|o cands IH]; intros st op Hc Hop Hfar.
  { exists op. split; [exact Hop | reflexivity]. }
  apply Forall_cons_iff in Hc as [Ho Hcs]. cbn [hit_loop fold_left].
  pose proof (dist_indep cfg o e d near (hs_far st) (hs_at st) (hs_normal st)) as Ht.
  destruct (intersect _ _ _ _ _ _ _ _) as [[t at_] nrm]. cbn [fst] in Ht. subst t.
  unfold shadow_step, with_out. cbn [hs_opacity hs_far]. rewrite Hop, Hfar.
  unfold occlude at 2. destruct (in_range near far (dist cfg o e d near far)) eqn:Er;
    [rewrite Htr; cbn [andb]|apply IH; [exact Hcs | |]; unfold hit_track; destruct (_ && _); cbn; auto].
  set (op' := vclamp01 (op ⊕ (vone ⊖ transmissive (obj_material o)))).
  destruct (veqb op' vone) eqn:Ev.
  - exists op'. split; [reflexivity|]. cbn [snd].
    pose proof (veqb_veq _ _ Ev) as Hv.
    transitivity vone; [exact Hv | symmetry; apply fold_occlude_one; [exact Hv | exact Hcs]].
  - apply IH; [exact Hcs | |]; unfold hit_track; destruct (_ && _); cbn; auto.
Qed.
(** One occluder keeps each channel of an opacity in [[0, 1]] and does not
    lower it. *)
Lemma occlude_between cfg e d near far op o :
  (forall i, 0 <= vget op i <= 1) -> trans_le1 o ->
  forall i, vget op i <= vget (occlude cfg e d near far op o) i <= 1.
Proof.
  intros Hop T i. specialize (Hop i). specialize (T i). unfold occlude.
  destruct (in_range _ _ _); [|lra].
  rewrite vget_vclamp01, vget_add, vget_sub. split; [|apply clamp01_range].
  apply clamp01_ge; [lra|]. destruct i as [|[|]]; cbn [vget vone vx vy vz] in *; lra.
Qed.

Lemma fold_occlude_between cfg e d near far cands op :
  (forall i, 0 <= vget op i <= 1) -> Forall trans_le1 cands ->
  forall i, vget op i <= vget (fold_left (occlude cfg e d near far) cands op) i <= 1.
Proof.
  revert op. induction cands as [|o cands IH]; intros op Hop Hc i; [cbn [fold_left]; specialize (Hop i); lra|].
  apply Forall_cons_iff in Hc as [Ho Hcs]. cbn [fold_left].
  pose proof (occlude_between cfg e d near far op o Hop Ho) as H1.
  assert (H2 : forall j, 0 <= vget (occlude cfg e d near far op o) j <= 1)
    by (intros j; specialize (H1 j); specialize (Hop j); lra).
  specialize (IH _ H2 Hcs i). specialize (H1 i). lra.
Qed.

(** Binary shadows: the first occluder ends the search. *)
Lemma shadow_loop_binary cfg e d near far pick pre o post st op :
  DISABLE_SHADOW_TRANSPARENCY cfg = true -> hs_opacity st = Some op -> hs_far st = far ->
  (forall o', In o' pre -> in_range near far (dist cfg o' e d near far) = false) ->
  in_range near far (dist cfg o e d near far) = true ->
  let r := hit_loop cfg e d near pick (pre ++ o :: post) st in
  fst r = 1 /\ hs_opacity (snd r) = Some vone /\ hs_hit_object (snd r) = Some o.
Proof.
  intros Htr. revert st op. induction pre as [|o' pre IH]; intros st op Hop Hfar Hpre Hin; cbv zeta;
    cbn [app hit_loop];
    [pose proof (dist_indep cfg o e d near (hs_far st) (hs_at st) (hs_normal st)) as Ht
    |pose proof (dist_indep cfg o' e d near (hs_far st) (hs_at st) (hs_normal st)) as Ht];
    destruct (intersect _ _ _ _ _ _ _ _) as [[t at_] nrm]; cbn [fst] in Ht; subst t;
    unfold shadow_step, with_out; cbn [hs_opacity hs_far]; rewrite Hop, Hfar.
  - rewrite Hin, Htr. repeat split.
  - rewrite (Hpre o' (or_introl eq_refl)).
    apply (IH _ op); [unfold hit_track; destruct (_ && _); reflexivity
                     | unfold hit_track; destruct (_ && _); reflexivity
                     | intros; apply Hpre; right; assumption | exact Hin].
Qed.

(** No occluder: the opacity is unchanged and no distance is kept. *)
Lemma shadow_loop_clear cfg e d near far pick cands st op :
  0 < near -> hs_opacity st = Some op -> hs_far st = far ->
  (forall o, In o cands -> in_range near far (dist cfg o e d near far) = false) ->
  let r := hit_loop cfg e d near pick cands st in
  fst r = hs_nearest st /\ hs_opacity (snd r) = Some op.
Proof.
  intros Hn. revert st. induction cands as [|o cands IH]; intros st Hop Hfar Hc; cbv zeta;
    cbn [hit_loop]; [split; [reflexivity | exact Hop]|].
  pose proof (dist_indep cfg o e d near (hs_far st) (hs_at st) (hs_normal st)) as Ht.
  destruct (intersect _ _ _ _ _ _ _ _) as [[t at_] nrm]. cbn [fst] in Ht. subst t.
  unfold shadow_step, with_out. cbn [hs_opacity hs_far]. rewrite Hop, Hfar.
  pose proof (Hc o (or_introl eq_refl)) as Hout. rewrite Hout.
  assert (Em : dist cfg o e d near far = -1).
  { destruct (no_range _ _ (dist_narrow_ok cfg o e d near Hn) far) as [E|[_ E]]; [exact E|].
    rewrite Hout in E. discriminate. }
  unfold hit_track. rewrite Em. change (Qltb 0 (-1)) with false. cbn [andb].
  apply (IH (mkHitState _ _ _ _ _ _ _ _)); [reflexivity | reflexivity | intros; apply Hc; right; assumption].
Qed.
End Shadow.

(** ** The resolver's properties *)

Section ResolverLaws.
Context `{L : Libm}.

(** C4: outside shadow mode, narrowing [far] to each distance kept is
    only an optimisation: for a positive [near], [hit] returns (up to
    [Qeq]) the nearest of the candidates' distances, each computed with the
    original [far]. *)
Theorem hit_nearest_scan ctx e d near far hit_at hit_normal hit_object pick :
  0 < near ->
  fst (hit ctx e d near far hit_at hit_normal hit_object None pick) ==
  nearest_of near (map (fun o => dist (rc_config ctx) o e d near far) (hit_candidates ctx e d near far)) (-1).
Proof. exact (hit_scan ctx e d near far hit_at hit_normal hit_object pick). Qed.

(** C14: binary shadows: the first candidate whose distance lies in
    [[near, far]] ends the search; [hit] returns 1 with full opacity and
    that candidate as the occluder. *)
Theorem hit_shadow_binary ctx e d near far hit_at hit_normal hit_object op pick pre o post :
  DISABLE_SHADOW_TRANSPARENCY (rc_config ctx) = true ->
  hit_candidates ctx e d near far = pre ++ o :: post ->
  (forall o', In o' pre -> in_range near far (dist (rc_config ctx) o' e d near far) = false) ->
  in_range near far (dist (rc_config ctx) o e d near far) = true ->
  let r := hit ctx e d near far hit_at hit_normal hit_object (Some op) pick in
  fst r = 1 /\ hs_opacity (snd r) = Some vone /\ hs_hit_object (snd r) = Some o.
Proof.
  intros Htr Hc Hpre Hin. unfold hit. rewrite Hc.
  exact (shadow_loop_binary _ e d near far pick pre o post (mkHitState (-1) far vzero vzero hit_at hit_normal hit_object (Some op)) op Htr eq_refl eq_refl Hpre Hin).
Qed.

(** C15: in shadow mode, when no candidate's distance lies in
    [[near, far]], [hit] returns -1 and leaves the opacity as it was: the
    light is not blocked. *)
Theorem hit_shadow_clear ctx e d near far hit_at hit_normal hit_object op pick :
  0 < near ->
  (forall o, In o (hit_candidates ctx e d near far) -> in_range near far (dist (rc_config ctx) o e d near far) = false) ->
  let r := hit ctx e d near far hit_at hit_normal hit_object (Some op) pick in
  fst r = -1 /\ hs_opacity (snd r) = Some op.
Proof. intros Hn Hc. exact (shadow_loop_clear _ e d near far pick _ (mkHitState (-1) far vzero vzero hit_at hit_normal hit_object (Some op)) op Hn eq_refl eq_refl Hc). Qed.

(** C12: transparent shadows: the opacity [hit] returns is the clamped
    running sum, in candidate order, of [1 - transmissive] over the
    candidates whose distance lies in [[near, far]]. *)
Theorem hit_shadow_opacity ctx e d near far hit_at hit_normal hit_object op :
  DISABLE_SHADOW_TRANSPARENCY (rc_config ctx) = false ->
  hs_opacity (snd (hit ctx e d near far hit_at hit_normal hit_object (Some op) false)) =
  Some (fold_left (occlude (rc_config ctx) e d near far) (hit_candidates ctx e d near far) op).
Proof. intros Htr. exact (shadow_loop_opacity _ e d near far _ (mkHitState (-1) far vzero vzero hit_at hit_normal hit_object (Some op)) op Htr eq_refl eq_refl). Qed.

(** C13: the early exit at full opacity, taken only when [pick] is set,
    does not change the opacity when no candidate has a transmissive
    channel above 1: both runs return the same opacity up to [Qeq]. *)
Theorem hit_shadow_pick_irrelevant ctx e d near far hit_at hit_normal hit_object op :
  DISABLE_SHADOW_TRANSPARENCY (rc_config ctx) = false ->
  Forall trans_le1 (hit_candidates ctx e d near far) ->
  exists op1 op2,
    hs_opacity (snd (hit ctx e d near far hit_at hit_normal hit_object (Some op) true)) = Some op1 /\
    hs_opacity (snd (hit ctx e d near far hit_at hit_normal hit_object (Some op) false)) = Some op2 /\
    op1 ≃ op2.
Proof.
  intros Htr Hc.
  destruct (shadow_loop_opacity_pick _ e d near far _ (mkHitState (-1) far vzero vzero hit_at hit_normal hit_object (Some op)) op Htr Hc eq_refl eq_refl) as (op1 & E1 & H1).
  exists op1, (fold_left (occlude (rc_config ctx) e d near far) (hit_candidates ctx e d near far) op). split; [exact E1 | split; [exact (shadow_loop_opacity _ e d near far _ (mkHitState (-1) far vzero vzero hit_at hit_normal hit_object (Some op)) op Htr eq_refl eq_refl) | exact H1]].
Qed.
(** C21: with transparent shadows, an opacity that starts in [[0, 1]]
    per channel ends in [[0, 1]] and no lower on any channel, when no
    candidate has a transmissive channel above 1. *)
Theorem hit_shadow_monotone ctx e d near far hit_at hit_normal hit_object op :
  DISABLE_SHADOW_TRANSPARENCY (rc_config ctx) = false ->
  Forall trans_le1 (hit_candidates ctx e d near far) -> (forall i, 0 <= vget op i <= 1) ->
  exists op', hs_opacity (snd (hit ctx e d near far hit_at hit_normal hit_object (Some op) false)) = Some op' /\
              forall i, vget op i <= vget op' i <= 1.
Proof.
  intros Htr Hc Hop. eexists. split.
  - exact (shadow_loop_opacity _ e d near far _ (mkHitState (-1) far vzero vzero hit_at hit_normal hit_object (Some op)) op Htr eq_refl eq_refl).
  - exact (fold_occlude_between _ e d near far _ op Hop Hc).
Qed.
End ResolverLaws.

(** C1: the BVH is only an acceleration: for a scene whose every sphere
    radius is at least 0 and which holds no split mesh triangle
    ([scene_ok]; [json_to_scene] never makes a split triangle but accepts
    any radius), two runs that differ only in [DISABLE_BVH_ACCELERATION]
    find the same nearest distance (up to [Qeq]) for every ray, as long
    as that distance is at most [BIG], the bound the BVH boxes start from. *)
Theorem hit_bvh_exhaustive `{S : Sorter} `{L : Libm} `{!LibmLaws L}
    cfg cfg' s ctx ctx' e d near far hit_at hit_normal hit_object pick :
  choose_scene_setup cfg s = Some ctx -> choose_scene_setup cfg' s = Some ctx' ->
  DISABLE_BVH_ACCELERATION cfg = false -> DISABLE_BVH_ACCELERATION cfg' = true ->
  ALLOW_HIT_MESH_BACK cfg' = ALLOW_HIT_MESH_BACK cfg ->
  scene_ok s = true -> 0 < near -> 0 < dot d d ->
  fst (hit ctx' e d near far hit_at hit_normal hit_object None pick) <= BIG ->
  fst (hit ctx e d near far hit_at hit_normal hit_object None pick) ==
  fst (hit ctx' e d near far hit_at hit_normal hit_object None pick).
Proof. exact (hit_bvh_equiv cfg cfg' s ctx ctx' e d near far hit_at hit_normal hit_object pick). Qed.

(** [choose_scene] sets up rendering as soon as the scene has something
    to put in the BVH. *)
Lemma choose_scene_setup_some `{S : Sorter} cfg s :
  flat_map bvh_objects (objects s) <> [] ->
  exists t, choose_scene_setup cfg s =
            Some (mkRenderContext cfg s t (filter is_plane (objects s)) (background (camera s))).
Proof.
  unfold choose_scene_setup, buildBVH; intros Hne.
  destruct (subdivide_returns (length (flat_map bvh_objects (objects s))) _ Hne (le_n _)) as [t ->].
  eauto.
Qed.

(** C11: [choose_scene] fails to set up rendering exactly when the scene
    has no sphere and no mesh triangle: [buildBVH] then calls [subdivide]
    on an empty list, which never returns ([subdivide_nil]). *)
Theorem choose_scene_setup_none `{S : Sorter} cfg s :
  choose_scene_setup cfg s = None <-> flat_map bvh_objects (objects s) = [].
Proof.
  split.
  - intros H. destruct (flat_map bvh_objects (objects s)) as [|b bs] eqn:E; [reflexivity|].
    destruct (choose_scene_setup_some cfg s) as [t Ht]; [rewrite E; discriminate|].
    congruence.
  - unfold choose_scene_setup, buildBVH; intros ->. rewrite (subdivide_nil (length [])). reflexivity.
Qed.

(** ** Witnesses on the example scene of [Bvh]

    The camera ray from the origin down [-z] ([Traverse.ex_eye],
    [Traverse.ex_dir]) hits the sphere centred at [(0, 0, -5)] at
    distance 4.  [ex_cfg_exh] turns the BVH off, [ex_cfg_binary] turns
    shadow transparency off; otherwise both are [default_config]. *)

Definition ex_scene : Scene := mkScene default_camera ex_objects [].

Definition ex_cfg_exh : Config :=
  mkConfig false false false false false false false false true false true true true true.
Definition ex_cfg_binary : Config :=
  mkConfig false false false false false false false true false false true true true true.

Definition ex_ctx : RenderContext :=
  mkRenderContext default_config ex_scene ex_tree (filter is_plane ex_objects) vzero.
Definition ex_ctx_exh : RenderContext :=
  mkRenderContext ex_cfg_exh ex_scene ex_tree (filter is_plane ex_objects) vzero.
Definition ex_ctx_binary : RenderContext :=
  mkRenderContext ex_cfg_binary ex_scene ex_tree (filter is_plane ex_objects) vzero.

Lemma hit_nearest_scan_witness :
  0 < 1 /\ fst (hit ex_ctx ex_eye ex_dir 1 0 vzero vzero None None false) ==
  nearest_of 1 (map (fun o => dist default_config o ex_eye ex_dir 1 0) (hit_candidates ex_ctx ex_eye ex_dir 1 0)) (-1).
Proof.
  split; [qcompute | exact (hit_nearest_scan ex_ctx ex_eye ex_dir 1 0 vzero vzero None false ltac:(qcompute))].
Defined.

Lemma hit_bvh_exhaustive_witness :
  choose_scene_setup default_config ex_scene = Some ex_ctx /\
  choose_scene_setup ex_cfg_exh ex_scene = Some ex_ctx_exh /\
  fst (hit ex_ctx ex_eye ex_dir 1 0 vzero vzero None None false) ==
  fst (hit ex_ctx_exh ex_eye ex_dir 1 0 vzero vzero None None false).
Proof.
  assert (S1 : choose_scene_setup default_config ex_scene = Some ex_ctx) by (vm_compute; reflexivity).
  assert (S2 : choose_scene_setup ex_cfg_exh ex_scene = Some ex_ctx_exh) by (vm_compute; reflexivity).
  split; [exact S1 | split; [exact S2|]].
  exact (hit_bvh_exhaustive default_config ex_cfg_exh ex_scene ex_ctx ex_ctx_exh ex_eye ex_dir 1 0
    vzero vzero None false S1 S2 eq_refl eq_refl eq_refl ltac:(vm_compute; reflexivity)
    ltac:(qcompute) ltac:(qcompute) ltac:(qcompute)).
Defined.

Lemma hit_shadow_binary_witness :
  hit_candidates ex_ctx_binary ex_eye ex_dir 1 10 =
    [Plane ex_material (V3 0 (-1) 0) (V3 0 1 0)] ++ Sphere ex_material 1 (V3 0 0 (-5)) ::
    skipn 2 (hit_candidates ex_ctx_binary ex_eye ex_dir 1 10) /\
  let r := hit ex_ctx_binary ex_eye ex_dir 1 10 vzero vzero None (Some vzero) false in
  fst r = 1 /\ hs_opacity (snd r) = Some vone /\ hs_hit_object (snd r) = Some (Sphere ex_material 1 (V3 0 0 (-5))).
Proof.
  assert (C : hit_candidates ex_ctx_binary ex_eye ex_dir 1 10 =
    [Plane ex_material (V3 0 (-1) 0) (V3 0 1 0)] ++ Sphere ex_material 1 (V3 0 0 (-5)) ::
    skipn 2 (hit_candidates ex_ctx_binary ex_eye ex_dir 1 10)) by (vm_compute; reflexivity).
  split; [exact C|].
  apply (hit_shadow_binary ex_ctx_binary ex_eye ex_dir 1 10 vzero vzero None vzero false _ _ _ eq_refl C).
  - intros o [<-|[]]. vm_compute. reflexivity.
  - vm_compute. reflexivity.
Defined.

Lemma hit_shadow_clear_witness :
  0 < 1 /\ let r := hit ex_ctx (V3 0 0 0) (V3 0 0 1) 1 10 vzero vzero None (Some vzero) true in
  fst r = -1 /\ hs_opacity (snd r) = Some vzero.
Proof.
  split; [qcompute|].
  apply (hit_shadow_clear ex_ctx (V3 0 0 0) (V3 0 0 1) 1 10 vzero vzero None vzero true ltac:(qcompute)).
  intros o Ho. vm_compute in Ho. destruct Ho as [<-|[]]. vm_compute. reflexivity.
Defined.

Lemma hit_shadow_opacity_witness :
  hs_opacity (snd (hit ex_ctx ex_eye ex_dir 1 10 vzero vzero None (Some vzero) false)) =
  Some (fold_left (occlude default_config ex_eye ex_dir 1 10) (hit_candidates ex_ctx ex_eye ex_dir 1 10) vzero).
Proof. exact (hit_shadow_opacity ex_ctx ex_eye ex_dir 1 10 vzero vzero None vzero eq_refl). Defined.

Lemma hit_shadow_pick_irrelevant_witness :
  Forall trans_le1 (hit_candidates ex_ctx ex_eye ex_dir 1 10) /\
  exists op1 op2,
    hs_opacity (snd (hit ex_ctx ex_eye ex_dir 1 10 vzero vzero None (Some vzero) true)) = Some op1 /\
    hs_opacity (snd (hit ex_ctx ex_eye ex_dir 1 10 vzero vzero None (Some vzero) false)) = Some op2 /\
    op1 ≃ op2.
Proof.
  assert (T : Forall trans_le1 (hit_candidates ex_ctx ex_eye ex_dir 1 10)).
  { vm_compute hit_candidates. repeat constructor; intros [|[|[|i]]]; qcompute. }
  split; [exact T | exact (hit_shadow_pick_irrelevant ex_ctx ex_eye ex_dir 1 10 vzero vzero None vzero eq_refl T)].
Defined.

Lemma choose_scene_setup_none_witness :
  choose_scene_setup default_config (mkScene default_camera [Plane ex_material vzero (V3 0 1 0)] []) = None /\
  flat_map bvh_objects [Plane ex_material vzero (V3 0 1 0)] = [].
Proof.
  split; [|reflexivity].
  apply (proj2 (choose_scene_setup_none default_config (mkScene default_camera [Plane ex_material vzero (V3 0 1 0)] []))).
  reflexivity.
Defined.

Lemma hit_shadow_monotone_witness :
  Forall trans_le1 (hit_candidates ex_ctx ex_eye ex_dir 1 10) /\
  exists op', hs_opacity (snd (hit ex_ctx ex_eye ex_dir 1 10 vzero vzero None (Some vzero) false)) = Some op' /\
              forall i, vget vzero i <= vget op' i <= 1.
Proof.
  assert (T : Forall trans_le1 (hit_candidates ex_ctx ex_eye ex_dir 1 10)).
  { vm_compute hit_candidates. repeat constructor; intros [|[|[|i]]]; qcompute. }
  split; [exact T|].
  apply (hit_shadow_monotone ex_ctx ex_eye ex_dir 1 10 vzero vzero None vzero eq_refl T).
  intros [|[|i]]; cbn; split; qcompute.
Defined.
