(* ===== verification/Shade.v ===== *)
(** * Shade: the recursive shading engine of src/src/raytracer.cpp

    [light] (lines 452-575) sums the contribution of every light of the
    scene at a hit point, casting a shadow ray through [hit] for each
    light that may reach it, and recurses through [reflect] (lines
    337-360) and [transmit] (lines 420-450) while [r_depth < MAX_R_DEPTH].
    [transmit] bends its ray with [refract] (lines 362-391) or, by
    default, with [schlickRefract] (lines 393-418), which draws from the C
    library's [rand()] through [randomFloat] (lines 54-57).

    The [rand()] state is threaded through the shading by a small state
    monad [M], which can also fail: [light] is a [Fixpoint] on fuel, and a
    run that dereferences a missing hit object fails too (the source would
    dereference [NULL]).  [rand()] itself is the interface [RandSource]
    with the C standard's sample generator as its executable instance.
    [reflect] and [transmit] take the recursive call to [light] as their
    argument, so each source function is one definition. *)

From Stdlib Require Import QArith Qminmax Lqa Psatz ZArith Lia List.
From S2P Require Import Prelude Schema Bvh Traverse Intersect Hit.
Import ListNotations.
Open Scope Q_scope.

(** ** The C library's [rand()] *)

Class RandSource := {
  rand_state : Type;
  rand : rand_state -> Z * rand_state;
  RAND_MAX : Z
}.

(** [rand()] returns a value in [[0, RAND_MAX]]. *)
Class RandLaws (R : RandSource) := {
  RAND_MAX_nonneg : (0 <= RAND_MAX)%Z;
  rand_range : forall s, (0 <= fst (rand s) <= RAND_MAX)%Z
}.

(** The sample implementation of the C standard (7.22.2.2). *)
#[export] Instance ansi_rand : RandSource := {|
  rand_state := Z;
  rand := fun s => let s' := ((s * 1103515245 + 12345) mod 4294967296)%Z in
                   (((s' / 65536) mod 32768)%Z, s');
  RAND_MAX := 32767
|}.

#[export] Instance ansi_rand_laws : RandLaws ansi_rand.
Proof.
  split; cbn; [lia|]. intros s.
  match goal with |- (0 <= ?x mod 32768 <= _)%Z => pose proof (Z.mod_pos_bound x 32768 ltac:(lia)) end. lia.
Qed.

(** ** A state and failure monad over the [rand()] state *)

Section Monad.
Context `{R : RandSource}.

Definition M (A : Type) : Type := rand_state -> option (A * rand_state).

Definition ret {A} (a : A) : M A := fun s => Some (a, s).
Definition bind {A B} (m : M A) (k : A -> M B) : M B :=
  fun s => match m s with Some (a, s') => k a s' | None => None end.
Definition fail {A} : M A := fun _ => None.

(** [randomFloat]: [rand() / (RAND_MAX + 1.0f)]. *)
Definition randomFloat : M Q :=
  fun s => let (r, s') := rand s in Some (inject_Z r / (inject_Z RAND_MAX + 1), s').
End Monad.

Declare Scope shade_scope.
Notation "x <- m ;; k" := (bind m (fun x => k)) (at level 61, m at next level, right associativity) : shade_scope.
Open Scope shade_scope.

(** ** Refraction *)

Section Refraction.
Context `{L : Libm} `{R : RandSource}.

(** [refract]: the bent direction, or the reflected one on total internal
    reflection ([false]).  The out-parameter [refracted] is always
    written, so it is the second component of the result. *)
Definition refract (r snorm : vec3) (index_of_refraction : Q) : bool * vec3 :=
  let vi := normalize r in
  let vi_dot_n := dot vi snorm in
  let '(eta_i, eta_r, n, vi_dot_n) :=
    if Qltb vi_dot_n 0 then (1, index_of_refraction, snorm, vi_dot_n)
    else (index_of_refraction, 1, vneg snorm, - vi_dot_n) in
  let radicand := 1 - (eta_i * eta_i) * (1 - vi_dot_n * vi_dot_n) / (eta_r * eta_r) in
  if Qleb 0 radicand then
    (true, vdivs (eta_i ⊛ (vi ⊖ vi_dot_n ⊛ n)) eta_r ⊖ sqrt radicand ⊛ n)
  else
    let vi := vneg vi in
    (false, (2 * dot n vi) ⊛ n ⊖ vi).

(** [schlickRefract]: [randomFloat] is only drawn when the ray can
    refract (the [||] short-circuits); [refracted] is written only when
    the ray refracts. *)
Definition schlickRefract (obj : Object) (r snorm : vec3) (index_of_refraction : Q) (refracted : vec3)
    : M (bool * vec3) :=
  let refractionRatio := 1 / index_of_refraction in
  let unitDirection := vneg r in
  let cosTheta := fmin (dot (vneg unitDirection) snorm) 1 in
  let sinTheta := sqrt (1 - cosTheta * cosTheta) in
  let cannotRefract := Qltb 1 (refractionRatio * sinTheta) in
  let r0 := (1 - refractionRatio) / (1 + refractionRatio) in
  let r0 := r0 * r0 in
  let reflectance := r0 + (1 - r0) * pow (1 - cosTheta) 5 in
  if cannotRefract then ret (false, refracted)
  else
    x <- randomFloat ;;
    if Qltb x reflectance then ret (false, refracted)
    else ret (true, snd (refract r snorm refractionRatio)).
End Refraction.

(** ** Direct lighting *)

Section Shading.
Context `{L : Libm} `{R : RandSource}.
Variable ctx : RenderContext.
Variable pick : bool.

Definition PI : Q := inject_Z 31415926535897932384626433832795 / inject_Z (10 ^ 31).

(** [obj->type == "mesh" || obj->type == "mTriangle"] *)
Definition is_mesh_like (o : Object) : bool :=
  match o with Mesh _ _ | MTriangle _ _ _ => true | _ => false end.

(** Lines 477-508: whether the light may reach [at], the distance to it
    ([tfar], 0 for a directional light) and the unit vector towards it. *)
Definition light_dir (at_ : vec3) (lt : Light) : bool * Q * vec3 :=
  match lt with
  | AmbientLight _ => (false, 0, vzero)
  | DirectionalLight _ direction => (true, 0, vneg (normalize direction))
  | PointLight _ position => let l := position ⊖ at_ in (true, vlength l, normalize l)
  | SpotLight _ position direction cutoff =>
      let l_orig := position ⊖ at_ in
      let l := normalize l_orig in
      let dir := vneg (normalize direction) in
      (Qleb (acos (dot l dir)) (PI * cutoff / 180), vlength l_orig, l)
  end.

(** The opacity [hit] hands back through [&shadow_opacity]. *)
Definition opacity_of (st : HitState) : vec3 :=
  match hs_opacity st with Some op => op | None => vzero end.

(** Lines 542-556: the diffuse and specular terms for the normal [n] and
    the cosine [dt] after the two-sided flip, attenuated by the shadow
    opacity and added to the direct colour. *)
Definition light_terms (obj : Object) (e at_ : vec3) (direct : vec3) (lt : Light) (l shadow_opacity : vec3)
    (n : vec3) (dt : Q) : vec3 :=
  let cfg := rc_config ctx in
  let mat := obj_material obj in
  let c := light_color lt in
  let v := normalize (e ⊖ at_) in
  if Qltb 0 dt then
    let this := vzero in
    let this := if DISABLE_DIFFUSE cfg then this else this ⊕ vclamp01 (dt ⊛ (c ⊗ diffuse mat)) in
    let r := (2 * dt) ⊛ n ⊖ l in
    let rdotv := dot r v in
    let this := if Qltb 0 rdotv && negb (DISABLE_SPECULAR cfg)
                then this ⊕ vclamp01 (pow rdotv (shininess mat) ⊛ (c ⊗ specular mat)) else this in
    let this := if DISABLE_SHADOW_TRANSPARENCY cfg then this else this ⊗ (vone ⊖ shadow_opacity) in
    vclamp01 (direct ⊕ this)
  else direct.

(** Lines 510-541: the shadow ray, then the two-sided normal flip. *)
Definition lit_step (obj : Object) (e at_ snorm : vec3) (direct : vec3) (lt : Light) (tfar : Q) (l : vec3) : vec3 :=
  let cfg := rc_config ctx in
  let '(t, shadow_opacity) :=
    if DISABLE_SHADOW cfg then (-1, vzero)
    else let '(t, st) := hit ctx at_ l SELF_HIT tfar vzero vzero None (Some vzero) pick in (t, opacity_of st) in
  if Qltb SELF_HIT t && DISABLE_SHADOW_TRANSPARENCY cfg then direct
  else
    let d0 := dot snorm l in
    let '(n, dt) :=
      if Qltb d0 0 && ALLOW_HIT_MESH_BACK cfg && is_mesh_like obj then (vneg snorm, - d0) else (snorm, d0) in
    light_terms obj e at_ direct lt l shadow_opacity n dt.

(** One iteration of the loop over [scene.lights] (lines 466-557). *)
Definition direct_step (obj : Object) (e at_ snorm : vec3) (direct : vec3) (lt : Light) : vec3 :=
  match lt with
  | AmbientLight c =>
      if DISABLE_AMBIENT (rc_config ctx) then direct else direct ⊕ c ⊗ ambient (obj_material obj)
  | _ =>
      let '(maybe_lit, tfar, l) := light_dir at_ lt in
      if maybe_lit then lit_step obj e at_ snorm direct lt tfar l else direct
  end.

(** Lines 562-570: reflection and transmission are mixed in only when
    their colour is not black; the result is clamped. *)
Definition composite (mat : Material) (direct reflect_colour transmit_colour : vec3) : vec3 :=
  let colour := direct in
  let colour := if veqb reflect_colour vzero then colour else colour ⊕ reflect_colour ⊗ reflective mat in
  let colour := if veqb transmit_colour vzero then colour
                else colour ⊗ (vone ⊖ transmissive mat) ⊕ transmit_colour ⊗ transmissive mat in
  vclamp01 colour.
End Shading.

(** ** The recursion through reflection and transmission *)

Section Recursion.
Context `{L : Libm} `{R : RandSource}.
Variable ctx : RenderContext.
Variable pick : bool.

(** The signature of [light]; [reflect] and [transmit] call it for the
    point they hit, one level deeper. *)
Definition LightFn : Type := Object -> vec3 -> vec3 -> vec3 -> nat -> M vec3.

(** The common tail of [reflect] and [transmit]: shade what the ray hits,
    or return the background colour. *)
Definition follow (lightf : LightFn) (at_ r : vec3) (r_depth : nat) : M vec3 :=
  let '(t, st) := hit ctx at_ r SELF_HIT 0 vzero vzero None None pick in
  if Qleb SELF_HIT t then
    match hs_hit_object st with
    | Some o => lightf o at_ (hs_hit_at st) (hs_hit_normal st) (S r_depth)
    | None => fail
    end
  else ret (rc_background ctx).

(** Lines 337-360. *)
Definition reflect (lightf : LightFn) (obj : Object) (e at_ snorm : vec3) (r_depth : nat) : M vec3 :=
  let v := normalize (e ⊖ at_) in
  let r := normalize ((2 * dot snorm v) ⊛ snorm ⊖ v) in
  follow lightf at_ r r_depth.

(** Lines 420-450. *)
Definition transmit (lightf : LightFn) (obj : Object) (e at_ snorm : vec3) (r_depth : nat) : M vec3 :=
  let mat := obj_material obj in
  let vi := normalize (at_ ⊖ e) in
  vr <- (if Qltb 0 (refraction mat) && negb (DISABLE_REFRACTION (rc_config ctx)) then
           if negb (DISABLE_SCHLICKREFRACTION (rc_config ctx)) then
             res <- schlickRefract obj vi snorm (refraction mat) vi ;; ret (snd res)
           else ret (snd (refract vi snorm (refraction mat)))
         else ret vi) ;;
  follow lightf at_ vr r_depth.

(** Lines 452-575.  [fuel] bounds the recursion; [r_depth] is the
    source's depth counter. *)
Fixpoint light (fuel : nat) (obj : Object) (e at_ snorm : vec3) (r_depth : nat) : M vec3 :=
  match fuel with
  | O => fail
  | S fuel' =>
      let cfg := rc_config ctx in
      let mat := obj_material obj in
      reflect_colour <-
        (if Qltb 0 (vlength (reflective mat)) && Nat.ltb r_depth MAX_R_DEPTH && negb (DISABLE_REFLECTION cfg)
         then reflect (light fuel') obj e at_ snorm r_depth else ret vzero) ;;
      transmit_colour <-
        (if Qltb 0 (vlength (transmissive mat)) && Nat.ltb r_depth MAX_R_DEPTH && negb (DISABLE_TRANSMISSION cfg)
         then transmit (light fuel') obj e at_ snorm r_depth else ret vzero) ;;
      let direct_colour := fold_left (direct_step ctx pick obj e at_ snorm) (lights (rc_scene ctx)) vzero in
      ret (composite mat direct_colour reflect_colour transmit_colour)
  end.

(** The fuel [light] needs from depth [r_depth]: one level per bounce
    left before [MAX_R_DEPTH], and the level that stops. *)
Definition light_fuel (r_depth : nat) : nat := S (MAX_R_DEPTH - r_depth).

(** Lines 633-650: a camera ray with [near = 1] and [far = 0]
    (unbounded); the colour is written only on a hit. *)
Definition trace (e s : vec3) (colour : vec3) : M (bool * vec3) :=
  let d := normalize (s ⊖ e) in
  let '(t, st) := hit ctx e d 1 0 vzero vzero None None pick in
  if Qleb 1 t then
    match hs_hit_object st with
    | Some o => c <- light (light_fuel 0) o e (hs_hit_at st) (hs_hit_normal st) 0 ;; ret (true, c)
    | None => fail
    end
  else ret (false, colour).
End Recursion.

(** ** The monad's laws the proofs use *)

Section MonadLaws.
Context `{R : RandSource}.

(** A computation that returns from every state. *)
Definition returns {A} (m : M A) : Prop := forall s, exists a s', m s = Some (a, s').

Lemma ret_returns {A} (a : A) : returns (ret a).
Proof. intros s. eexists _, _. reflexivity. Qed.

Lemma bind_returns {A B} (m : M A) (k : A -> M B) :
  returns m -> (forall a, returns (k a)) -> returns (bind m k).
Proof.
  intros Hm Hk s. destruct (Hm s) as (a & s' & E). unfold bind. rewrite E. apply Hk.
Qed.

Lemma randomFloat_returns : returns randomFloat.
Proof. intros s. unfold randomFloat. destruct (rand s). eexists _, _. reflexivity. Qed.

(** Two computations that agree on every state. *)
Definition meq {A} (m1 m2 : M A) : Prop := forall s, m1 s = m2 s.

Lemma bind_meq {A B} (m1 m2 : M A) (k1 k2 : A -> M B) :
  meq m1 m2 -> (forall a, meq (k1 a) (k2 a)) -> meq (bind m1 k1) (bind m2 k2).
Proof. intros Hm Hk s. unfold bind. rewrite Hm. destruct (m2 s) as [[a s']|]; [apply Hk | reflexivity]. Qed.

Lemma bind_assoc {A B C} (m : M A) (k1 : A -> M B) (k2 : B -> M C) :
  meq (bind (bind m k1) k2) (bind m (fun a => bind (k1 a) k2)).
Proof. intros s. unfold bind. destruct (m s) as [[a s']|]; reflexivity. Qed.

Lemma bind_ret_l {A B} (a : A) (k : A -> M B) : meq (bind (ret a) k) (k a).
Proof. intros s. reflexivity. Qed.

Lemma meq_trans {A} (m1 m2 m3 : M A) : meq m1 m2 -> meq m2 m3 -> meq m1 m3.
Proof. intros H1 H2 s. rewrite H1. apply H2. Qed.

Lemma meq_sym {A} (m1 m2 : M A) : meq m1 m2 -> meq m2 m1.
Proof. intros H s. symmetry. apply H. Qed.
End MonadLaws.

#[export] Hint Resolve ret_returns bind_returns randomFloat_returns : rt.

(** ** Termination and the depth bound *)

Section DepthBound.
Context `{L : Libm} `{R : RandSource}.
Variable ctx : RenderContext.
Variable pick : bool.

Lemma schlickRefract_returns obj r snorm index refracted : returns (schlickRefract obj r snorm index refracted).
Proof.
  unfold schlickRefract. destruct (Qltb _ _); [apply ret_returns|].
  apply bind_returns; [apply randomFloat_returns | intros x; destruct (Qltb _ _); apply ret_returns].
Qed.

Lemma follow_returns lightf at_ r r_depth :
  (forall o p n, returns (lightf o at_ p n (S r_depth))) -> returns (follow ctx pick lightf at_ r r_depth).
Proof.
  intros Hl s. unfold follow.
  pose proof (hit_object_some ctx at_ r SELF_HIT 0 vzero vzero pick) as Ho.
  destruct (hit ctx at_ r SELF_HIT 0 vzero vzero None None pick) as [t st]. cbn [fst snd] in Ho.
  destruct (Qleb_spec SELF_HIT t) as [Ht|Ht]; [|apply ret_returns].
  destruct Ho as [o ->]; [unfold SELF_HIT in Ht; lra | apply Hl].
Qed.

Lemma reflect_returns lightf obj e at_ snorm r_depth :
  (forall o p n, returns (lightf o at_ p n (S r_depth))) -> returns (reflect ctx pick lightf obj e at_ snorm r_depth).
Proof. intros Hl. apply follow_returns, Hl. Qed.

Lemma transmit_returns lightf obj e at_ snorm r_depth :
  (forall o p n, returns (lightf o at_ p n (S r_depth))) -> returns (transmit ctx pick lightf obj e at_ snorm r_depth).
Proof.
  intros Hl. unfold transmit. apply bind_returns; [|intros; apply follow_returns, Hl].
  destruct (_ && _); [destruct (negb _)|]; auto using schlickRefract_returns with rt.
Qed.

(** [light] returns whenever it has [light_fuel r_depth] fuel. *)
Lemma light_returns fuel obj e at_ snorm r_depth :
  (light_fuel r_depth <= fuel)%nat -> returns (light ctx pick fuel obj e at_ snorm r_depth).
Proof.
  revert obj e at_ snorm r_depth. induction fuel as [|f IH]; intros obj e at_ snorm r_depth Hf;
    [unfold light_fuel in Hf; lia|].
  cbn [light]. apply bind_returns; [|intros; apply bind_returns; [|intros; apply ret_returns]].
  all: destruct (Nat.ltb_spec r_depth MAX_R_DEPTH) as [Hd|Hd]; rewrite ?andb_false_r, ?andb_false_l;
    try (destruct (_ && _)); try apply ret_returns.
  all: first [apply reflect_returns | apply transmit_returns]; intros; apply IH;
    unfold light_fuel in *; lia.
Qed.
Lemma follow_meq lf1 lf2 at_ r r_depth :
  (forall o p n, meq (lf1 o at_ p n (S r_depth)) (lf2 o at_ p n (S r_depth))) ->
  meq (follow ctx pick lf1 at_ r r_depth) (follow ctx pick lf2 at_ r r_depth).
Proof.
  intros H s. unfold follow. destruct (hit _ _ _ _ _ _ _ _ _ _) as [t st].
  destruct (Qleb _ _); [destruct (hs_hit_object st); [apply H | reflexivity] | reflexivity].
Qed.

Lemma transmit_meq lf1 lf2 obj e at_ snorm r_depth :
  (forall o p n, meq (lf1 o at_ p n (S r_depth)) (lf2 o at_ p n (S r_depth))) ->
  meq (transmit ctx pick lf1 obj e at_ snorm r_depth) (transmit ctx pick lf2 obj e at_ snorm r_depth).
Proof.
  intros H. unfold transmit. apply bind_meq; [intros s; reflexivity | intros; apply follow_meq, H].
Qed.

(** The depth guard, not the fuel, stops the recursion: any two fuels of
    at least [light_fuel r_depth] give [light] the same result, colour
    and [rand()] state, from every state; the choice of fuel in [trace]
    is immaterial. *)
Lemma light_fuel_enough f1 f2 obj e at_ snorm r_depth :
  (light_fuel r_depth <= f1)%nat -> (light_fuel r_depth <= f2)%nat ->
  meq (light ctx pick f1 obj e at_ snorm r_depth) (light ctx pick f2 obj e at_ snorm r_depth).
Proof.
  revert f2 obj e at_ snorm r_depth. induction f1 as [|f1 IH]; intros f2 obj e at_ snorm r_depth H1 H2;
    [unfold light_fuel in H1; lia|].
  destruct f2 as [|f2]; [unfold light_fuel in H2; lia|].
  cbn [light]. apply bind_meq; [|intros; apply bind_meq; [|intros; intros s; reflexivity]].
  all: destruct (Nat.ltb_spec r_depth MAX_R_DEPTH) as [Hd|Hd]; rewrite ?andb_false_r, ?andb_false_l;
    try (destruct (_ && _)); try (intros s; reflexivity).
  all: first [apply follow_meq | apply transmit_meq]; intros; apply IH; unfold light_fuel in *; lia.
Qed.
End DepthBound.

(** ** [randomFloat] and Schlick refraction *)

Section Schlick.
Context `{L : Libm} `{!LibmLaws L} `{R : RandSource} `{!RandLaws R}.

(** [randomFloat] returns a value in [[0, 1)]. *)
Lemma randomFloat_in_unit s x s' : randomFloat s = Some (x, s') -> 0 <= x < 1.
Proof.
  unfold randomFloat. pose proof (rand_range s) as Hr. pose proof RAND_MAX_nonneg as Hm.
  destruct (rand s) as [r s0]. cbn [fst] in Hr. intros E. injection E as <- _.
  assert (H0 : 0 <= inject_Z r) by (change 0 with (inject_Z 0); rewrite <- Zle_Qle; lia).
  assert (H1 : inject_Z r <= inject_Z RAND_MAX) by (rewrite <- Zle_Qle; lia).
  assert (H2 : 0 <= inject_Z RAND_MAX) by (change 0 with (inject_Z 0); rewrite <- Zle_Qle; lia).
  split; [apply Qle_shift_div_l | apply Qlt_shift_div_r]; lra.
Qed.

(** The reflectance at normal incidence is below 1 for a positive ratio. *)
Lemma r0_lt_one p : 0 < p -> 0 <= ((1 - p) / (1 + p)) * ((1 - p) / (1 + p)) < 1.
Proof.
  intros Hp. set (a := (1 - p) / (1 + p)).
  assert (Ha : a * (1 + p) == 1 - p) by (unfold a; field; lra).
  assert (-1 < a < 1) by (split; nra). split; nra.
Qed.

(** The reflectance of [schlickRefract] is at least 1 for a ray against
    the normal. *)
Lemma schlick_reflectance_ge_one index r snorm :
  0 < index -> dot r snorm < 0 ->
  let ratio := 1 / index in
  let cosTheta := fmin (dot (vneg (vneg r)) snorm) 1 in
  let r0 := ((1 - ratio) / (1 + ratio)) * ((1 - ratio) / (1 + ratio)) in
  1 <= r0 + (1 - r0) * pow (1 - cosTheta) 5.
Proof.
  intros Hi Hd ratio cosTheta r0.
  assert (Hc : cosTheta <= dot r snorm).
  { unfold cosTheta. eapply Qle_trans; [apply fmin_le_l|]. unfold dot, vneg. cbn. lra. }
  assert (Hp : 1 <= pow (1 - cosTheta) 5) by (apply pow_ge_one; lra).
  assert (Hr : 0 < ratio) by (unfold ratio; apply Qlt_shift_div_l; lra).
  destruct (r0_lt_one ratio Hr) as [R0 R1]. fold r0 in R0, R1. nra.
Qed.
End Schlick.

Section SchlickClaims.
Context `{L : Libm} `{!LibmLaws L} `{R : RandSource} `{!RandLaws R}.

(** An entering ray is never refracted by [schlickRefract]. *)
Lemma schlick_entering s obj r snorm index refracted :
  0 < index -> dot r snorm < 0 ->
  exists s', schlickRefract obj r snorm index refracted s = Some ((false, refracted), s').
Proof.
  intros Hi Hd. pose proof (schlick_reflectance_ge_one index r snorm Hi Hd) as Hge. cbv zeta in Hge.
  unfold schlickRefract. cbv zeta.
  destruct (Qltb _ _); [eexists; reflexivity|].
  unfold bind. destruct (randomFloat s) as [[x s']|] eqn:E.
  - apply randomFloat_in_unit in E as [_ Hx].
    match goal with |- context [Qltb x ?rf] => destruct (Qltb_spec x rf) end; [eexists; reflexivity | lra].
  - exfalso. unfold randomFloat in E. destruct (rand s). discriminate.
Qed.
End SchlickClaims.

(** ** What [light] returns *)

Lemma bind_some `{R : RandSource} {A B} (m : M A) (k : A -> M B) s b s' :
  bind m k s = Some (b, s') -> exists a s1, m s = Some (a, s1) /\ k a s1 = Some (b, s').
Proof. unfold bind. destruct (m s) as [[a s1]|]; [eauto | discriminate]. Qed.

Section LightFacts.
Context `{L : Libm} `{R : RandSource}.
Variable ctx : RenderContext.
Variable pick : bool.

(** C27: every colour [light] returns is clamped to [[0, 1]] on each
    channel. *)
Lemma light_in_unit fuel obj e at_ snorm r_depth s c s' :
  light ctx pick fuel obj e at_ snorm r_depth s = Some (c, s') -> forall i, 0 <= vget c i <= 1.
Proof.
  destruct fuel as [|f]; [discriminate|]. cbn [light].
  intros E. apply bind_some in E as (a & s1 & _ & E). apply bind_some in E as (b & s2 & _ & E).
  injection E as <- _. intros i. unfold composite. rewrite vget_vclamp01. apply clamp01_range.
Qed.

(** [trace] always returns: the fuel it gives [light] is enough, and a
    hit always comes with its object. *)
Lemma trace_returns_lemma e sp colour : returns (trace ctx pick e sp colour).
Proof.
  intros s. unfold trace.
  pose proof (hit_object_some ctx e (normalize (sp ⊖ e)) 1 0 vzero vzero pick) as Ho.
  destruct (hit ctx e (normalize (sp ⊖ e)) 1 0 vzero vzero None None pick) as [t st]. cbn [fst snd] in Ho.
  destruct (Qleb_spec 1 t) as [Ht|Ht]; [|eexists _, _; reflexivity].
  destruct Ho as [o ->]; [lra|].
  apply bind_returns; [apply light_returns; constructor | intros; apply ret_returns].
Qed.
End LightFacts.

Section Opaque.
Context `{L : Libm} `{!LibmLaws L} `{R : RandSource}.
Variable ctx : RenderContext.
Variable pick : bool.

Lemma sqrt_zero x : x == 0 -> sqrt x == 0.
Proof.
  intros E. rewrite E. pose proof (sqrt_nonneg 0). pose proof (sqrt_sq_le 0 (Qle_refl 0)). nra.
Qed.

Lemma vlength_zero u : u ≃ vzero -> Qltb 0 (vlength u) = false.
Proof.
  intros (A & B & C). unfold vlength.
  assert (E : dot u u == 0) by (unfold dot; rewrite A, B, C; reflexivity).
  pose proof (sqrt_zero _ E). destruct (Qltb_spec 0 (sqrt (dot u u))); [lra | reflexivity].
Qed.

(** C28: for a material with no reflective and no transmissive colour,
    [light] makes no recursive call, draws nothing from [rand()], and
    returns the clamped sum of the direct lighting. *)
Lemma light_opaque fuel obj e at_ snorm r_depth s :
  reflective (obj_material obj) ≃ vzero -> transmissive (obj_material obj) ≃ vzero ->
  light ctx pick (S fuel) obj e at_ snorm r_depth s =
  Some (vclamp01 (fold_left (direct_step ctx pick obj e at_ snorm) (lights (rc_scene ctx)) vzero), s).
Proof.
  intros Hr Ht. cbn [light]. rewrite (vlength_zero _ Hr), (vlength_zero _ Ht). reflexivity.
Qed.
End Opaque.

(** ** Two-sided meshes *)

Lemma fold_left_veq {A} (f g : vec3 -> A -> vec3) (ls : list A) d1 d2 :
  (forall x y a, x ≃ y -> f x a ≃ g y a) -> d1 ≃ d2 -> fold_left f ls d1 ≃ fold_left g ls d2.
Proof.
  revert d1 d2. induction ls as [|a ls IH]; intros d1 d2 H E; [exact E|]. cbn. apply IH; auto.
Qed.

Section TwoSided.
Context `{L : Libm} `{!LibmLaws L}.
Variable ctx : RenderContext.
Variable pick : bool.

Lemma light_terms_proper obj e at_ lt l so d1 d2 n n' dt dt' :
  d1 ≃ d2 -> n ≃ n' -> dt == dt' ->
  light_terms ctx obj e at_ d1 lt l so n dt ≃ light_terms ctx obj e at_ d2 lt l so n' dt'.
Proof.
  intros Ed En Edt. unfold light_terms. cbv zeta.
  destruct (Qltb_spec 0 dt), (Qltb_spec 0 dt'); try (exfalso; lra); [|exact Ed].
  assert (Erd : dot ((2 * dt) ⊛ n ⊖ l) (normalize (e ⊖ at_)) == dot ((2 * dt') ⊛ n' ⊖ l) (normalize (e ⊖ at_)))
    by (rewrite En, Edt; reflexivity).
  rewrite <- (Qltb_proper 0 0 (Qeq_refl 0) _ _ Erd).
  destruct (DISABLE_DIFFUSE _), (Qltb 0 _ && _), (DISABLE_SHADOW_TRANSPARENCY _);
    rewrite ?Ed, ?En, ?Edt, ?Erd; reflexivity.
Qed.

Lemma lit_step_direct_proper obj e at_ snorm d1 d2 lt tfar l :
  d1 ≃ d2 -> lit_step ctx pick obj e at_ snorm d1 lt tfar l ≃ lit_step ctx pick obj e at_ snorm d2 lt tfar l.
Proof.
  intros Ed. unfold lit_step.
  match goal with |- context [match ?E with pair _ _ => _ end] => destruct E as [t so] end.
  destruct (_ && _); [exact Ed|].
  match goal with |- context [match ?E with pair _ _ => _ end] => destruct E as [n dt] end.
  apply light_terms_proper; [exact Ed | reflexivity | reflexivity].
Qed.

Lemma direct_step_direct_proper obj e at_ snorm d1 d2 lt :
  d1 ≃ d2 -> direct_step ctx pick obj e at_ snorm d1 lt ≃ direct_step ctx pick obj e at_ snorm d2 lt.
Proof.
  intros Ed. unfold direct_step.
  destruct lt; [destruct (DISABLE_AMBIENT _); [exact Ed | now rewrite Ed]|..];
    cbv zeta; match goal with |- context [match ?E with pair _ _ => _ end] => destruct E as [[b tf] l] end;
    (destruct b; [apply lit_step_direct_proper, Ed | exact Ed]).
Qed.

(** Flipping the stored normal of a mesh triangle does not change a
    light's contribution when [ALLOW_HIT_MESH_BACK] is set. *)
Lemma lit_step_two_sided obj e at_ snorm direct lt tfar l :
  is_mesh_like obj = true -> ALLOW_HIT_MESH_BACK (rc_config ctx) = true ->
  lit_step ctx pick obj e at_ snorm direct lt tfar l ≃ lit_step ctx pick obj e at_ (vneg snorm) direct lt tfar l.
Proof.
  intros Hm Ha. unfold lit_step.
  match goal with |- context [match ?E with pair _ _ => _ end] => destruct E as [t so] end.
  destruct (_ && _); [reflexivity|]. rewrite Hm, Ha.
  pose proof (dot_neg_l snorm l) as E0.
  destruct (Qltb_spec (dot snorm l) 0), (Qltb_spec (dot (vneg snorm) l) 0); cbn [andb]; try (exfalso; lra).
  - apply light_terms_proper; [reflexivity | reflexivity | lra].
  - apply light_terms_proper; [reflexivity | vsplit; cbn; ring | lra].
  - unfold light_terms. cbv zeta. destruct (Qltb_spec 0 (dot snorm l)), (Qltb_spec 0 (dot (vneg snorm) l));
      try (exfalso; lra); reflexivity.
Qed.
(** C29: with [ALLOW_HIT_MESH_BACK], the direct lighting of a mesh
    triangle is the same (up to [Qeq]) for both orientations of its
    stored normal: a light behind the surface is lit through the flipped
    normal instead of being discarded. *)
Lemma direct_two_sided obj e at_ snorm lts :
  is_mesh_like obj = true -> ALLOW_HIT_MESH_BACK (rc_config ctx) = true ->
  fold_left (direct_step ctx pick obj e at_ snorm) lts vzero ≃
  fold_left (direct_step ctx pick obj e at_ (vneg snorm)) lts vzero.
Proof.
  intros Hm Ha. apply fold_left_veq; [|reflexivity]. intros x y lt Exy.
  transitivity (direct_step ctx pick obj e at_ snorm y lt); [apply direct_step_direct_proper, Exy|].
  unfold direct_step. destruct lt; [reflexivity|..];
    cbv zeta; match goal with |- context [match ?E with pair _ _ => _ end] => destruct E as [[b tf] l] end;
    (destruct b; [apply lit_step_two_sided; assumption | reflexivity]).
Qed.
End TwoSided.

(** ** The shading engine's properties *)

Section ShadeClaims.
Context `{L : Libm} `{!LibmLaws L} `{R : RandSource} `{!RandLaws R}.
Variable ctx : RenderContext.
Variable pick : bool.

(** C22: [light] terminates: from depth [r_depth] it returns a colour
    from every [rand()] state with [light_fuel r_depth] fuel, one level
    per bounce left before [MAX_R_DEPTH]. *)
Theorem light_terminates fuel obj e at_ snorm r_depth :
  (light_fuel r_depth <= fuel)%nat ->
  forall s, exists c s', light ctx pick fuel obj e at_ snorm r_depth s = Some (c, s').
Proof. exact (light_returns ctx pick fuel obj e at_ snorm r_depth). Qed.

(** C24: [schlickRefract] never refracts a ray entering a surface
    ([dot r snorm < 0]): its [cosTheta] is negative there, so the
    reflectance is at least 1 and beats every [randomFloat()]; it returns
    [false] and leaves [refracted] as it was. *)
Theorem schlickRefract_entering_never_refracts s obj r snorm index refracted :
  0 < index -> dot r snorm < 0 ->
  exists s', schlickRefract obj r snorm index refracted s = Some ((false, refracted), s').
Proof. exact (schlick_entering s obj r snorm index refracted). Qed.

(** C25: with the default refraction policy, [transmit] sends a ray that
    enters the surface on straight, without bending it. *)
Theorem transmit_entering_straight lightf obj e at_ snorm r_depth s :
  DISABLE_REFRACTION (rc_config ctx) = false -> DISABLE_SCHLICKREFRACTION (rc_config ctx) = false ->
  0 < refraction (obj_material obj) -> dot (normalize (at_ ⊖ e)) snorm < 0 ->
  exists s', transmit ctx pick lightf obj e at_ snorm r_depth s =
             follow ctx pick lightf at_ (normalize (at_ ⊖ e)) r_depth s'.
Proof.
  intros Hr Hs Hi Hd. unfold transmit. rewrite Hr, Hs.
  destruct (Qltb_spec 0 (refraction (obj_material obj))) as [_|]; [|lra]. cbn [negb andb].
  destruct (schlick_entering s obj (normalize (at_ ⊖ e)) snorm _ (normalize (at_ ⊖ e)) Hi Hd) as [s' E].
  exists s'. unfold bind. rewrite E. reflexivity.
Qed.

(** C30: [trace] always returns: the fuel it gives [light] is enough, and
    a hit always comes with its object. *)
Theorem trace_terminates e sp colour :
  forall s, exists r s', trace ctx pick e sp colour s = Some (r, s').
Proof. exact (trace_returns_lemma ctx pick e sp colour). Qed.
End ShadeClaims.

(** ** [ssTrace]: four samples per pixel

    Lines 577-631.  The hit objects are compared by pointer in the source
    ([totalHitObjs.at(0) != totalHitObjs.at(1)]); the value model has no
    pointers, so the identity test is the section variable [same_object].
    [ss.at(i)] throws on fewer than four sample points: that is the
    monad's failure. *)

Section SuperSampling.
Context `{L : Libm} `{R : RandSource}.
Variable ctx : RenderContext.
Variable pick : bool.
Variable same_object : Object -> Object -> bool.

(** The loop's locals: [traceResult], [totalColor], [totalValidTrace],
    [totalInvalidTrace] and [totalHitObjs]. *)
Record SSAcc := mkSSAcc {
  ss_result : bool; ss_total : vec3; ss_valid : nat; ss_invalid : nat; ss_objs : list Object }.

(** One iteration (lines 584-600). *)
Definition ss_sample (e : vec3) (acc : SSAcc) (p : vec3) : M SSAcc :=
  let d := normalize (p ⊖ e) in
  let '(t, st) := hit ctx e d 1 0 vzero vzero None None pick in
  if Qleb 1 t then
    match hs_hit_object st with
    | Some o =>
        c <- light ctx pick (light_fuel 0) o e (hs_hit_at st) (hs_hit_normal st) 0 ;;
        ret (mkSSAcc true (ss_total acc ⊕ c) (S (ss_valid acc)) (ss_invalid acc) (ss_objs acc ++ [o]))
    | None => fail
    end
  else ret (mkSSAcc (ss_result acc) (ss_total acc ⊕ vzero) (ss_valid acc) (S (ss_invalid acc)) (ss_objs acc)).

Fixpoint ss_loop (e : vec3) (ps : list vec3) (acc : SSAcc) : M SSAcc :=
  match ps with
  | [] => ret acc
  | p :: ps => acc' <- ss_sample e acc p ;; ss_loop e ps acc'
  end.

(** [o0 != o1 || o0 != o2 || ...] over the six pairs. *)
Definition objs_differ (objs : list Object) : bool :=
  match objs with
  | [o0; o1; o2; o3] =>
      negb (same_object o0 o1) || negb (same_object o0 o2) || negb (same_object o0 o3) ||
      negb (same_object o1 o2) || negb (same_object o1 o3) || negb (same_object o2 o3)
  | _ => false
  end.

(** Lines 602-629. *)
Definition ss_colour (acc : SSAcc) : vec3 :=
  let cfg := rc_config ctx in
  let totalColor := ss_total acc in
  if negb (DISABLE_TOON_SHADING cfg) then
    let colour :=
      if negb (DISABLE_OUTLINE_SHADING cfg) then vone
      else if negb (DISABLE_SKETCH_SHADING cfg) then
        let maxColor := fmin (fmin (vx totalColor) (vy totalColor)) (vz totalColor) in
        V3 maxColor maxColor maxColor
      else vdivs totalColor 4 in
    if Nat.ltb 0 (ss_valid acc) && Nat.ltb 0 (ss_invalid acc) then vzero
    else if Nat.eqb (length (ss_objs acc)) 4 then (if objs_differ (ss_objs acc) then vzero else colour)
    else colour
  else vdivs totalColor 4.

Definition ssTrace (e : vec3) (ss : list vec3) (colour : vec3) : M (bool * vec3) :=
  match ss with
  | p0 :: p1 :: p2 :: p3 :: _ =>
      acc <- ss_loop e [p0; p1; p2; p3] (mkSSAcc false vzero 0 0 []) ;;
      ret (ss_result acc, if ss_result acc then ss_colour acc else colour)
  | _ => fail
  end.

(** The specification of the toon-free path: [trace] each sample with a
    black default colour, in order, and sum the colours. *)
Fixpoint ss_spec (e : vec3) (ps : list vec3) (res : bool) (total : vec3) : M (bool * vec3) :=
  match ps with
  | [] => ret (res, total)
  | p :: ps => r <- trace ctx pick e p vzero ;; ss_spec e ps (res || fst r) (total ⊕ snd r)
  end.

(** The loop of [ssTrace] is that specification on the result flag and
    the colour sum. *)
Lemma ss_loop_spec e ps acc :
  meq (bind (ss_loop e ps acc) (fun a => ret (ss_result a, ss_total a))) (ss_spec e ps (ss_result acc) (ss_total acc)).
Proof.
  revert acc. induction ps as [|p ps IH]; intros acc; [intros s; reflexivity|].
  cbn [ss_loop ss_spec]. eapply meq_trans; [apply bind_assoc|].
  unfold ss_sample, trace. destruct (hit _ _ _ _ _ _ _ _ _ _) as [t st].
  destruct (Qleb 1 t); [destruct (hs_hit_object st) as [o|]; [|intros s; reflexivity]|].
  - eapply meq_trans; [apply bind_assoc|]. eapply meq_trans; [|intros s; symmetry; apply bind_assoc].
    apply bind_meq; [intros s; reflexivity | intros c].
    eapply meq_trans; [apply bind_ret_l|]. eapply meq_trans; [apply IH|].
    intros s. rewrite bind_ret_l. cbn [ss_result ss_total fst snd]. rewrite orb_true_r. reflexivity.
  - eapply meq_trans; [apply bind_ret_l|]. eapply meq_trans; [apply IH|].
    intros s. rewrite bind_ret_l. cbn [ss_result ss_total fst snd]. rewrite orb_false_r. reflexivity.
Qed.
End SuperSampling.

Section SuperSamplingClaims.
Context `{L : Libm} `{R : RandSource}.
Variable ctx : RenderContext.
Variable pick : bool.

(** C32: with toon shading off (the default), [ssTrace] is four calls of
    [trace], one per sample point in order, with the rand() state
    threaded through: it reports a hit when one of them does and returns
    the sum of their colours divided by 4, a missed sample counting
    black. *)
Theorem ssTrace_averages same_object e p0 p1 p2 p3 rest colour :
  DISABLE_TOON_SHADING (rc_config ctx) = true ->
  meq (ssTrace ctx pick same_object e (p0 :: p1 :: p2 :: p3 :: rest) colour)
      (bind (ss_spec ctx pick e [p0; p1; p2; p3] false vzero)
            (fun r => ret (fst r, if fst r then vdivs (snd r) 4 else colour))).
Proof.
  intros Ht. unfold ssTrace.
  eapply meq_trans; [|apply bind_meq; [apply (ss_loop_spec ctx pick e [p0; p1; p2; p3] (mkSSAcc false vzero 0 0 [])) | intros r s; reflexivity]].
  eapply meq_trans; [|apply meq_sym, bind_assoc].
  apply bind_meq; [intros s; reflexivity | intros acc s]. cbn. unfold ss_colour. rewrite Ht. reflexivity.
Qed.
End SuperSamplingClaims.

(** ** [randomFloat] in single precision

    The exact model above reads [rand() / (RAND_MAX + 1.0f)] on [Q].  In
    the source both operands are [float]s: [rand()] and [RAND_MAX] are
    converted to the nearest float (24 significant bits, ties to even)
    and [RAND_MAX + 1.0f] is rounded again.  [round_f24] is that
    conversion on non-negative integers; with glibc's [RAND_MAX]
    ([2^31 - 1]) the denominator is [2^31] and the division is exact. *)

Definition round_f24 (n : Z) : Z :=
  if (n <? 2 ^ 24)%Z then n
  else
    let sh := (Z.log2 n - 23)%Z in
    let q := (n / 2 ^ sh)%Z in
    let r := (n mod 2 ^ sh)%Z in
    let half := (2 ^ (sh - 1))%Z in
    let q' := if (half <? r)%Z || ((r =? half)%Z && Z.odd q) then (q + 1)%Z else q in
    (q' * 2 ^ sh)%Z.

Definition glibc_RAND_MAX : Z := 2147483647.

(** [randomFloat] on a [rand()] result [r] (line 56), in single
    precision, for a C library whose [RAND_MAX] is [rand_max]. *)
Definition randomFloat_f32_with (rand_max r : Z) : Q :=
  inject_Z (round_f24 r) / inject_Z (round_f24 (round_f24 rand_max + 1)).

(** ... with glibc's [RAND_MAX]. *)
Definition randomFloat_f32 (r : Z) : Q := randomFloat_f32_with glibc_RAND_MAX r.

(** ** Witnesses

    The example scene of [Bvh] lit by an ambient light and a point light
    above it, seen from the origin; [ex_glass] is a refractive material. *)

Definition ex_lit_scene : Scene :=
  mkScene default_camera ex_objects [AmbientLight (V3 (1 # 2) (1 # 2) (1 # 2)); PointLight vone (V3 0 5 0)].
Definition ex_lit_ctx : RenderContext :=
  mkRenderContext default_config ex_lit_scene ex_tree (filter is_plane ex_objects) vzero.
Definition ex_ball : Object := Sphere ex_material 1 (V3 0 0 (-5)).
Definition ex_at : vec3 := V3 0 0 (-4).
Definition ex_up : vec3 := V3 0 0 1.
Definition ex_glass : Material := mkMaterial vzero vzero vzero 1 vzero vone (3 # 2).
Definition ex_tri_mesh : Object :=
  Mesh ex_material [mkTriangle (V3 (-3) 0 (-4)) (V3 (-2) 1 (-4)) (V3 (-2) 0 (-5))].

Definition ex_light_result : option (vec3 * Z) :=
  Eval vm_compute in light ex_lit_ctx false 9 ex_ball ex_eye ex_at ex_up 0 0%Z.
Definition ex_rand_result : option (Q * Z) := Eval vm_compute in randomFloat 0%Z.

Definition ex_light_colour : vec3 := match ex_light_result with Some (c, _) => c | None => vzero end.
Definition ex_light_state : Z := match ex_light_result with Some (_, s) => s | None => 0%Z end.

Lemma light_terminates_witness :
  (light_fuel 0 <= 9)%nat /\ exists c s', light ex_lit_ctx false 9 ex_ball ex_eye ex_at ex_up 0 0%Z = Some (c, s').
Proof.
  assert (H : (light_fuel 0 <= 9)%nat) by (vm_compute; lia).
  split; [exact H | exact (light_terminates ex_lit_ctx false 9 ex_ball ex_eye ex_at ex_up 0 H 0%Z)].
Defined.

Lemma schlickRefract_entering_never_refracts_witness :
  0 < 3 # 2 /\ dot (V3 0 0 (-1)) ex_up < 0 /\
  exists s', schlickRefract ex_ball (V3 0 0 (-1)) ex_up (3 # 2) vzero 0%Z = Some ((false, vzero), s').
Proof.
  assert (H1 : 0 < 3 # 2) by qcompute. assert (H2 : dot (V3 0 0 (-1)) ex_up < 0) by qcompute.
  split; [exact H1 | split; [exact H2|]].
  exact (schlickRefract_entering_never_refracts 0%Z ex_ball (V3 0 0 (-1)) ex_up (3 # 2) vzero H1 H2).
Defined.

Lemma transmit_entering_straight_witness :
  0 < refraction ex_glass /\ dot (normalize (ex_at ⊖ ex_eye)) ex_up < 0 /\
  exists s', transmit ex_lit_ctx false (light ex_lit_ctx false 9) (Sphere ex_glass 1 (V3 0 0 (-5))) ex_eye ex_at ex_up 0 0%Z =
             follow ex_lit_ctx false (light ex_lit_ctx false 9) ex_at (normalize (ex_at ⊖ ex_eye)) 0 s'.
Proof.
  assert (H1 : 0 < refraction ex_glass) by qcompute.
  assert (H2 : dot (normalize (ex_at ⊖ ex_eye)) ex_up < 0) by qcompute.
  split; [exact H1 | split; [exact H2|]].
  exact (transmit_entering_straight ex_lit_ctx false (light ex_lit_ctx false 9) (Sphere ex_glass 1 (V3 0 0 (-5)))
    ex_eye ex_at ex_up 0 0%Z eq_refl eq_refl H1 H2).
Defined.

Lemma light_in_unit_witness :
  light ex_lit_ctx false 9 ex_ball ex_eye ex_at ex_up 0 0%Z = Some (ex_light_colour, ex_light_state) /\
  forall i, 0 <= vget ex_light_colour i <= 1.
Proof.
  assert (E : light ex_lit_ctx false 9 ex_ball ex_eye ex_at ex_up 0 0%Z = Some (ex_light_colour, ex_light_state))
    by (vm_compute; reflexivity).
  split; [exact E | exact (light_in_unit ex_lit_ctx false 9 ex_ball ex_eye ex_at ex_up 0 0%Z _ _ E)].
Defined.

Lemma light_opaque_witness :
  reflective (obj_material ex_ball) ≃ vzero /\ transmissive (obj_material ex_ball) ≃ vzero /\
  light ex_lit_ctx false 9 ex_ball ex_eye ex_at ex_up 0 0%Z =
  Some (vclamp01 (fold_left (direct_step ex_lit_ctx false ex_ball ex_eye ex_at ex_up) (lights (rc_scene ex_lit_ctx)) vzero), 0%Z).
Proof.
  assert (H1 : reflective (obj_material ex_ball) ≃ vzero) by (vsplit; reflexivity).
  assert (H2 : transmissive (obj_material ex_ball) ≃ vzero) by (vsplit; reflexivity).
  split; [exact H1 | split; [exact H2|]].
  exact (light_opaque ex_lit_ctx false 8 ex_ball ex_eye ex_at ex_up 0 0%Z H1 H2).
Defined.

Lemma direct_two_sided_witness :
  is_mesh_like ex_tri_mesh = true /\ ALLOW_HIT_MESH_BACK (rc_config ex_lit_ctx) = true /\
  fold_left (direct_step ex_lit_ctx false ex_tri_mesh ex_eye ex_at ex_up) (lights (rc_scene ex_lit_ctx)) vzero ≃
  fold_left (direct_step ex_lit_ctx false ex_tri_mesh ex_eye ex_at (vneg ex_up)) (lights (rc_scene ex_lit_ctx)) vzero.
Proof.
  split; [reflexivity | split; [reflexivity|]].
  exact (direct_two_sided ex_lit_ctx false ex_tri_mesh ex_eye ex_at ex_up _ eq_refl eq_refl).
Defined.

(** The 64 largest values of [rand()] all round up to [2^31]. *)
Lemma top_rand_values_check :
  forallb (fun k => Qeq_bool (randomFloat_f32 (2147483584 + Z.of_nat k)) 1) (seq 0 64) = true.
Proof. vm_compute. reflexivity. Qed.

(** C31: in single precision, [randomFloat] is not below 1: with glibc's
    [RAND_MAX], each of the 64 largest values of [rand()] rounds up to
    [2^31], the denominator, and [randomFloat] returns exactly 1, against
    its comment "a random real in [0,1)". *)
Theorem randomFloat_f32_reaches_one r :
  (2147483584 <= r <= glibc_RAND_MAX)%Z -> randomFloat_f32 r == 1.
Proof.
  intros Hr. unfold glibc_RAND_MAX in Hr.
  pose proof top_rand_values_check as C. rewrite forallb_forall in C.
  specialize (C (Z.to_nat (r - 2147483584))). rewrite in_seq in C.
  rewrite Z2Nat.id in C by lia. replace (2147483584 + (r - 2147483584))%Z with r in C by lia.
  apply Qeq_bool_iff, C. lia.
Qed.

Lemma randomFloat_f32_reaches_one_witness :
  (2147483584 <= glibc_RAND_MAX <= glibc_RAND_MAX)%Z /\ randomFloat_f32 glibc_RAND_MAX == 1.
Proof.
  assert (H : (2147483584 <= glibc_RAND_MAX <= glibc_RAND_MAX)%Z) by (unfold glibc_RAND_MAX; lia).
  split; [exact H | exact (randomFloat_f32_reaches_one glibc_RAND_MAX H)].
Defined.




Lemma ssTrace_averages_witness :
  DISABLE_TOON_SHADING (rc_config ex_lit_ctx) = true /\
  meq (ssTrace ex_lit_ctx false (fun _ _ => true) ex_eye [ex_at; ex_at; ex_up; ex_up] vzero)
      (bind (ss_spec ex_lit_ctx false ex_eye [ex_at; ex_at; ex_up; ex_up] false vzero)
            (fun r => ret (fst r, if fst r then vdivs (snd r) 4 else vzero))).
Proof.
  split; [reflexivity|].
  exact (ssTrace_averages ex_lit_ctx false (fun _ _ => true) ex_eye ex_at ex_at ex_up ex_up [] vzero eq_refl).
Defined.
