(* ===== verification/Loader.v ===== *)
(** * Loader: [json_to_scene] of src/src/json2schema.cpp

    The scene file is a JSON document read by nlohmann::json.  The
    document is the inductive [json] (object members in the library's
    storage order; lookups take the first member with the key).  The parts
    of nlohmann::json the loader calls are written out as the library
    defines them, since the library is not part of the repository:

    - [jindex k j], the non-const [j[k]]: on an object the member or
      [null] (the library inserts it); on [null] also [null] (the value
      becomes an object); on anything else it throws [type_error] 305;
    - [jfind k j], [j.find(k) != j.end()]: only an object has members;
    - [jat i j], the non-const [j[i]]: on an array the element or [null]
      past the end (the array is extended), on [null] [null], else 305;
    - [json_items j], the range of [j.begin()] .. [j.end()]: nothing for
      [null], the elements of an array, the member values of an object and
      the value itself for a number, string or boolean;
    - [get_float], the conversion to [float] (a number, or a boolean as 0
      or 1, else [type_error] 302), and [get_float_vector], the conversion
      to [std::vector<float>] (an array of such, else 302);
    - [j == "sphere"] compares with a JSON string: [is_jstr].

    An uncaught exception ends the program, and [v[0]] .. [v[2]] on a
    vector with fewer than three elements is undefined behaviour: these are
    the outcomes [Thrown] and [Undefined] of the result type [exec], whose
    bind threads them.  [json_to_scene] passes the scene [s] by reference:
    the model takes it and returns it with the return code, so that the
    objects pushed before a [return -1] stay in the result as in the
    source. *)

From Stdlib Require Import QArith Lqa String List ZArith Bool Lia.
From S2P Require Import Prelude Schema Bvh Hit.
Import ListNotations.
Open Scope Q_scope.
Local Set Warnings "-register-all".

(** ** JSON values and the outcome of a load *)

Inductive json :=
| JNull
| JBool (b : bool)
| JNum (q : Q)
| JStr (s : string)
| JArr (items : list json)
| JObj (members : list (string * json)).

(** The exceptions of nlohmann::json the program can raise. *)
Inductive JsonError :=
| type_must_be_number   (* type_error 302, conversion to float *)
| type_must_be_array    (* type_error 302, conversion to std::vector *)
| cannot_use_operator   (* type_error 305, operator[] on a scalar *)
| parse_error.          (* parse_error 101, [in >> jscene] on a text that is not JSON *)

Inductive exec (A : Type) :=
| Normal (a : A)
| Thrown (e : JsonError)
| Undefined.
Arguments Normal {A} a.
Arguments Thrown {A} e.
Arguments Undefined {A}.

Definition ebind {A B} (m : exec A) (k : A -> exec B) : exec B :=
  match m with
  | Normal a => k a
  | Thrown e => Thrown e
  | Undefined => Undefined
  end.

Declare Scope exec_scope.
Delimit Scope exec_scope with exec.
Notation "x <- m ;; k" := (ebind m (fun x => k))
  (at level 61, m at next level, right associativity) : exec_scope.
Notation "' p <- m ;; k" := (ebind m (fun x => match x with p => k end))
  (at level 61, p pattern, m at next level, right associativity) : exec_scope.
Open Scope exec_scope.

(** [std::vector] built by a loop that stops at the first exception. *)
Fixpoint traverse {A B} (f : A -> exec B) (l : list A) : exec (list B) :=
  match l with
  | [] => Normal []
  | a :: l' => b <- f a ;; bs <- traverse f l' ;; Normal (b :: bs)
  end.

(** ** The parts of nlohmann::json the loader uses *)

Fixpoint assoc (k : string) (ms : list (string * json)) : option json :=
  match ms with
  | [] => None
  | (k', v) :: ms' => if String.eqb k k' then Some v else assoc k ms'
  end.

Definition jfind (k : string) (j : json) : option json :=
  match j with JObj ms => assoc k ms | _ => None end.

Definition jindex (k : string) (j : json) : exec json :=
  match j with
  | JNull => Normal JNull
  | JObj ms => Normal (match assoc k ms with Some v => v | None => JNull end)
  | _ => Thrown cannot_use_operator
  end.

Definition jat (i : nat) (j : json) : exec json :=
  match j with
  | JNull => Normal JNull
  | JArr l => Normal (nth i l JNull)
  | _ => Thrown cannot_use_operator
  end.

Definition json_items (j : json) : list json :=
  match j with
  | JNull => []
  | JArr l => l
  | JObj ms => map snd ms
  | v => [v]
  end.

Definition get_float (j : json) : exec Q :=
  match j with
  | JNum q => Normal q
  | JBool b => Normal (if b then 1 else 0)
  | _ => Thrown type_must_be_number
  end.

Definition get_float_vector (j : json) : exec (list Q) :=
  match j with
  | JArr l => traverse get_float l
  | _ => Thrown type_must_be_array
  end.

Definition is_jstr (s : string) (j : json) : bool :=
  match j with JStr s' => String.eqb s' s | _ => false end.

(** ** json2schema.cpp *)

(** [vector_to_vec3] (lines 18-20): [v[0]], [v[1]], [v[2]] unchecked. *)
Definition vector_to_vec3 (v : list Q) : exec vec3 :=
  match v with
  | x :: y :: z :: _ => Normal (V3 x y z)
  | _ => Undefined
  end.

(** [vector_to_vec3(j)]: the implicit conversion of the argument first. *)
Definition vec3_of (j : json) : exec vec3 :=
  v <- get_float_vector j ;; vector_to_vec3 v.

(** [if (j.find(k) != j.end()) x = conv(j[k]);] *)
Definition opt_field {A} (k : string) (conv : json -> exec A) (j : json) (x : A) : exec A :=
  match jfind k j with Some v => conv v | None => Normal x end.

(** Lines 37-59: the material of an object, every field optional. *)
Definition load_material (object : json) : exec Material :=
  material <- jindex "material" object ;;
  a <- opt_field "ambient" vec3_of material (ambient default_material) ;;
  d <- opt_field "diffuse" vec3_of material (diffuse default_material) ;;
  sp <- opt_field "specular" vec3_of material (specular default_material) ;;
  sh <- opt_field "shininess" get_float material (shininess default_material) ;;
  rl <- opt_field "reflective" vec3_of material (reflective default_material) ;;
  tr <- opt_field "transmissive" vec3_of material (transmissive default_material) ;;
  rf <- opt_field "refraction" get_float material (refraction default_material) ;;
  Normal (mkMaterial a d sp sh rl tr rf).

(** Line 78: [{ vector_to_vec3(t[0]), vector_to_vec3(t[1]), vector_to_vec3(t[2]) }],
    evaluated left to right (a braced initialiser list). *)
Definition load_triangle (t : json) : exec Triangle :=
  v0 <- (x <- jat 0 t ;; vec3_of x) ;;
  v1 <- (x <- jat 1 t ;; vec3_of x) ;;
  v2 <- (x <- jat 2 t ;; vec3_of x) ;;
  Normal (mkTriangle v0 v1 v2).

(** [j[k]] converted by [conv]. *)
Definition member {A} (k : string) (conv : json -> exec A) (j : json) : exec A :=
  x <- jindex k j ;; conv x.

(** The body of the object loop (lines 34-84): [None] is the
    [return -1] of an unrecognised type. *)
Definition load_object (object : json) : exec (option Object) :=
  m <- load_material object ;;
  ty <- jindex "type" object ;;
  if is_jstr "sphere" ty then
    pos <- member "position" vec3_of object ;;
    radius <- member "radius" get_float object ;;
    Normal (Some (Sphere m radius pos))
  else if is_jstr "plane" ty then
    pos <- member "position" vec3_of object ;;
    normal <- member "normal" vec3_of object ;;
    Normal (Some (Plane m pos normal))
  else if is_jstr "mesh" ty then
    ts <- jindex "triangles" object ;;
    tris <- traverse load_triangle (json_items ts) ;;
    Normal (Some (Mesh m tris))
  else Normal None.

Definition is_ambient (l : Light) : bool :=
  match l with AmbientLight _ => true | _ => false end.

(** The body of the light loop (lines 90-121); [lights] is [s.lights]
    so far.  [None] is a [return -1]. *)
Definition load_light (lights : list Light) (light : json) : exec (option Light) :=
  colour <- member "color" vec3_of light ;;
  ty <- jindex "type" light ;;
  if is_jstr "ambient" ty then
    if existsb is_ambient lights then Normal None
    else Normal (Some (AmbientLight colour))
  else if is_jstr "directional" ty then
    direction <- member "direction" vec3_of light ;;
    Normal (Some (DirectionalLight colour direction))
  else if is_jstr "point" ty then
    pos <- member "position" vec3_of light ;;
    Normal (Some (PointLight colour pos))
  else if is_jstr "spot" ty then
    pos <- member "position" vec3_of light ;;
    direction <- member "direction" vec3_of light ;;
    cutoff <- member "cutoff" get_float light ;;
    Normal (Some (SpotLight colour pos direction cutoff))
  else Normal None.

(** [s.objects.push_back(o)] and [s.lights.push_back(l)]. *)
Definition push_object (o : Object) (s : Scene) : Scene :=
  mkScene (camera s) (objects s ++ [o]) (lights s).
Definition push_light (l : Light) (s : Scene) : Scene :=
  mkScene (camera s) (objects s) (lights s ++ [l]).

(** The object loop (lines 32-85).  The code is 0 when the loop runs to
    its end and -1 when it returns. *)
Fixpoint load_objects (items : list json) (s : Scene) : exec (Z * Scene) :=
  match items with
  | [] => Normal (0%Z, s)
  | object :: rest =>
      r <- load_object object ;;
      match r with
      | Some o => load_objects rest (push_object o s)
      | None => Normal ((-1)%Z, s)
      end
  end.

(** The light loop (lines 88-122). *)
Fixpoint load_lights (items : list json) (s : Scene) : exec (Z * Scene) :=
  match items with
  | [] => Normal (0%Z, s)
  | light :: rest =>
      r <- load_light (lights s) light ;;
      match r with
      | Some l => load_lights rest (push_light l s)
      | None => Normal ((-1)%Z, s)
      end
  end.

(** [json_to_scene] (lines 22-125): the camera copy, its two optional
    fields, the objects, then the lights. *)
Definition json_to_scene (jscene : json) (s : Scene) : exec (Z * Scene) :=
  cam <- jindex "camera" jscene ;;
  fld <- opt_field "field" get_float cam (field (camera s)) ;;
  bg <- opt_field "background" vec3_of cam (background (camera s)) ;;
  let s1 := mkScene (mkCamera fld bg) (objects s) (lights s) in
  objs <- jindex "objects" jscene ;;
  '(r, s2) <- load_objects (json_items objs) s1 ;;
  if (r <? 0)%Z then Normal (r, s2) else
  ls <- jindex "lights" jscene ;;
  load_lights (json_items ls) s2.

(** The global [Scene scene] of raytracer.cpp before loading. *)
Definition empty_scene : Scene := mkScene default_camera [] [].

(** How [choose_scene] ends once the document is parsed. *)
Inductive SceneLoad :=
| scene_exit                       (* exit(EXIT_FAILURE) after a -1 *)
| scene_diverges                   (* buildBVH never returns *)
| scene_ready (ctx : RenderContext).

(** [choose_scene] of raytracer.cpp (lines 76-89) after [in >> jscene]:
    [json_to_scene] into the empty global scene, the exit on a negative
    result, then the set-up of [choose_scene_setup]. *)
Definition choose_scene `{Sorter} (cfg : Config) (jscene : json) : exec SceneLoad :=
  '(r, s) <- json_to_scene jscene empty_scene ;;
  if (r <? 0)%Z then Normal scene_exit
  else match choose_scene_setup cfg s with
       | Some ctx => Normal (scene_ready ctx)
       | None => Normal scene_diverges
       end.

Definition is_mtriangle (o : Object) : bool :=
  match o with MTriangle _ _ _ => true | _ => false end.

Definition ambient_count (ls : list Light) : nat := length (filter is_ambient ls).

(** ** A writer for the scene schema

    The document [json_to_scene] expects, written from a scene: the
    specification the loader is checked against (the repository has no
    writer of its own; its printer emits C++, see [Printer]). *)

Definition enc_vec (v : vec3) : json := JArr [JNum (vx v); JNum (vy v); JNum (vz v)].

Definition enc_material (m : Material) : json :=
  JObj [("ambient"%string, enc_vec (ambient m)); ("diffuse"%string, enc_vec (diffuse m));
        ("specular"%string, enc_vec (specular m)); ("shininess"%string, JNum (shininess m));
        ("reflective"%string, enc_vec (reflective m)); ("transmissive"%string, enc_vec (transmissive m));
        ("refraction"%string, JNum (refraction m))].

Definition enc_triangle (t : Triangle) : json :=
  JArr [enc_vec (vert0 t); enc_vec (vert1 t); enc_vec (vert2 t)].

Definition enc_object (o : Object) : json :=
  match o with
  | Sphere m r p =>
      JObj [("material"%string, enc_material m); ("type"%string, JStr "sphere"%string);
            ("position"%string, enc_vec p); ("radius"%string, JNum r)]
  | Plane m p n =>
      JObj [("material"%string, enc_material m); ("type"%string, JStr "plane"%string);
            ("position"%string, enc_vec p); ("normal"%string, enc_vec n)]
  | Mesh m ts =>
      JObj [("material"%string, enc_material m); ("type"%string, JStr "mesh"%string);
            ("triangles"%string, JArr (map enc_triangle ts))]
  | MTriangle m t _ =>
      JObj [("material"%string, enc_material m); ("type"%string, JStr "mTriangle"%string);
            ("triangles"%string, JArr [enc_triangle t])]
  end.

Definition enc_light (l : Light) : json :=
  match l with
  | AmbientLight c => JObj [("type"%string, JStr "ambient"%string); ("color"%string, enc_vec c)]
  | DirectionalLight c d =>
      JObj [("type"%string, JStr "directional"%string); ("color"%string, enc_vec c); ("direction"%string, enc_vec d)]
  | PointLight c p =>
      JObj [("type"%string, JStr "point"%string); ("color"%string, enc_vec c); ("position"%string, enc_vec p)]
  | SpotLight c p d k =>
      JObj [("type"%string, JStr "spot"%string); ("color"%string, enc_vec c); ("position"%string, enc_vec p);
            ("direction"%string, enc_vec d); ("cutoff"%string, JNum k)]
  end.

Definition enc_camera (c : Camera) : json :=
  JObj [("field"%string, JNum (field c)); ("background"%string, enc_vec (background c))].

(** A scene document from its camera, object documents and lights. *)
Definition scene_doc (c : Camera) (objs : list json) (ls : json) : json :=
  JObj [("camera"%string, enc_camera c); ("objects"%string, JArr objs); ("lights"%string, ls)].

Definition encode_scene (s : Scene) : json :=
  scene_doc (camera s) (map enc_object (objects s)) (JArr (map enc_light (lights s))).

(** ** The result type *)

Lemma ebind_normal {A B} (m : exec A) (k : A -> exec B) b :
  ebind m k = Normal b <-> exists a, m = Normal a /\ k a = Normal b.
Proof.
  destruct m; cbn; split; intros H; try discriminate;
    [eauto | destruct H as (? & E & ?); congruence | destruct H as (? & ? & ?); discriminate
    | destruct H as (? & ? & ?); discriminate].
Qed.

Lemma traverse_normal {A B C} (f : B -> exec C) (h : A -> B) (g : A -> C) l :
  (forall a, In a l -> f (h a) = Normal (g a)) -> traverse f (map h l) = Normal (map g l).
Proof.
  induction l as [|a l IH]; intros Hf; cbn; [reflexivity|].
  rewrite (Hf a (or_introl eq_refl)); cbn.
  rewrite IH by (intros; apply Hf; right; assumption). reflexivity.
Qed.

(** ** Reading back what the writer wrote *)

Lemma vec3_of_enc v : vec3_of (enc_vec v) = Normal v.
Proof. destruct v; reflexivity. Qed.

Lemma load_material_enc m rest :
  load_material (JObj (("material"%string, enc_material m) :: rest)) = Normal m.
Proof. destruct m as [[] [] [] ? [] [] ?]; reflexivity. Qed.

Lemma load_triangle_enc t : load_triangle (enc_triangle t) = Normal t.
Proof. destruct t as [[] [] []]; reflexivity. Qed.

Lemma load_object_enc o :
  is_mtriangle o = false -> load_object (enc_object o) = Normal (Some o).
Proof.
  intros Ho; destruct o as [m r p | m p n | m ts | ]; try discriminate; cbn [enc_object];
    unfold load_object; rewrite load_material_enc; cbn -[load_material vec3_of];
    rewrite ?vec3_of_enc; cbn; try reflexivity.
  rewrite (traverse_normal _ _ (fun t => t)) by (intros t _; apply load_triangle_enc).
  rewrite map_id; reflexivity.
Qed.

(** Rewrite a pushed scene back into a record of appended lists. *)
Lemma push_object_app s o os :
  mkScene (camera (push_object o s)) (objects (push_object o s) ++ os) (lights (push_object o s)) =
  mkScene (camera s) (objects s ++ o :: os) (lights s).
Proof. cbn; rewrite <- app_assoc; reflexivity. Qed.

Lemma push_light_app s l ls :
  lights (push_light l s) ++ ls = lights s ++ l :: ls.
Proof. cbn; rewrite <- app_assoc; reflexivity. Qed.

Lemma load_objects_enc os s :
  forallb (fun o => negb (is_mtriangle o)) os = true ->
  load_objects (map enc_object os) s = Normal (0%Z, mkScene (camera s) (objects s ++ os) (lights s)).
Proof.
  revert s; induction os as [|o os IH]; intros s Hos; cbn [map load_objects].
  - rewrite app_nil_r; destruct s; reflexivity.
  - cbn [forallb] in Hos; apply andb_prop in Hos as [Ho Hos]; apply negb_true_iff in Ho.
    rewrite load_object_enc by exact Ho; cbn [ebind].
    rewrite IH, push_object_app by exact Hos; reflexivity.
Qed.

(** The object loop stops at the first object it does not recognise,
    with the objects before it pushed. *)
Lemma load_objects_stop os1 bad rest s :
  forallb (fun o => negb (is_mtriangle o)) os1 = true -> load_object bad = Normal None ->
  load_objects (map enc_object os1 ++ bad :: rest) s =
  Normal ((-1)%Z, mkScene (camera s) (objects s ++ os1) (lights s)).
Proof.
  intros Hos Hb; revert s; induction os1 as [|o os1 IH]; intros s; cbn [app map load_objects].
  - rewrite Hb, app_nil_r; destruct s; reflexivity.
  - cbn [forallb] in Hos; apply andb_prop in Hos as [Ho Hos]; apply negb_true_iff in Ho.
    rewrite load_object_enc by exact Ho; cbn [ebind].
    rewrite IH by exact Hos; cbn [push_object camera objects lights]; rewrite <- app_assoc; reflexivity.
Qed.

(** An object of any type but "sphere", "plane" and "mesh". *)
Lemma load_object_unknown m ty :
  ty <> "sphere"%string -> ty <> "plane"%string -> ty <> "mesh"%string ->
  load_object (JObj [("material"%string, enc_material m); ("type"%string, JStr ty)]) = Normal None.
Proof.
  intros H1 H2 H3; unfold load_object; rewrite load_material_enc; cbn [ebind].
  assert (E : jindex "type" (JObj [("material"%string, enc_material m); ("type"%string, JStr ty)])
              = Normal (JStr ty)) by reflexivity.
  rewrite E; cbn [ebind]; unfold is_jstr.
  apply String.eqb_neq in H1, H2, H3; rewrite H1, H2, H3; reflexivity.
Qed.

(** [json_to_scene] on a document with a written camera. *)
Lemma json_to_scene_doc c objs ls s0 :
  json_to_scene (scene_doc c objs ls) s0 =
  ('(r, s2) <- load_objects objs (mkScene c (objects s0) (lights s0)) ;;
   if (r <? 0)%Z then Normal (r, s2) else load_lights (json_items ls) s2).
Proof. destruct c as [f [bx by' bz]]; reflexivity. Qed.

Lemma load_light_enc ls l :
  existsb is_ambient ls && is_ambient l = false ->
  load_light ls (enc_light l) = Normal (Some l).
Proof.
  destruct l as [[] | [] [] | [] [] | [] [] [] ?]; cbn; intros H;
    try reflexivity; rewrite andb_true_r in H; rewrite H; reflexivity.
Qed.

Lemma load_light_enc_ambient ls c :
  existsb is_ambient ls = true -> load_light ls (enc_light (AmbientLight c)) = Normal None.
Proof. destruct c; cbn; intros ->; reflexivity. Qed.

Lemma ambient_count_app l1 l2 : ambient_count (l1 ++ l2) = (ambient_count l1 + ambient_count l2)%nat.
Proof. unfold ambient_count; rewrite filter_app, length_app; reflexivity. Qed.

Lemma ambient_count_existsb ls : existsb is_ambient ls = true <-> (0 < ambient_count ls)%nat.
Proof.
  unfold ambient_count; induction ls as [|l ls IH]; cbn; [split; [discriminate | lia]|].
  destruct (is_ambient l); cbn; [split; [lia | reflexivity]|exact IH].
Qed.

(** A light that the loader appends while no more than one ambient
    light is in sight is accepted. *)
Lemma ambient_first ls l rest :
  (ambient_count (ls ++ l :: rest) <= 1)%nat -> existsb is_ambient ls && is_ambient l = false.
Proof.
  rewrite ambient_count_app; cbn; intros Hc.
  destruct (existsb is_ambient ls) eqn:E; [|reflexivity].
  apply ambient_count_existsb in E; destruct (is_ambient l); cbn in *; [lia | reflexivity].
Qed.

Lemma load_lights_enc ls s :
  (ambient_count (lights s ++ ls) <= 1)%nat ->
  load_lights (map enc_light ls) s = Normal (0%Z, mkScene (camera s) (objects s) (lights s ++ ls)).
Proof.
  revert s; induction ls as [|l ls IH]; intros s Hc; cbn [map load_lights].
  - rewrite app_nil_r; destruct s; reflexivity.
  - rewrite load_light_enc by (eapply ambient_first; exact Hc); cbn [ebind].
    rewrite IH, push_light_app by (rewrite push_light_app; exact Hc); reflexivity.
Qed.

Lemma load_lights_enc_second_ambient l1 c l2 s :
  existsb is_ambient (lights s ++ l1) = true ->
  (ambient_count (lights s ++ l1) <= 1)%nat ->
  load_lights (map enc_light (l1 ++ AmbientLight c :: l2)) s =
  Normal ((-1)%Z, mkScene (camera s) (objects s) (lights s ++ l1)).
Proof.
  revert s; induction l1 as [|l l1 IH]; intros s Ha Hc; cbn [app map load_lights].
  - rewrite app_nil_r in *; rewrite load_light_enc_ambient by exact Ha; destruct s; reflexivity.
  - rewrite load_light_enc by (eapply ambient_first; exact Hc); cbn [ebind].
    rewrite IH, push_light_app by (rewrite push_light_app; assumption); reflexivity.
Qed.

(** [json_to_scene] on a written scene, once the camera is read. *)
Lemma json_to_scene_enc s s0 :
  json_to_scene (encode_scene s) s0 =
  ('(r, s2) <- load_objects (map enc_object (objects s)) (mkScene (camera s) (objects s0) (lights s0)) ;;
   if (r <? 0)%Z then Normal (r, s2) else load_lights (map enc_light (lights s)) s2).
Proof. destruct s as [[f [bx by' bz]] os ls]; reflexivity. Qed.

(** ** What every load does, whatever the document *)

(** Decompose the [Normal] result of a chain of binds. *)
Ltac einv :=
  repeat match goal with
  | H : ebind _ _ = Normal _ |- _ => apply ebind_normal in H as (? & ? & H)
  | H : Normal _ = Normal _ |- _ => injection H as H
  end.

Lemma load_object_kind j o : load_object j = Normal (Some o) -> is_mtriangle o = false.
Proof.
  unfold load_object; intros H; einv.
  repeat destruct (is_jstr _ _) in H; einv; subst; try discriminate; reflexivity.
Qed.

Lemma load_light_ambient ls j l :
  load_light ls j = Normal (Some l) -> is_ambient l = true -> existsb is_ambient ls = false.
Proof.
  unfold load_light; intros H; einv.
  repeat destruct (is_jstr _ _) in H; einv; subst; try discriminate; cbn; try discriminate.
  destruct (existsb is_ambient ls); [discriminate | reflexivity].
Qed.

Lemma load_objects_shape items s r s' :
  load_objects items s = Normal (r, s') ->
  camera s' = camera s /\ lights s' = lights s /\
  exists os, objects s' = objects s ++ os /\ forallb (fun o => negb (is_mtriangle o)) os = true.
Proof.
  revert s; induction items as [|j items IH]; intros s H; cbn in H; einv.
  - subst; repeat split; exists []; rewrite app_nil_r; auto.
  - destruct x as [o|]; einv; subst; [|repeat split; exists []; rewrite app_nil_r; auto].
    apply IH in H as (-> & -> & os & -> & Hos); cbn; repeat split.
    exists (o :: os); rewrite <- app_assoc; split; [reflexivity|].
    cbn; rewrite (load_object_kind _ _ H0), Hos; reflexivity.
Qed.

Lemma load_lights_shape items s r s' :
  load_lights items s = Normal (r, s') ->
  objects s' = objects s /\
  ((ambient_count (lights s) <= 1)%nat -> (ambient_count (lights s') <= 1)%nat).
Proof.
  revert s; induction items as [|j items IH]; intros s H; cbn in H; einv.
  - subst; auto.
  - destruct x as [l|]; einv; subst; [|auto].
    apply IH in H as [-> Hc]; split; [reflexivity|]; intros Hs; apply Hc; cbn [push_light lights].
    rewrite ambient_count_app; unfold ambient_count at 2; cbn [filter].
    destruct (is_ambient l) eqn:Ea; cbn [length]; [|lia].
    pose proof (load_light_ambient _ _ _ H0 Ea) as E.
    destruct (ambient_count (lights s)) eqn:Ec; [lia|].
    assert (existsb is_ambient (lights s) = true) by (apply ambient_count_existsb; lia); congruence.
Qed.

Lemma json_to_scene_shape j s r s' :
  json_to_scene j s = Normal (r, s') ->
  ((ambient_count (lights s) <= 1)%nat -> (ambient_count (lights s') <= 1)%nat) /\
  exists os, objects s' = objects s ++ os /\ forallb (fun o => negb (is_mtriangle o)) os = true.
Proof.
  unfold json_to_scene; intros H; einv.
  match goal with
  | HL : load_objects _ _ = Normal ?p |- _ =>
      destruct p as [r1 s1]; apply load_objects_shape in HL as (_ & Hl & os & Ho & Hos)
  end.
  cbn in Hl, Ho; destruct (r1 <? 0)%Z; einv; subst.
  - rewrite Hl; split; [auto | eauto].
  - apply load_lights_shape in H as [-> Hc]; rewrite Hl in Hc; split; [exact Hc | eauto].
Qed.

Lemma load_objects_code items s r s' :
  load_objects items s = Normal (r, s') -> r = 0%Z \/ r = (-1)%Z.
Proof.
  revert s; induction items as [|j items IH]; intros s H; cbn in H; einv.
  - left; congruence.
  - destruct x as [o|]; einv; [eapply IH; exact H | right; congruence].
Qed.

Lemma load_lights_code items s r s' :
  load_lights items s = Normal (r, s') -> r = 0%Z \/ r = (-1)%Z.
Proof.
  revert s; induction items as [|j items IH]; intros s H; cbn in H; einv.
  - left; congruence.
  - destruct x as [l|]; einv; [eapply IH; exact H | right; congruence].
Qed.

(** [json_to_scene] returns 0 or -1 when it returns. *)
Lemma json_to_scene_code j s r s' :
  json_to_scene j s = Normal (r, s') -> r = 0%Z \/ r = (-1)%Z.
Proof.
  unfold json_to_scene; intros H; einv.
  match goal with
  | HL : load_objects _ _ = Normal ?p |- _ =>
      destruct p as [r1 s1]; destruct (load_objects_code _ _ _ _ HL) as [-> | ->]
  end.
  - cbn in H; einv; eapply load_lights_code; exact H.
  - right; cbn in H; congruence.
Qed.

(** ** The loader's contract *)

Lemma json_to_scene_encoded s0 s :
  forallb (fun o => negb (is_mtriangle o)) (objects s) = true ->
  (ambient_count (lights s0 ++ lights s) <= 1)%nat ->
  json_to_scene (encode_scene s) s0 =
  Normal (0%Z, mkScene (camera s) (objects s0 ++ objects s) (lights s0 ++ lights s)).
Proof.
  intros Ho Hl; rewrite json_to_scene_enc, load_objects_enc by exact Ho.
  cbn [ebind lights objects camera]; rewrite Z.ltb_irrefl; cbn beta iota.
  rewrite load_lights_enc by exact Hl; reflexivity.
Qed.

(** C35: reading back a written scene.  For a scene without split mesh
    triangles and with at most one ambient light (counting those already
    in [s0]), [json_to_scene] returns 0, takes the camera from the
    document and appends its objects and lights, in order, to those of
    [s0]. *)
Theorem json_to_scene_roundtrip s0 s :
  forallb (fun o => negb (is_mtriangle o)) (objects s) = true ->
  (ambient_count (lights s0 ++ lights s) <= 1)%nat ->
  json_to_scene (encode_scene s) s0 =
  Normal (0%Z, mkScene (camera s) (objects s0 ++ objects s) (lights s0 ++ lights s)).
Proof. exact (json_to_scene_encoded s0 s). Qed.

Definition ex_loaded : Scene :=
  mkScene (mkCamera 60 (V3 0 0 (1#2)))
    [Sphere default_material 1 (V3 0 0 (-3)); Plane default_material (V3 0 (-1) 0) (V3 0 1 0);
     Mesh default_material [mkTriangle (V3 0 0 0) (V3 1 0 0) (V3 0 1 0)]]
    [AmbientLight (V3 (1#10) (1#10) (1#10)); PointLight (V3 1 1 1) (V3 0 5 0)].

(** The example document loads, by evaluation. *)
Lemma ex_loaded_loads :
  json_to_scene (encode_scene ex_loaded) empty_scene = Normal (0%Z, ex_loaded).
Proof. vm_compute; reflexivity. Qed.

Lemma json_to_scene_roundtrip_witness :
  json_to_scene (encode_scene ex_loaded) empty_scene = Normal (0%Z, ex_loaded).
Proof. exact (json_to_scene_roundtrip empty_scene ex_loaded eq_refl (le_n 1)). Defined.

(** C36: a second ambient light is an error.  When the lights of the
    document are [l1], an ambient light, then [l2], and [s0] and [l1]
    hold exactly one ambient light, [json_to_scene] returns -1 and leaves
    the scene it was filling: every object of the document appended, the
    lights of [l1] appended, nothing of [l2]. *)
Theorem json_to_scene_second_ambient s0 s l1 c l2 :
  forallb (fun o => negb (is_mtriangle o)) (objects s) = true ->
  lights s = l1 ++ AmbientLight c :: l2 ->
  ambient_count (lights s0 ++ l1) = 1%nat ->
  json_to_scene (encode_scene s) s0 =
  Normal ((-1)%Z, mkScene (camera s) (objects s0 ++ objects s) (lights s0 ++ l1)).
Proof.
  intros Ho Hs Hc; rewrite json_to_scene_enc, load_objects_enc, Hs by exact Ho.
  cbn [ebind lights objects camera]; rewrite Z.ltb_irrefl; cbn beta iota.
  rewrite load_lights_enc_second_ambient; cbn [lights objects camera]; [reflexivity | |lia].
  apply ambient_count_existsb; lia.
Qed.

Lemma json_to_scene_second_ambient_witness :
  json_to_scene (encode_scene (mkScene default_camera [] [AmbientLight vzero; AmbientLight vzero]))
    empty_scene = Normal ((-1)%Z, mkScene default_camera [] [AmbientLight vzero]).
Proof.
  exact (json_to_scene_second_ambient empty_scene
           (mkScene default_camera [] [AmbientLight vzero; AmbientLight vzero])
           [AmbientLight vzero] vzero [] eq_refl eq_refl eq_refl).
Defined.

(** C37: whatever the document, a load that returns leaves at most one
    ambient light in a scene that had at most one. *)
Theorem json_to_scene_ambient_invariant j s r s' :
  json_to_scene j s = Normal (r, s') ->
  (ambient_count (lights s) <= 1)%nat -> (ambient_count (lights s') <= 1)%nat.
Proof. intros H; apply (json_to_scene_shape _ _ _ _ H). Qed.

Lemma json_to_scene_ambient_invariant_witness :
  (ambient_count (lights ex_loaded) <= 1)%nat.
Proof.
  exact (json_to_scene_ambient_invariant (encode_scene ex_loaded) empty_scene 0%Z ex_loaded
           ex_loaded_loads (le_0_n 1)).
Defined.

(** ** Error paths *)

(** C38: an object of unknown type is an error.  When the objects of the
    document are [os1] (written objects), then an object whose "type" is
    none of "sphere", "plane" and "mesh", then anything, [json_to_scene]
    returns -1 after appending the objects of [os1], and reads no light. *)
Theorem json_to_scene_unknown_type s0 c os1 m ty rest ls :
  forallb (fun o => negb (is_mtriangle o)) os1 = true ->
  ty <> "sphere"%string -> ty <> "plane"%string -> ty <> "mesh"%string ->
  json_to_scene
    (scene_doc c (map enc_object os1 ++
                  JObj [("material"%string, enc_material m); ("type"%string, JStr ty)] :: rest) ls) s0 =
  Normal ((-1)%Z, mkScene c (objects s0 ++ os1) (lights s0)).
Proof.
  intros Ho H1 H2 H3; rewrite json_to_scene_doc, load_objects_stop
    by (exact Ho || apply load_object_unknown; assumption).
  reflexivity.
Qed.

Lemma json_to_scene_unknown_type_witness :
  forallb (fun o => negb (is_mtriangle o)) (objects ex_loaded) = true /\
  "cube"%string <> "sphere"%string /\ "cube"%string <> "plane"%string /\
  "cube"%string <> "mesh"%string /\
  json_to_scene
    (scene_doc default_camera (map enc_object (objects ex_loaded) ++
                  [JObj [("material"%string, enc_material default_material); ("type"%string, JStr "cube")]])
       (JArr (map enc_light (lights ex_loaded)))) empty_scene =
  Normal ((-1)%Z, mkScene default_camera (objects ex_loaded) []).
Proof.
  assert (H0 : forallb (fun o => negb (is_mtriangle o)) (objects ex_loaded) = true) by reflexivity.
  assert (H1 : "cube"%string <> "sphere"%string) by discriminate.
  assert (H2 : "cube"%string <> "plane"%string) by discriminate.
  assert (H3 : "cube"%string <> "mesh"%string) by discriminate.
  split; [exact H0 | split; [exact H1 | split; [exact H2 | split; [exact H3 |]]]].
  exact (json_to_scene_unknown_type empty_scene default_camera (objects ex_loaded) default_material
           "cube" [] (JArr (map enc_light (lights ex_loaded))) H0 H1 H2 H3).
Defined.

(** A background with fewer than three numbers reaches [v[0..2]] out of
    range: undefined behaviour, whatever follows in the document. *)
Lemma vec3_of_short l : (length l < 3)%nat -> vec3_of (JArr (map JNum l)) = Undefined.
Proof.
  intros Hl; unfold vec3_of, get_float_vector.
  rewrite (traverse_normal get_float JNum (fun q => q)) by reflexivity.
  rewrite map_id; destruct l as [|x [|y [|z l]]]; cbn in *; [reflexivity..|lia].
Qed.

(** C23: a short vector is undefined behaviour.  [vector_to_vec3] reads
    [v[0]], [v[1]] and [v[2]] without checking the size: when the camera's
    "background" holds fewer than three numbers, [json_to_scene] reads
    past the end of the vector, whatever the rest of the document and the
    scene it loads into. *)
Theorem json_to_scene_short_background l rest s :
  (length l < 3)%nat ->
  json_to_scene (JObj (("camera"%string, JObj [("background"%string, JArr (map JNum l))]) :: rest)) s = Undefined.
Proof. intros Hl; unfold json_to_scene; cbn -[vec3_of]; rewrite vec3_of_short by exact Hl; reflexivity. Qed.

Lemma json_to_scene_short_background_witness :
  (length [1; 2] < 3)%nat /\
  json_to_scene (JObj [("camera"%string, JObj [("background"%string, JArr (map JNum [1; 2]))])])
    empty_scene = Undefined.
Proof. split; [cbn; lia | apply (json_to_scene_short_background [1; 2] [] empty_scene); cbn; lia]. Defined.
