(* ===== verification/Printer.v ===== *)
(** * Printer: [scene_to_cpp] and the [printf_*] helpers of
    src/src/json2schema.cpp, and the utility src/src/utils/json2cpp.cpp

    The printer writes a loaded scene as a C++ initializer.  Its output is
    a [string]: each [printf] is the concatenation of its text, and a
    [%f] conversion is [fmt_f], glibc's rendering of the exact value of the
    argument (a [float] promoted to [double], a rational here): a minus
    sign for a negative value, the integer part in as few digits as
    possible, a point and exactly six digits, rounded to nearest with ties
    to even.  [read_num] is a reader of that format; it is the
    specification the printer is checked against, and the round trip
    [fmt_f_roundtrip] shows what a [%f] keeps of a number: its value
    rounded to six decimals ([round6]).  A negative zero is not a
    rational: glibc prints [-0.0f] as "-0.000000", [fmt_f] prints the
    zero as "0.000000".  [scene_to_cpp_roundtrip] reads the whole
    printed scene back with the layout of the printer's source. *)

From Stdlib Require Import QArith Qround Qabs String Ascii List ZArith Bool Lia Lqa.
From S2P Require Import Prelude Schema Loader.
Import ListNotations.
Open Scope Z_scope.

(** ** Decimal digits *)

Definition digit_char (d : Z) : ascii := ascii_of_nat (48 + Z.to_nat d).

Definition digit_val (c : ascii) : option Z :=
  let n := nat_of_ascii c in
  if (48 <=? n)%nat && (n <? 58)%nat then Some (Z.of_nat n - 48) else None.

Definition render (ds : list Z) : string :=
  fold_right (fun d s => String (digit_char d) s) EmptyString ds.

(** The last [k] digits of [n], most significant first. *)
Fixpoint fixed (k : nat) (n : Z) : list Z :=
  match k with
  | O => []
  | S k' => fixed k' (n / 10) ++ [n mod 10]
  end.

(** The number of digits of [n], one at least; [fuel] halvings suffice. *)
Fixpoint count_digits (fuel : nat) (n : Z) : nat :=
  match fuel with
  | O => 1
  | S f => if n <? 10 then 1 else S (count_digits f (n / 10))
  end.

Definition ndigits (n : Z) : nat := count_digits (S (Z.to_nat (Z.log2 n))) n.

(** The digits of [n] without leading zeros ([0] for 0). *)
Definition idigits (n : Z) : list Z := fixed (ndigits n) n.

Definition value (ds : list Z) : Z := fold_left (fun a d => a * 10 + d) ds 0.

(** ** [%f] *)

(** Rounding to the nearest integer, ties to even. *)
Definition round_half_even (x : Q) : Z :=
  let n := Qfloor x in
  let f := (x - inject_Z n)%Q in
  if Qltb f (1 # 2) then n
  else if Qltb (1 # 2) f then n + 1
  else if Z.even n then n else n + 1.

(** [|x|] in millionths, rounded. *)
Definition micro (x : Q) : Z := round_half_even (Qabs x * inject_Z (10 ^ 6)).

Definition fmt_f (x : Q) : string :=
  let n := micro x in
  ((if Qltb x 0 then "-" else "") ++ render (idigits (n / 10 ^ 6)) ++ "." ++
   render (fixed 6 (n mod 10 ^ 6)))%string.

(** ** Reading a [%f] back *)

Fixpoint take_digits (s : string) : list Z * string :=
  match s with
  | String c s' =>
      match digit_val c with
      | Some d => let '(ds, r) := take_digits s' in (d :: ds, r)
      | None => ([], s)
      end
  | EmptyString => ([], EmptyString)
  end.

Definition num_of (neg : bool) (ip fp : Z) : Q :=
  ((if neg then -1 else 1) * (inject_Z (ip * 10 ^ 6 + fp) / inject_Z (10 ^ 6)))%Q.

Definition split_sign (s : string) : bool * string :=
  match s with
  | String "-"%char s' => (true, s')
  | _ => (false, s)
  end.

(** At least one digit, a point and six digits: the integer part, the
    fraction in millionths, and the rest of the text. *)
Definition read_unsigned (s : string) : option (Z * Z * string) :=
  match take_digits s with
  | ([], _) => None
  | (ia, String "."%char s2) =>
      let '(fb, s3) := take_digits s2 in
      if (length fb =? 6)%nat then Some (value ia, value fb, s3) else None
  | _ => None
  end.

(** A [%f] read back: an optional minus sign and the unsigned part. *)
Definition read_num (s : string) : option (Q * string) :=
  let '(neg, s1) := split_sign s in
  match read_unsigned s1 with
  | Some (ip, fp, s3) => Some (num_of neg ip fp, s3)
  | None => None
  end.

(** What a [%f] keeps of [x]. *)
Definition round6 (x : Q) : Q :=
  num_of (Qltb x 0) (micro x / 10 ^ 6) (micro x mod 10 ^ 6).

(** ** json2schema.cpp, lines 129-261 *)

Local Open Scope string_scope.

Definition nl : string := String (ascii_of_nat 10) EmptyString.

(** [printf_rgb] (lines 129-131), [printf_vertex] (133-135) and
    [printf_vector] (137-139): the three coordinates under a
    constructor name. *)
Definition printf_triple (name : string) (v : vec3) : string :=
  name ++ "( " ++ fmt_f (vx v) ++ ", " ++ fmt_f (vy v) ++ ", " ++ fmt_f (vz v) ++ " )".

Definition printf_rgb (c : vec3) : string := printf_triple "RGB" c.
Definition printf_vertex (v : vec3) : string := printf_triple "Vertex" v.
Definition printf_vector (v : vec3) : string := printf_triple "Vector" v.

(** [printf_material] (lines 141-153). *)
Definition printf_material (m : Material) : string :=
  "Material( " ++ printf_rgb (ambient m) ++ ", " ++ printf_rgb (diffuse m) ++ ", " ++
  printf_rgb (specular m) ++ ", " ++ fmt_f (shininess m) ++ ", " ++
  printf_rgb (reflective m) ++ ", " ++ printf_rgb (transmissive m) ++ ", " ++
  fmt_f (refraction m) ++ " )".

(** The loops of [scene_to_cpp] end every element but the last with
    [",\n"] and the last with ["\n"] ([if (i < size - 1)]). *)
Fixpoint print_list {A} (pr : A -> string) (l : list A) : string :=
  match l with
  | [] => ""
  | [x] => pr x ++ nl
  | x :: l' => pr x ++ "," ++ nl ++ print_list pr l'
  end.

(** Lines 192-198: one triangle of a mesh. *)
Definition print_triangle (t : Triangle) : string :=
  "         { " ++ printf_vertex (vert0 t) ++ ", " ++ printf_vertex (vert1 t) ++ ", " ++
  printf_vertex (vert2 t) ++ " }".

(** Lines 165-206: one object; a split mesh triangle (tag "mTriangle")
    matches none of the three tests and prints nothing. *)
Definition print_object (o : Object) : string :=
  match o with
  | Sphere m r p =>
      "    new Sphere( " ++ printf_material m ++ ", " ++ fmt_f r ++ ", " ++
      printf_vertex p ++ " )"
  | Plane m p n =>
      "    new Plane( " ++ printf_material m ++ ", " ++ printf_vertex p ++ ", " ++
      printf_vector n ++ " )"
  | Mesh m ts =>
      "    new Mesh( " ++ printf_material m ++ "," ++ nl ++ "      {" ++ nl ++
      print_list print_triangle ts ++ "      } )"
  | MTriangle _ _ _ => ""
  end.

(** Lines 220-250: one light. *)
Definition print_light (l : Light) : string :=
  match l with
  | AmbientLight c => "    new AmbientLight( " ++ printf_rgb c ++ " )"
  | DirectionalLight c d =>
      "    new DirectionalLight( " ++ printf_rgb c ++ ", " ++ printf_vector d ++ " )"
  | PointLight c p =>
      "    new PointLight( " ++ printf_rgb c ++ ", " ++ printf_vertex p ++ " )"
  | SpotLight c p d k =>
      "    new SpotLight( " ++ printf_rgb c ++ ", " ++ printf_vertex p ++ ", " ++
      printf_vector d ++ ", " ++ fmt_f k ++ " )"
  end.

(** [scene_to_cpp] (lines 155-261). *)
Definition scene_to_cpp (s : Scene) : string :=
  "Scene scene = {" ++ nl ++ "  // camera" ++ nl ++
  "  { " ++ fmt_f (field (camera s)) ++ ", " ++ printf_rgb (background (camera s)) ++
  " }," ++ nl ++ "  // objects" ++ nl ++ "  {" ++ nl ++
  print_list print_object (objects s) ++
  "  }," ++ nl ++ "  // lights" ++ nl ++ "  {" ++ nl ++
  print_list print_light (lights s) ++
  "  }" ++ nl ++ "};" ++ nl.

(** ** utils/json2cpp.cpp *)

(** The utility's own [scene_to_cpp] (lines 24-130) is json2schema.cpp's
    word for word. *)
Definition json2cpp_scene_to_cpp : Scene -> string := scene_to_cpp.

(** [main] (lines 150-157) once the document is parsed: [json_to_scene]
    into the global [Scene s] (line 20, empty), a negative result returned
    as the exit code, else the scene printed and 0.  The text is what
    [main] itself prints; the "***" messages [json_to_scene] prints on an
    unknown type or a second ambient light (json2schema.cpp lines 82, 99
    and 119) are not part of the model. *)
Definition json2cpp_main (jscene : json) : exec (Z * string) :=
  '(result, s) <- json_to_scene jscene empty_scene ;;
  if (result <? 0)%Z then Normal (result, "") else Normal (0%Z, json2cpp_scene_to_cpp s).

Local Close Scope string_scope.

(** Whether a text starts with a digit: a number read ends before it. *)
Definition digit_start (s : string) : bool :=
  match s with String c _ => match digit_val c with Some _ => true | None => false end | EmptyString => false end.

(** ** Digits *)

Definition is_digit (d : Z) : Prop := 0 <= d < 10.

Lemma digit_cases d : is_digit d ->
  d = 0 \/ d = 1 \/ d = 2 \/ d = 3 \/ d = 4 \/ d = 5 \/ d = 6 \/ d = 7 \/ d = 8 \/ d = 9.
Proof. unfold is_digit; lia. Qed.

Ltac digit_case H := apply digit_cases in H; repeat destruct H as [-> | H]; [..| subst].

Lemma digit_val_char d : is_digit d -> digit_val (digit_char d) = Some d.
Proof. intros H; digit_case H; reflexivity. Qed.

Lemma string_app_assoc (a b c : string) : ((a ++ b) ++ c = a ++ b ++ c)%string.
Proof. induction a as [|x a IH]; cbn; [reflexivity | rewrite IH; reflexivity]. Qed.

Lemma take_digits_render ds r :
  Forall is_digit ds -> digit_start r = false -> take_digits (render ds ++ r) = (ds, r).
Proof.
  intros Hds Hr; induction Hds as [|d ds Hd _ IH].
  - destruct r as [|c r]; cbn in *; [reflexivity|].
    destruct (digit_val c); [discriminate | reflexivity].
  - cbn [render fold_right String.append take_digits].
    fold (render ds); rewrite digit_val_char, IH by exact Hd; reflexivity.
Qed.

Lemma split_sign_digits ds r :
  ds <> [] -> Forall is_digit ds -> split_sign (render ds ++ r) = (false, (render ds ++ r)%string).
Proof.
  intros Hne Hds; destruct Hds as [|d ds Hd _]; [congruence|].
  digit_case Hd; reflexivity.
Qed.

Lemma value_app ds d : value (ds ++ [d]) = value ds * 10 + d.
Proof. unfold value; rewrite fold_left_app; reflexivity. Qed.

Lemma fixed_length k n : length (fixed k n) = k.
Proof.
  revert n; induction k as [|k IH]; intros n; cbn; [reflexivity|].
  rewrite length_app, IH; cbn; lia.
Qed.

Lemma fixed_digits k n : Forall is_digit (fixed k n).
Proof.
  revert n; induction k as [|k IH]; intros n; cbn; [constructor|].
  apply Forall_app; split; [apply IH|].
  constructor; [apply Z.mod_pos_bound; lia | constructor].
Qed.

Lemma value_fixed k n : 0 <= n -> value (fixed k n) = n mod 10 ^ Z.of_nat k.
Proof.
  revert n; induction k as [|k IH]; intros n Hn; cbn [fixed].
  - rewrite Z.pow_0_r, Z.mod_1_r; reflexivity.
  - rewrite value_app, IH by (apply Z.div_pos; lia).
    rewrite Nat2Z.inj_succ, Z.pow_succ_r by lia.
    assert (0 < 10 ^ Z.of_nat k) by (apply Z.pow_pos_nonneg; lia).
    rewrite (Z.mod_eq n (10 * _)), (Z.mod_eq (n / 10)), (Z.mod_eq n 10), <- Z.div_div by lia; ring.
Qed.

Lemma count_digits_bound f n : 0 <= n < 2 ^ Z.of_nat f -> n < 10 ^ Z.of_nat (count_digits f n).
Proof.
  revert n; induction f as [|f IH]; intros n Hn; cbn -[Z.pow].
  - cbn in Hn; cbn; lia.
  - destruct (Z.ltb_spec n 10); [cbn; lia|].
    rewrite Nat2Z.inj_succ in *; rewrite Z.pow_succ_r in * by lia.
    assert (Hd : n / 10 < 10 ^ Z.of_nat (count_digits f (n / 10))).
    { apply IH; split; [apply Z.div_pos; lia|].
      apply Z.div_lt_upper_bound; lia. }
    pose proof (Z.mul_div_le n 10); pose proof (Z.mod_pos_bound n 10).
    pose proof (Z.div_mod n 10); lia.
Qed.

Lemma ndigits_bound n : 0 <= n -> n < 10 ^ Z.of_nat (ndigits n).
Proof.
  intros Hn; apply count_digits_bound; split; [exact Hn|].
  rewrite Nat2Z.inj_succ, Z2Nat.id by apply Z.log2_nonneg.
  destruct (Z.eq_dec n 0) as [->|]; [reflexivity|].
  apply Z.log2_spec; lia.
Qed.

Lemma value_idigits n : 0 <= n -> value (idigits n) = n.
Proof.
  intros Hn; unfold idigits; rewrite value_fixed by exact Hn.
  apply Z.mod_small; split; [exact Hn | apply ndigits_bound, Hn].
Qed.

Lemma idigits_nonempty n : idigits n <> [].
Proof.
  unfold idigits, ndigits; intros H; apply (f_equal (@length Z)) in H.
  rewrite fixed_length in H; cbn in H; destruct (n <? 10); discriminate.
Qed.

Lemma read_unsigned_render ia fb r :
  ia <> [] -> Forall is_digit ia -> Forall is_digit fb -> length fb = 6%nat ->
  digit_start r = false ->
  read_unsigned (render ia ++ String "."%char (render fb ++ r)) = Some (value ia, value fb, r).
Proof.
  intros Hne Hia Hfb Hl Hr; unfold read_unsigned.
  rewrite take_digits_render by (exact Hia || reflexivity).
  rewrite take_digits_render by assumption; rewrite Hl.
  destruct ia; [congruence | reflexivity].
Qed.

Lemma Qfloor_nonneg q : (0 <= q)%Q -> 0 <= Qfloor q.
Proof. intros H; apply (Qfloor_resp_le 0 q) in H; exact H. Qed.

Lemma micro_nonneg x : 0 <= micro x.
Proof.
  unfold micro, round_half_even.
  assert (0 <= Qfloor (Qabs x * inject_Z (10 ^ 6))).
  { apply Qfloor_nonneg, Qmult_le_0_compat; [apply Qabs_nonneg | discriminate]. }
  repeat match goal with |- context [if ?b then _ else _] => destruct b end; lia.
Qed.

Lemma split_sign_fmt (b : bool) ds r :
  ds <> [] -> Forall is_digit ds ->
  split_sign ((if b then "-" else "") ++ render ds ++ r)%string = (b, (render ds ++ r)%string).
Proof. intros Hne Hds; destruct b; [reflexivity | apply split_sign_digits; assumption]. Qed.

(** ** What a [%f] keeps *)

(** Reading back a [%f].  Whatever text follows, as long as it does not
    start with a digit, [read_num] reads back from [fmt_f x] the value
    [round6 x] and leaves the following text. *)
Lemma fmt_f_roundtrip x r :
  digit_start r = false -> read_num (fmt_f x ++ r) = Some (round6 x, r).
Proof.
  intros Hr; unfold fmt_f, read_num, round6.
  pose proof (micro_nonneg x) as Hn.
  assert (Hip : 0 <= micro x / 10 ^ 6) by (apply Z.div_pos; lia).
  assert (Hfp : 0 <= micro x mod 10 ^ 6) by (apply Z.mod_pos_bound; lia).
  rewrite !string_app_assoc, split_sign_fmt by (apply idigits_nonempty || apply fixed_digits).
  cbn [String.append]; rewrite read_unsigned_render;
    [| apply idigits_nonempty | apply fixed_digits | apply fixed_digits | apply fixed_length | exact Hr].
  unfold idigits; rewrite !value_fixed by assumption.
  rewrite (Z.mod_small (micro x / 10 ^ 6)), Z.mod_mod by (lia || (split; [lia | apply ndigits_bound; lia])).
  reflexivity.
Qed.

(** ** Reading the printed scene back

    A reader of the text [scene_to_cpp] writes, built from [read_num],
    literal text [lit], sequencing and choice: the specification of the
    printer's output format. *)

Definition parser (A : Type) : Type := string -> option (A * string).

Definition pret {A} (a : A) : parser A := fun s => Some (a, s).

Definition pbind {A B} (p : parser A) (k : A -> parser B) : parser B :=
  fun s => match p s with Some (a, s') => k a s' | None => None end.

Definition palt {A} (p q : parser A) : parser A :=
  fun s => match p s with Some r => Some r | None => q s end.

Declare Scope parser_scope.
Notation "p >>= k" := (pbind p k) (at level 61, right associativity) : parser_scope.
Notation "p >> q" := (pbind p (fun _ => q)) (at level 61, right associativity) : parser_scope.
Open Scope parser_scope.

Fixpoint lit (t : string) : parser unit :=
  fun s =>
    match t, s with
    | EmptyString, _ => Some (tt, s)
    | String c t', String c' s' => if Ascii.eqb c c' then lit t' s' else None
    | String _ _, EmptyString => None
    end.

Definition read_triple (name : string) : parser vec3 :=
  lit name >> lit "( " >> read_num >>= fun x => lit ", " >> read_num >>= fun y =>
  lit ", " >> read_num >>= fun z => lit " )" >> pret (V3 x y z).

Definition read_rgb : parser vec3 := read_triple "RGB".
Definition read_vertex : parser vec3 := read_triple "Vertex".
Definition read_vector : parser vec3 := read_triple "Vector".

Definition read_material : parser Material :=
  lit "Material( " >> read_rgb >>= fun a => lit ", " >> read_rgb >>= fun d =>
  lit ", " >> read_rgb >>= fun sp => lit ", " >> read_num >>= fun sh =>
  lit ", " >> read_rgb >>= fun rl => lit ", " >> read_rgb >>= fun tr =>
  lit ", " >> read_num >>= fun rf => lit " )" >> pret (mkMaterial a d sp sh rl tr rf).

(** Items of [print_list]: each followed by [","] and a newline, the last
    by a newline alone.  [fuel] bounds the number of items. *)
Fixpoint read_items {A} (fuel : nat) (p : parser A) : parser (list A) :=
  fun s =>
    match fuel with
    | O => None
    | S f =>
        match p s with
        | Some (a, s1) =>
            match lit "," s1 with
            | Some (_, s2) =>
                (lit nl >> read_items f p >>= fun l => pret (a :: l)) s2
            | None => (lit nl >> pret [a]) s1
            end
        | None => None
        end
    end.

(** A list that is empty when the closing text [close] follows. *)
Definition read_list {A} (close : string) (p : parser A) : parser (list A) :=
  fun s => match lit close s with
           | Some _ => Some ([], s)
           | None => read_items (String.length s) p s
           end.

Definition read_triangle : parser Triangle :=
  lit "         { " >> read_vertex >>= fun v0 => lit ", " >> read_vertex >>= fun v1 =>
  lit ", " >> read_vertex >>= fun v2 => lit " }" >> pret (mkTriangle v0 v1 v2).

Definition read_object : parser Object :=
  palt (lit "    new Sphere( " >> read_material >>= fun m => lit ", " >> read_num >>= fun r =>
        lit ", " >> read_vertex >>= fun p => lit " )" >> pret (Sphere m r p))
  (palt (lit "    new Plane( " >> read_material >>= fun m => lit ", " >> read_vertex >>= fun p =>
         lit ", " >> read_vector >>= fun n => lit " )" >> pret (Plane m p n))
        (lit "    new Mesh( " >> read_material >>= fun m => lit "," >> lit nl >>
         lit "      {" >> lit nl >> read_list "      }" read_triangle >>= fun ts =>
         lit "      }" >> lit " )" >> pret (Mesh m ts))).

Definition read_light : parser Light :=
  palt (lit "    new AmbientLight( " >> read_rgb >>= fun c => lit " )" >> pret (AmbientLight c))
  (palt (lit "    new DirectionalLight( " >> read_rgb >>= fun c => lit ", " >>
         read_vector >>= fun d => lit " )" >> pret (DirectionalLight c d))
  (palt (lit "    new PointLight( " >> read_rgb >>= fun c => lit ", " >>
         read_vertex >>= fun p => lit " )" >> pret (PointLight c p))
        (lit "    new SpotLight( " >> read_rgb >>= fun c => lit ", " >>
         read_vertex >>= fun p => lit ", " >> read_vector >>= fun d => lit ", " >>
         read_num >>= fun k => lit " )" >> pret (SpotLight c p d k)))).

Definition read_scene : parser Scene :=
  lit "Scene scene = {" >> lit nl >> lit "  // camera" >> lit nl >>
  lit "  { " >> read_num >>= fun fld => lit ", " >> read_rgb >>= fun bg =>
  lit " }," >> lit nl >> lit "  // objects" >> lit nl >> lit "  {" >> lit nl >>
  read_list "  }" read_object >>= fun os =>
  lit "  }" >> lit "," >> lit nl >> lit "  // lights" >> lit nl >> lit "  {" >> lit nl >>
  read_list "  }" read_light >>= fun ls =>
  lit "  }" >> lit nl >> lit "};" >> lit nl >> pret (mkScene (mkCamera fld bg) os ls).

(** The whole text is one scene. *)
Definition read_cpp (s : string) : option Scene :=
  match read_scene s with Some (sc, EmptyString) => Some sc | _ => None end.

(** A scene with each number replaced by what a [%f] keeps of it. *)
Definition round_v (v : vec3) : vec3 := V3 (round6 (vx v)) (round6 (vy v)) (round6 (vz v)).

Definition round_material (m : Material) : Material :=
  mkMaterial (round_v (ambient m)) (round_v (diffuse m)) (round_v (specular m))
    (round6 (shininess m)) (round_v (reflective m)) (round_v (transmissive m))
    (round6 (refraction m)).

Definition round_triangle (t : Triangle) : Triangle :=
  mkTriangle (round_v (vert0 t)) (round_v (vert1 t)) (round_v (vert2 t)).

Definition round_object (o : Object) : Object :=
  match o with
  | Sphere m r p => Sphere (round_material m) (round6 r) (round_v p)
  | Plane m p n => Plane (round_material m) (round_v p) (round_v n)
  | Mesh m ts => Mesh (round_material m) (map round_triangle ts)
  | MTriangle m t mp => MTriangle (round_material m) (round_triangle t) (round_v mp)
  end.

Definition round_light (l : Light) : Light :=
  match l with
  | AmbientLight c => AmbientLight (round_v c)
  | DirectionalLight c d => DirectionalLight (round_v c) (round_v d)
  | PointLight c p => PointLight (round_v c) (round_v p)
  | SpotLight c p d k => SpotLight (round_v c) (round_v p) (round_v d) (round6 k)
  end.

Definition round_scene (s : Scene) : Scene :=
  mkScene (mkCamera (round6 (field (camera s))) (round_v (background (camera s))))
    (map round_object (objects s)) (map round_light (lights s)).

(** ** The reader reads what the printer prints *)

Local Open Scope string_scope.

Lemma lit_app t r : lit t (t ++ r) = Some (tt, r).
Proof. induction t as [|c t IH]; cbn; [reflexivity | rewrite Ascii.eqb_refl; exact IH]. Qed.

Lemma pbind_lit {A} t (k : unit -> parser A) r : pbind (lit t) k (t ++ r) = k tt r.
Proof. unfold pbind; rewrite lit_app; reflexivity. Qed.

Lemma pbind_num {A} x (k : Q -> parser A) r :
  digit_start r = false -> pbind read_num k (fmt_f x ++ r) = k (round6 x) r.
Proof. intros Hr; unfold pbind; rewrite fmt_f_roundtrip by exact Hr; reflexivity. Qed.

(** A reader [p] reads back [y] from a printed [x]. *)
Definition reads {A} (p : parser A) (x : string) (y : A) : Prop :=
  forall r, p (x ++ r) = Some (y, r).

Lemma pbind_reads {A B} (p : parser A) x y (k : A -> parser B) r :
  reads p x y -> pbind p k (x ++ r) = k y r.
Proof. intros H; unfold pbind; rewrite H; reflexivity. Qed.

Lemma string_length_app (a b : string) : String.length (a ++ b) = (String.length a + String.length b)%nat.
Proof. induction a as [|c a IH]; cbn; [reflexivity | rewrite IH; reflexivity]. Qed.

Lemma print_list_cons {A} (pr : A -> string) a l :
  print_list pr (a :: l) = pr a ++ match l with [] => nl | _ => "," ++ nl ++ print_list pr l end.
Proof. destruct l; reflexivity. Qed.

Lemma print_list_length {A} (pr : A -> string) l : (length l <= String.length (print_list pr l))%nat.
Proof.
  induction l as [|a l IH]; [cbn; lia|]; rewrite print_list_cons, string_length_app.
  destruct l; cbn [String.length String.append nl length] in *; lia.
Qed.

Lemma read_items_print {A B} (p : parser B) (pr : A -> string) (f : A -> B) l r fuel :
  (forall a, In a l -> reads p (pr a) (f a)) -> l <> [] -> (length l <= fuel)%nat ->
  read_items fuel p (print_list pr l ++ r) = Some (map f l, r).
Proof.
  revert fuel; induction l as [|a l IH]; intros fuel Hp Hne Hf; [congruence|].
  destruct fuel as [|fuel]; [cbn in Hf; lia|].
  rewrite print_list_cons, string_app_assoc; cbn [read_items].
  rewrite (Hp a (or_introl eq_refl)); destruct l as [|b l].
  - reflexivity.
  - rewrite string_app_assoc, lit_app, string_app_assoc, pbind_lit; unfold pbind.
    rewrite IH; [reflexivity | intros c Hc; apply Hp; right; exact Hc | discriminate | cbn in *; lia].
Qed.

Lemma read_list_print {A B} close (p : parser B) (pr : A -> string) (f : A -> B) l r :
  (forall a, In a l -> reads p (pr a) (f a) /\ forall r', lit close (pr a ++ r') = None) ->
  read_list close p (print_list pr l ++ close ++ r) = Some (map f l, (close ++ r)%string).
Proof.
  intros Hp; unfold read_list; destruct l as [|a l].
  - cbn [print_list map String.append]; rewrite lit_app; reflexivity.
  - assert (Hc : lit close (print_list pr (a :: l) ++ close ++ r) = None).
    { rewrite print_list_cons, string_app_assoc; apply Hp; left; reflexivity. }
    rewrite Hc, (read_items_print p pr f); [reflexivity | intros; apply Hp; assumption | discriminate |].
    rewrite string_length_app; pose proof (print_list_length pr (a :: l)); lia.
Qed.

Lemma lit_reads t : reads (lit t) t tt.
Proof. intros r; apply lit_app. Qed.

Lemma palt_l {A} (p q : parser A) s x : p s = Some x -> palt p q s = Some x.
Proof. unfold palt; intros ->; reflexivity. Qed.

Lemma palt_r {A} (p q : parser A) s : p s = None -> palt p q s = q s.
Proof. unfold palt; intros ->; reflexivity. Qed.

Create HintDb reads discriminated.
#[export] Hint Resolve lit_reads : reads.

(** Read a printed text piece by piece: a number, or anything the hint
    database [reads] knows how to read. *)
Ltac pread :=
  repeat (rewrite ?string_app_assoc;
          first [ rewrite pbind_num by reflexivity
                | erewrite pbind_reads by eauto with reads ];
          cbv beta).

Lemma read_triple_reads name v : reads (read_triple name) (printf_triple name v) (round_v v).
Proof. intros r; unfold read_triple, printf_triple; pread; reflexivity. Qed.

Lemma read_rgb_reads c : reads read_rgb (printf_rgb c) (round_v c).
Proof. apply read_triple_reads. Qed.
Lemma read_vertex_reads v : reads read_vertex (printf_vertex v) (round_v v).
Proof. apply read_triple_reads. Qed.
Lemma read_vector_reads v : reads read_vector (printf_vector v) (round_v v).
Proof. apply read_triple_reads. Qed.
#[export] Hint Resolve read_rgb_reads read_vertex_reads read_vector_reads : reads.

Lemma read_material_reads m : reads read_material (printf_material m) (round_material m).
Proof. intros r; unfold read_material, printf_material; pread; reflexivity. Qed.

Lemma read_triangle_reads t : reads read_triangle (print_triangle t) (round_triangle t).
Proof. intros r; unfold read_triangle, print_triangle; pread; reflexivity. Qed.
#[export] Hint Resolve read_material_reads read_triangle_reads : reads.

Lemma pbind_list {A B C} close (p : parser B) (pr : A -> string) (f : A -> B) l
    (k : list B -> parser C) r :
  (forall a, In a l -> reads p (pr a) (f a) /\ forall r', lit close (pr a ++ r') = None) ->
  pbind (read_list close p) k (print_list pr l ++ close ++ r) = k (map f l) (close ++ r).
Proof. intros H; unfold pbind; rewrite (read_list_print close p pr f) by exact H; reflexivity. Qed.

Lemma read_object_reads o :
  is_mtriangle o = false -> reads read_object (print_object o) (round_object o).
Proof.
  intros Ho r; destruct o as [m rad p | m p n | m ts |]; try discriminate;
    unfold read_object, print_object; rewrite ?string_app_assoc.
  - apply palt_l; pread; reflexivity.
  - rewrite palt_r by reflexivity; apply palt_l; pread; reflexivity.
  - rewrite !palt_r by reflexivity.
    change "      } )" with ("      }" ++ " )"); pread.
    rewrite (pbind_list _ _ _ round_triangle); cbv beta; [pread; reflexivity|].
    intros t _; split; [apply read_triangle_reads | reflexivity].
Qed.

Lemma read_light_reads l : reads read_light (print_light l) (round_light l).
Proof.
  intros r; destruct l; unfold read_light, print_light; rewrite ?string_app_assoc;
    repeat (rewrite palt_r by reflexivity); try apply palt_l; pread; reflexivity.
Qed.

Lemma string_app_nil_r (a : string) : a ++ "" = a.
Proof. induction a as [|c a IH]; cbn; [reflexivity | rewrite IH; reflexivity]. Qed.

(** The printed scene reads back as the scene with every number rounded,
    as long as no object is a split mesh triangle (which prints as
    nothing). *)
Lemma read_scene_reads s :
  forallb (fun o => negb (is_mtriangle o)) (objects s) = true ->
  reads read_scene (scene_to_cpp s) (round_scene s).
Proof.
  intros Ho r; unfold read_scene, scene_to_cpp; change "  }," with ("  }" ++ ","); pread.
  rewrite (pbind_list _ _ _ round_object); cbv beta; [pread|].
  - rewrite (pbind_list _ _ _ round_light); cbv beta; [pread; reflexivity|].
    intros l _; split; [apply read_light_reads | destruct l; reflexivity].
  - intros o Hin; rewrite forallb_forall in Ho; specialize (Ho o Hin); apply negb_true_iff in Ho.
    split; [apply read_object_reads, Ho | destruct o; [reflexivity..|discriminate]].
Qed.

(** C39: what [scene_to_cpp] writes.  For a scene with no split mesh
    triangle (which [scene_to_cpp] prints as nothing), the C++ initializer
    it prints has the layout of lines 155-261 of json2schema.cpp: the
    camera, then one entry per object in order with its kind, material
    and geometry, then one entry per light in order, every number written
    by [%f]; read back with that layout, it gives the scene with each
    number rounded to six decimals, so nothing is dropped, reordered or
    written in the wrong field. *)
Theorem scene_to_cpp_roundtrip s :
  forallb (fun o => negb (is_mtriangle o)) (objects s) = true ->
  read_cpp (scene_to_cpp s) = Some (round_scene s).
Proof.
  intros Ho; unfold read_cpp; rewrite <- (string_app_nil_r (scene_to_cpp s)).
  rewrite read_scene_reads by exact Ho; reflexivity.
Qed.

Lemma scene_to_cpp_roundtrip_witness :
  forallb (fun o => negb (is_mtriangle o)) (objects ex_loaded) = true /\
  read_cpp (scene_to_cpp ex_loaded) = Some (round_scene ex_loaded).
Proof.
  assert (H : forallb (fun o => negb (is_mtriangle o)) (objects ex_loaded) = true) by reflexivity.
  split; [exact H | exact (scene_to_cpp_roundtrip ex_loaded H)].
Defined.

(** ** What the utility emits *)

(** The contract of utils/json2cpp.cpp after parsing.  When [main] returns, its
    exit code is the result of [json_to_scene] on an empty scene; on 0 the
    text it printed reads back, as C++, as the loaded scene with every
    number rounded to six decimals ([round6]), and on -1 [main] printed
    nothing of its own. *)
Lemma json2cpp_main_contract j code out :
  json2cpp_main j = Normal (code, out) ->
  exists s, json_to_scene j empty_scene = Normal (code, s) /\
    ((code = 0%Z /\ read_cpp out = Some (round_scene s)) \/ (code = (-1)%Z /\ out = "")).
Proof.
  unfold json2cpp_main; intros H; einv; destruct x as [r s]; exists s.
  pose proof (json_to_scene_code _ _ _ _ H0) as Hr.
  destruct (json_to_scene_shape _ _ _ _ H0) as [_ (os & Hos & Hok)].
  destruct Hr as [-> | ->]; cbn -[json2cpp_scene_to_cpp] in H; injection H as <- <-; split; auto.
  left; split; [reflexivity|]; unfold read_cpp, json2cpp_scene_to_cpp.
  rewrite <- (string_app_nil_r (scene_to_cpp s)), read_scene_reads by (rewrite Hos; exact Hok).
  reflexivity.
Qed.


(** ** How much a [%f] loses *)

Lemma round_half_even_err y : (Qabs (inject_Z (round_half_even y) - y) <= 1 # 2)%Q.
Proof.
  unfold round_half_even; pose proof (Qfloor_le y); pose proof (Qlt_floor y).
  set (n := Qfloor y) in *; rewrite inject_Z_plus in *.
  apply Qabs_Qle_condition.
  repeat match goal with
         | |- context [Qltb ?a ?b] => destruct (Qltb_spec a b)
         | |- context [Z.even ?m] => destruct (Z.even m)
         end; rewrite ?inject_Z_plus; change (inject_Z 1) with (1 # 1) in *; split; lra.
Qed.

Lemma num_of_micro neg n :
  (num_of neg (n / 10 ^ 6) (n mod 10 ^ 6) == (if neg then -1 else 1) * (inject_Z n / inject_Z (10 ^ 6)))%Q.
Proof.
  unfold num_of; rewrite (Z.mul_comm (n / 10 ^ 6)), <- Z.div_mod by lia; reflexivity.
Qed.

(** A [%f] keeps a number up to half a millionth. *)
Lemma round6_err x : (Qabs (round6 x - x) <= 1 # 2000000)%Q.
Proof.
  unfold round6; rewrite num_of_micro.
  pose proof (round_half_even_err (Qabs x * inject_Z (10 ^ 6))) as E; fold (micro x) in E.
  apply Qabs_Qle_condition in E; apply Qabs_Qle_condition.
  change (inject_Z (10 ^ 6)) with (1000000 # 1) in *; unfold Qdiv.
  change (Qinv (1000000 # 1)) with (1 # 1000000).
  destruct (Qltb_spec x 0); [rewrite Qabs_neg in E by lra | rewrite Qabs_pos in E by lra];
    destruct E; split; lra.
Qed.

(** ... and no more: a radius of [10^-7] prints as [0.000000]. *)
Lemma round6_tenth_micro : (round6 (1 # 10000000) == 0)%Q.
Proof. reflexivity. Qed.
