(* ===== verification/Entry.v ===== *)
(** * Entry: reading the scene file, in [choose_scene] of
    src/src/raytracer.cpp and in [main] of src/src/utils/json2cpp.cpp

    Both programs open a file with [std::fstream] and read it with
    [in >> jscene].  The file system is the interface [FileSystem]: a path
    names a file or nothing, a file is writable or not, and its text reads
    as a JSON document or throws nlohmann's [parse_error] ([fe_document],
    an [exec json]).  A default-constructed [std::fstream] opens for
    reading and writing, so it opens only an existing writable file
    ([fstream_open]).

    The messages the two functions write to [std::cout] are returned as a
    list of lines (a writer's trace); the messages [json_to_scene] itself
    prints are not part of the model.  [choose_scene_file] is
    [choose_scene] from its first line and calls [Loader.choose_scene] for
    the part after the document is read; [json2cpp_run] is the utility's
    [main] and calls [Printer.json2cpp_main].  [json2cpp_spec] states what
    the utility's [main] prints of its own and returns, and
    [json2cpp_run_contract] shows that [main] implements it.  The utility
    is modelled from its source; src/src/utils/json2cpp.cpp as it stands
    does not build against the repository's schema.h, so nothing is
    claimed about a running json2cpp. *)

From Stdlib Require Import QArith String List ZArith Bool Lia.
From S2P Require Import Prelude Schema Bvh Hit Loader Printer.
Import ListNotations.
Local Open Scope string_scope.

(** ** The file system *)

Record FileEntry := mkFileEntry {
  fe_writable : bool;
  fe_document : exec json }.

Class FileSystem := { lookup_file : string -> option FileEntry }.

Section Entry.
Context `{FS : FileSystem}.

(** [std::fstream in(fname); if (!in.is_open()) ...; in >> jscene]: the
    document, or [None] when the file does not open. *)
Definition fstream_open (fname : string) : option (exec json) :=
  match lookup_file fname with
  | Some fe => if fe_writable fe then Some (fe_document fe) else None
  | None => None
  end.

(** ** raytracer.cpp *)

(** [const char *PATH] (line 20). *)
Definition PATH : string := "scenes/".

(** Line 67: [PATH + std::string(fn) + ".json"]. *)
Definition scene_path (fn : string) : string := PATH ++ fn ++ ".json".

(** [choose_scene(fn)] (lines 59-90); [None] is a [NULL] argument. *)
Definition choose_scene_file `{Sorter} (cfg : Config) (fn : option string)
    : exec (list string * SceneLoad) :=
  let '(out, name) :=
    match fn with
    | None => (["Using default input file " ++ PATH ++ "c.json" ++ nl], "b")
    | Some f => ([], f)
    end in
  let out := app out ["Loading scene " ++ name ++ nl] in
  let fname := scene_path name in
  match fstream_open fname with
  | None => Normal (app out ["Unable to open scene file " ++ fname ++ nl], scene_exit)
  | Some doc =>
      j <- doc ;;
      r <- choose_scene cfg j ;;
      match r with
      | scene_exit => Normal (app out ["Error in scene file " ++ fname ++ nl], scene_exit)
      | _ => Normal (out, r)
      end
  end.

(** ** utils/json2cpp.cpp *)

Definition usage_text (prog : string) : string := "Usage: " ++ prog ++ " scene.json" ++ nl.
Definition unable_text (path : string) : string := "Unable to open scene file " ++ path ++ nl.

(** [main(argc, argv)] (lines 134-158): the text written to the standard
    output and the exit status ([return] or [exit(EXIT_FAILURE)], 1).
    With no argument at all [argv[0]] is a null pointer, and writing it
    is undefined. *)
Definition json2cpp_run (argv : list string) : exec (string * Z) :=
  match argv with
  | [] => Undefined
  | [_; path] =>
      match fstream_open path with
      | None => Normal (unable_text path, 1%Z)
      | Some doc =>
          j <- doc ;;
          '(result, out) <- json2cpp_main j ;;
          Normal (out, result)
      end
  | prog :: _ => Normal (usage_text prog, (-1)%Z)
  end.

(** What the utility's [main] promises: a usage message for a wrong number
    of arguments, a message and status 1 for a file it cannot open, status
    -1 and nothing printed by [main] itself for a scene it rejects (the
    messages [json_to_scene] prints are outside the model), and for a
    scene it loads a text that reads back as that scene up to the six
    decimals of [%f]. *)
Inductive json2cpp_spec : list string -> string -> Z -> Prop :=
| spec_usage prog rest :
    length rest <> 1%nat -> json2cpp_spec (prog :: rest) (usage_text prog) (-1)
| spec_unopened prog path :
    fstream_open path = None -> json2cpp_spec [prog; path] (unable_text path) 1
| spec_rejected prog path j s :
    fstream_open path = Some (Normal j) -> json_to_scene j empty_scene = Normal ((-1)%Z, s) ->
    json2cpp_spec [prog; path] "" (-1)
| spec_printed prog path j s out :
    fstream_open path = Some (Normal j) -> json_to_scene j empty_scene = Normal (0%Z, s) ->
    read_cpp out = Some (round_scene s) ->
    json2cpp_spec [prog; path] out 0.

(** ** The scene file of [choose_scene] *)

(** C40: the default scene file.  [choose_scene(NULL)] announces
    scenes/c.json but then reads scenes/b.json: whatever the file system
    holds, its result is exactly that of [choose_scene("b")], after one
    more message naming scenes/c.json. *)
Theorem choose_scene_file_default `{Sorter} cfg :
  choose_scene_file cfg None =
  (r <- choose_scene_file cfg (Some "b") ;;
   Normal (("Using default input file scenes/c.json" ++ nl) :: fst r, snd r)).
Proof.
  unfold choose_scene_file; cbn [app].
  destruct (fstream_open (scene_path "b")) as [[j| |]|]; cbn [ebind]; try reflexivity.
  destruct (choose_scene cfg j) as [[]| |]; reflexivity.
Qed.

(** A scene file that exists but is read-only does not open. *)
Lemma choose_scene_file_read_only `{Sorter} cfg f doc :
  lookup_file (scene_path f) = Some (mkFileEntry false doc) ->
  choose_scene_file cfg (Some f) =
  Normal (["Loading scene " ++ f ++ nl; "Unable to open scene file " ++ scene_path f ++ nl], scene_exit).
Proof. intros E; unfold choose_scene_file, fstream_open; rewrite E; reflexivity. Qed.

(** C19: from the file to the rendering context.  When the scene file of
    [choose_scene(f)] is writable and holds a scene written in the loader's
    schema, with no split mesh triangle, at most one ambient light and
    something to put in the BVH, [choose_scene] says it loads the scene
    and sets up rendering for exactly that scene: its objects, its planes,
    its background and a BVH over it. *)
Theorem choose_scene_file_loads `{Sorter} cfg f s :
  lookup_file (scene_path f) = Some (mkFileEntry true (Normal (encode_scene s))) ->
  forallb (fun o => negb (is_mtriangle o)) (objects s) = true ->
  (ambient_count (lights s) <= 1)%nat ->
  flat_map bvh_objects (objects s) <> [] ->
  exists t, choose_scene_file cfg (Some f) =
    Normal (["Loading scene " ++ f ++ nl],
            scene_ready (mkRenderContext cfg s t (filter is_plane (objects s)) (background (camera s)))).
Proof.
  intros E Ho Hl Hb; destruct (choose_scene_setup_some cfg s Hb) as [t Ht]; exists t.
  unfold choose_scene_file, fstream_open; rewrite E; cbn [fe_writable fe_document ebind app].
  unfold choose_scene; rewrite json_to_scene_encoded by (exact Ho || exact Hl).
  cbn [ebind app objects lights empty_scene]; rewrite Z.ltb_irrefl.
  replace (mkScene (camera s) (objects s) (lights s)) with s by (destruct s; reflexivity).
  rewrite Ht; reflexivity.
Qed.

(** ** The json2cpp utility *)

(** The utility's [main] implements [json2cpp_spec]: whenever it returns,
    its own output and exit status are one of the four cases. *)
Lemma json2cpp_run_contract argv out code :
  json2cpp_run argv = Normal (out, code) -> json2cpp_spec argv out code.
Proof.
  destruct argv as [|prog [|path [|x rest]]]; cbn; intros H; try discriminate;
    try (injection H as <- <-; apply spec_usage; cbn; lia).
  destruct (fstream_open path) as [doc|] eqn:Eo; [|injection H as <- <-; apply spec_unopened, Eo].
  einv; match goal with
        | HM : json2cpp_main _ = Normal ?p |- _ =>
            destruct p as [r o]; destruct (json2cpp_main_contract _ _ _ HM) as (s & Hs & Hc)
        end; einv; subst.
  destruct Hc as [[-> Hr] | [-> ->]]; [eapply spec_printed | eapply spec_rejected]; eauto.
Qed.

End Entry.

(** ** A file system for the witnesses *)

Definition ex_files : FileSystem :=
  {| lookup_file := fun p =>
       if String.eqb p "scenes/ex.json"
       then Some (mkFileEntry true (Normal (encode_scene ex_loaded))) else None |}.

Lemma choose_scene_file_loads_witness :
  exists t, @choose_scene_file ex_files insertion_sorter default_config (Some "ex") =
    Normal (["Loading scene " ++ "ex" ++ nl],
            scene_ready (mkRenderContext default_config ex_loaded t
                           (filter is_plane (objects ex_loaded)) (background (camera ex_loaded)))).
Proof.
  apply (@choose_scene_file_loads ex_files insertion_sorter default_config "ex" ex_loaded);
    [reflexivity | reflexivity | cbn; lia | discriminate].
Defined.
